(** * wecollabo: panic recovery middleware and graceful shutdown (main.go)

    A shallow embedding of [main.go] and of the parts of the Go runtime and
    of [net/http], [log], [context] and [os/signal] that it calls.

    - Part 1: goroutine bodies as trees of operations, with Go's
      [panic] / [recover] / [defer].
    - Part 2: the library calls of request handlers ([http.ResponseWriter],
      [http.Error], [http.ServeMux]) and their meaning on a response.
    - Part 3: the request side of [main.go]: [recoveryMiddleware] and the
      two routes.
    - Part 4: the process: [cleanup], [main], the background goroutine, and a
      scheduler that interleaves them with signals, time and requests.
    - Part 5: the definitions in which the properties are stated, and
      sample runs.
    - Part 6: the recovery wrapper, routing, and the invariants of the
      process.
    - Parts 7 and 8: the properties of the requests and of the shutdown.
    - Part 9: further properties.
    - Part 10: the properties on sample runs. *)

From Stdlib Require Import String Ascii List ZArith Lia Bool.
From Stdlib Require Import DecimalString FunctionalExtensionality.
Import ListNotations.

Local Open Scope string_scope.
Local Open Scope Z_scope.

(* ===================================================================== *)
(** * Part 1: values, errors, and the Go control monad                    *)
(* ===================================================================== *)

(** The newline character, [\n] in Go string literals. *)
Definition nl : string := String (ascii_of_nat 10) EmptyString.

(** The double quote character. *)
Definition dquote : string := String (ascii_of_nat 34) EmptyString.

(** Go [error] values that the program can meet.  The two sentinels are
    compared by identity in Go ([err != http.ErrServerClosed]); an error
    built elsewhere is never identical to a sentinel, whatever its text. *)
Inductive error : Type :=
| ErrServerClosed                 (* http.ErrServerClosed *)
| DeadlineExceeded                (* context.DeadlineExceeded *)
| Canceled                        (* context.Canceled *)
| errors_New (msg : string).      (* any other error *)

Definition Error (e : error) : string :=
  match e with
  | ErrServerClosed => "http: Server closed"
  | DeadlineExceeded => "context deadline exceeded"
  | Canceled => "context canceled"
  | errors_New msg => msg
  end.

Definition error_eqb (a b : error) : bool :=
  match a, b with
  | ErrServerClosed, ErrServerClosed => true
  | DeadlineExceeded, DeadlineExceeded => true
  | Canceled, Canceled => true
  | _, _ => false
  end.

(** The dynamic values handed to [panic].  Since Go 1.21 a panic always
    carries a non-nil value ([panic(nil)] is turned into a
    [*runtime.PanicNilError]), so [recover()] returns nil exactly when the
    goroutine is not panicking: [option any] below, with [None] for nil. *)
Inductive any : Type :=
| AString (s : string)
| AError (e : error).

(** [%v] of a panic value. *)
Definition fmt_v (v : any) : string :=
  match v with
  | AString s => s
  | AError e => Error e
  end.

(** A goroutine body over operations [E]: it returns, panics, asks
    [recover()], or performs an operation and goes on with its answer. *)
Inductive Go (E : Type -> Type) (A : Type) : Type :=
| Ret (a : A)
| Panic (v : any)
| Recover (k : option any -> Go E A)
| Vis (X : Type) (e : E X) (k : X -> Go E A).

Arguments Ret {E A} a.
Arguments Panic {E A} v.
Arguments Recover {E A} k.
Arguments Vis {E A X} e k.

Fixpoint bind {E A B} (m : Go E A) (f : A -> Go E B) : Go E B :=
  match m with
  | Ret a => f a
  | Panic v => Panic v
  | Recover k => Recover (fun x => bind (k x) f)
  | Vis e k => Vis e (fun x => bind (k x) f)
  end.

Declare Scope go_scope.
Delimit Scope go_scope with go.
Notation "x <- m ;; k" := (bind m (fun x => k))
  (at level 61, m at next level, right associativity) : go_scope.
Notation "m ;; k" := (bind m (fun _ => k))
  (at level 61, right associativity) : go_scope.
Local Open Scope go_scope.

Definition call {E X} (e : E X) : Go E X := Vis e Ret.
Definition panic {E A} (v : any) : Go E A := Panic v.
Definition recover {E} : Go E (option any) := Recover Ret.

(** A deferred function [d] runs while the goroutine is panicking with [p]
    (or not panicking, [None]).  A [recover()] called by [d] gets [p] and
    stops the panic; a panic raised by [d] replaces the current one.  The
    result is the panic still in flight when [d] returns. *)
Fixpoint deferred_call {E} (p : option any) (d : Go E unit) : Go E (option any) :=
  match d with
  | Ret _ => Ret p
  | Panic v => Panic v
  | Recover k => deferred_call None (k p)
  | Vis e k => Vis e (fun x => deferred_call p (k x))
  end.

Definition resume {E} (p : option any) : Go E unit :=
  match p with
  | None => Ret tt
  | Some v => Panic v
  end.

(** [defer d body]: the function whose body is [body] after a [defer d()]
    statement.  [d] runs when the body returns and when it panics; it does
    not run when the process exits inside the body. *)
Fixpoint defer {E} (d : Go E unit) (body : Go E unit) : Go E unit :=
  match body with
  | Ret _ => p <- deferred_call None d ;; resume p
  | Panic v => p <- deferred_call (Some v) d ;; resume p
  | Recover k => Recover (fun x => defer d (k x))
  | Vis e k => Vis e (fun x => defer d (k x))
  end.

(** How a goroutine body ends when it is run to its end. *)
Inductive Outcome (A : Type) : Type :=
| Returned (a : A)
| Panicked (v : any).
Arguments Returned {A} a.
Arguments Panicked {A} v.

(** Operations that every goroutine of this program can perform: write an
    entry on the logger's output, and take the goroutine profile. *)
Class Runtime (E : Type -> Type) : Type := {
  Output : string -> E unit;
  GoroutineProfile : E string
}.

(* --------------------------------------------------------------------- *)
(** ** Strings                                                             *)
(* --------------------------------------------------------------------- *)

(** [strings.HasPrefix]. *)
Fixpoint strings_HasPrefix (s pre : string) {struct pre} : bool :=
  match pre with
  | EmptyString => true
  | String a pre' =>
      match s with
      | EmptyString => false
      | String b s' => Ascii.eqb a b && strings_HasPrefix s' pre'
      end
  end.

Fixpoint last_char (s : string) : option ascii :=
  match s with
  | EmptyString => None
  | String c EmptyString => Some c
  | String _ rest => last_char rest
  end.

Definition ends_with_char (s : string) (c : ascii) : bool :=
  match last_char s with
  | Some c' => Ascii.eqb c c'
  | None => false
  end.

Definition slash : ascii := "/"%char.

(** [strings.Contains]. *)
Fixpoint strings_Contains (s sub : string) : bool :=
  if strings_HasPrefix s sub then true
  else match s with
       | EmptyString => false
       | String _ rest => strings_Contains rest sub
       end.

(* --------------------------------------------------------------------- *)
(** ** The logger                                                          *)
(* --------------------------------------------------------------------- *)

(** [log.Logger.Output] writes one entry: the header (here the prefix
    ["INFO: "], the date and time, and [file:line]) and the text, ended by a
    newline when the text has none.  An entry is recorded by its text. *)
Definition ensure_newline (s : string) : string :=
  if ends_with_char s (ascii_of_nat 10) then s else s ++ nl.

Definition logger_Output {E} `{Runtime E} (text : string) : Go E unit :=
  call (Output (ensure_newline text)).

(** [logger.Println(s)] is [Output(fmt.Sprintln(s))]. *)
Definition logger_Println {E} `{Runtime E} (s : string) : Go E unit :=
  logger_Output (s ++ nl).

(** [pprof.Lookup("goroutine").WriteTo(&buf, 2)] followed by
    [buf.String()]: the text of the stacks of all goroutines. *)
Definition pprof_goroutine_WriteTo {E} `{Runtime E} : Go E string :=
  call GoroutineProfile.

(* ===================================================================== *)
(** * Part 2: net/http as seen by a request handler                        *)
(* ===================================================================== *)

(** The fields of [*http.Request] that routing looks at.  A handler is
    handed a parsed request; requests that the server rejects while parsing
    never reach a handler and are outside this model. *)
Record Request : Type := {
  Method : string;
  RequestURI : string;          (* the request target as sent *)
  URL_Path : string;            (* r.URL.Path *)
  ProtoMajor : Z;
  ProtoMinor : Z
}.

Definition ProtoAtLeast (r : Request) (major minor : Z) : bool :=
  (major <? ProtoMajor r) || ((ProtoMajor r =? major) && (minor <=? ProtoMinor r)).

(** The handle [w] a handler writes its response through. *)
Inductive ResponseWriter : Type := conn_response.

(** What a handler can do: read and change the header map through
    [w.Header()] ([Get], [Set], [Del]), send the header, write to the
    body, log, and take the stacks of the goroutines.  The optional
    interfaces of the writer ([http.Flusher], [http.Hijacker]) are not
    modelled. *)
Inductive HandlerE : Type -> Type :=
| Header_Get (key : string) : HandlerE (option string)
| Header_Set (key value : string) : HandlerE unit
| Header_Del (key : string) : HandlerE unit
| WriteHeader (code : Z) : HandlerE (Outcome unit)
| Write (data : string) : HandlerE unit
| HOutput (text : string) : HandlerE unit
| HGoroutineProfile : HandlerE string.

#[export] Instance Runtime_HandlerE : Runtime HandlerE :=
  {| Output := HOutput; GoroutineProfile := HGoroutineProfile |}.

Definition Handler : Type := ResponseWriter -> Request -> Go HandlerE unit.

(** [http.HandlerFunc(f)] adapts a function to the [Handler] interface. *)
Definition HandlerFunc (f : ResponseWriter -> Request -> Go HandlerE unit) : Handler := f.
Definition ServeHTTP (h : Handler) (w : ResponseWriter) (r : Request) : Go HandlerE unit :=
  h w r.

Definition StatusOK : Z := 200.
Definition StatusMovedPermanently : Z := 301.
Definition StatusBadRequest : Z := 400.
Definition StatusNotFound : Z := 404.
Definition StatusInternalServerError : Z := 500.

(** [w.WriteHeader(code)]; the call panics on an invalid code. *)
Definition ResponseWriter_WriteHeader (w : ResponseWriter) (code : Z) : Go HandlerE unit :=
  o <- call (WriteHeader code) ;;
  match o with
  | Returned _ => Ret tt
  | Panicked v => panic v
  end.

(** [fmt.Fprintln(w, s)]: one [Write] of the text and a newline. *)
Definition fmt_Fprintln (w : ResponseWriter) (s : string) : Go HandlerE unit :=
  call (Write (s ++ nl)).

(** [http.Error], which since Go 1.23 first drops a [Content-Length]
    that was set for other content. *)
Definition http_Error (w : ResponseWriter) (err : string) (code : Z) : Go HandlerE unit :=
  call (Header_Del "Content-Length") ;;
  call (Header_Set "Content-Type" "text/plain; charset=utf-8") ;;
  call (Header_Set "X-Content-Type-Options" "nosniff") ;;
  ResponseWriter_WriteHeader w code ;;
  fmt_Fprintln w err.

Definition NotFoundHandler : Handler :=
  HandlerFunc (fun w r => http_Error w "404 page not found" StatusNotFound).

(* --------------------------------------------------------------------- *)
(** ** The response under construction                                     *)
(* --------------------------------------------------------------------- *)

Record Response : Type := {
  wroteHeader : bool;
  status : Z;
  header : list (string * string);
  contentLength : Z;            (* the length the header declared, -1 for none *)
  written : Z;                  (* the bytes of body the handler has written *)
  body : string;                (* the bytes sent after the header *)
  toHEAD : bool                 (* the request's method is HEAD *)
}.

Definition newResponse (r : Request) : Response :=
  {| wroteHeader := false; status := 0; header := [];
     contentLength := -1; written := 0; body := "";
     toHEAD := String.eqb (Method r) "HEAD" |}.

(** [textproto.CanonicalMIMEHeaderKey]: a key made of token bytes only has
    its first letter and every letter after a hyphen in upper case and the
    other letters in lower case; any other key is left as it is. *)
Definition validHeaderFieldByte (c : ascii) : bool :=
  let n := nat_of_ascii c in
  ((48 <=? n) && (n <=? 57) || (97 <=? n) && (n <=? 122) || (65 <=? n) && (n <=? 90) ||
   existsb (Nat.eqb n) [33; 35; 36; 37; 38; 39; 42; 43; 45; 46; 94; 95; 96; 124; 126])%nat.

Fixpoint all_bytes (f : ascii -> bool) (s : string) : bool :=
  match s with
  | EmptyString => true
  | String c rest => f c && all_bytes f rest
  end.

Fixpoint canonical_from (upper : bool) (s : string) : string :=
  match s with
  | EmptyString => EmptyString
  | String c rest =>
      let n := nat_of_ascii c in
      let c' := if (upper && (97 <=? n) && (n <=? 122))%nat then ascii_of_nat (n - 32)
                else if (negb upper && (65 <=? n) && (n <=? 90))%nat then ascii_of_nat (n + 32)
                else c in
      String c' (canonical_from (Ascii.eqb c' "-") rest)
  end.

Definition CanonicalMIMEHeaderKey (s : string) : string :=
  if all_bytes validHeaderFieldByte s then canonical_from true s else s.

Definition header_del (key : string) (h : list (string * string)) :=
  filter (fun kv => negb (String.eqb (fst kv) key)) h.

Definition header_get (key : string) (h : list (string * string)) : option string :=
  match find (fun kv => String.eqb (fst kv) key) h with
  | Some kv => Some (snd kv)
  | None => None
  end.

Definition header_set (key value : string) (h : list (string * string)) :=
  (key, value) :: header_del key h.

Definition Z_to_string (z : Z) : string :=
  NilZero.string_of_int (Z.to_int z).

(** [strconv.ParseInt(s, 10, 64)]: an optional sign and at least one
    decimal digit, the value within 64 bits; [None] for an error. *)
Definition digit_of (c : ascii) : option Z :=
  let n := Z.of_nat (nat_of_ascii c) in
  if (48 <=? n) && (n <=? 57) then Some (n - 48) else None.

Fixpoint digits_value (s : string) (acc : Z) : option Z :=
  match s with
  | EmptyString => Some acc
  | String c rest =>
      match digit_of c with
      | Some d => digits_value rest (10 * acc + d)
      | None => None
      end
  end.

Definition ParseInt (s : string) : option Z :=
  match s with
  | EmptyString => None
  | String c rest =>
      let neg := Ascii.eqb c "-" in
      let digits := if Ascii.eqb c "+" || neg then rest else s in
      match digits with
      | EmptyString => None
      | _ =>
          match digits_value digits 0 with
          | Some un =>
              if neg then (if un <=? 2 ^ 63 then Some (- un) else None)
              else (if un <? 2 ^ 63 then Some un else None)
          | None => None
          end
      end
  end.

(** The [Content-Length] a handler declared, read when the header is sent:
    a value that is no length is dropped from the header. *)
Definition declared_length (rs : Response) : Z * list (string * string) :=
  match header_get "Content-Length" (header rs) with
  | None => (contentLength rs, header rs)
  | Some cl =>
      if String.eqb cl "" then (contentLength rs, header rs)
      else
        match ParseInt cl with
        | Some v =>
            if 0 <=? v then (v, header rs)
            else (contentLength rs, header_del "Content-Length" (header rs))
        | None => (contentLength rs, header_del "Content-Length" (header rs))
        end
  end.

(** [response.WriteHeader]: only the first call counts; a code outside
    100..999 makes the call panic; a 1xx code other than 101 sends an
    informational header and leaves the response open. *)
Definition do_WriteHeader (code : Z) (rs : Response) : Outcome unit * Response :=
  if wroteHeader rs then (Returned tt, rs)
  else if (code <? 100) || (999 <? code) then
    (Panicked (AString ("invalid WriteHeader code " ++ Z_to_string code)), rs)
  else if (100 <=? code) && (code <=? 199) && negb (code =? 101) then
    (Returned tt, rs)
  else
    (Returned tt,
     {| wroteHeader := true; status := code; header := snd (declared_length rs);
        contentLength := fst (declared_length rs); written := written rs;
        body := body rs; toHEAD := toHEAD rs |}).

Definition bodyAllowedForStatus (code : Z) : bool :=
  if (100 <=? code) && (code <=? 199) then false
  else if code =? 204 then false
  else if code =? 304 then false
  else true.

(** [response.Write]: sends the header with 200 if none was sent; empty
    data ends there, and so does a status that allows no body.  The data
    is counted, and dropped when the count passes the declared length; a
    HEAD request has its body counted and not sent. *)
Definition do_Write (data : string) (rs : Response) : Response :=
  let rs1 := if wroteHeader rs then rs else snd (do_WriteHeader StatusOK rs) in
  if (String.length data =? 0)%nat then rs1
  else if negb (bodyAllowedForStatus (status rs1)) then rs1
  else
    let n := written rs1 + Z.of_nat (String.length data) in
    let sent := if negb (contentLength rs1 =? -1) && (contentLength rs1 <? n) then body rs1
                else if toHEAD rs1 then body rs1
                else body rs1 ++ data in
    {| wroteHeader := wroteHeader rs1; status := status rs1; header := header rs1;
       contentLength := contentLength rs1; written := n;
       body := sent; toHEAD := toHEAD rs1 |}.

Definition set_header (h : list (string * string)) (rs : Response) : Response :=
  {| wroteHeader := wroteHeader rs; status := status rs; header := h;
     contentLength := contentLength rs; written := written rs;
     body := body rs; toHEAD := toHEAD rs |}.

(** The server ends a request whose handler sent no header with a 200. *)
Definition finishRequest (rs : Response) : Response :=
  if wroteHeader rs then rs else snd (do_WriteHeader StatusOK rs).

(** The world of one request: its response, the logger's output so far,
    and the text a goroutine profile would print. *)
Record HState : Type := {
  resp : Response;
  logged : list string;
  stacks : string
}.

Definition with_resp (rs : Response) (s : HState) : HState :=
  {| resp := rs; logged := logged s; stacks := stacks s |}.

Definition perform {X} (e : HandlerE X) (s : HState) : X * HState :=
  match e in HandlerE X return X * HState with
  | Header_Get key => (header_get (CanonicalMIMEHeaderKey key) (header (resp s)), s)
  | Header_Set key value =>
      (tt, with_resp (set_header (header_set (CanonicalMIMEHeaderKey key) value
                                             (header (resp s))) (resp s)) s)
  | Header_Del key =>
      (tt, with_resp (set_header (header_del (CanonicalMIMEHeaderKey key)
                                             (header (resp s))) (resp s)) s)
  | WriteHeader code =>
      let (o, rs) := do_WriteHeader code (resp s) in (o, with_resp rs s)
  | Write data => (tt, with_resp (do_Write data (resp s)) s)
  | HOutput text =>
      (tt, {| resp := resp s; logged := (logged s ++ [text])%list; stacks := stacks s |})
  | HGoroutineProfile => (stacks s, s)
  end.

(** Run a handler body to its end.  A [recover()] outside a deferred call
    finds no panic. *)
Fixpoint exec {A} (p : Go HandlerE A) (s : HState) : Outcome A * HState :=
  match p with
  | Ret a => (Returned a, s)
  | Panic v => (Panicked v, s)
  | Recover k => exec (k None) s
  | Vis e k => let (x, s') := perform e s in exec (k x) s'
  end.

(* --------------------------------------------------------------------- *)
(** ** http.ServeMux                                                       *)
(* --------------------------------------------------------------------- *)

(** [path.Clean] on a rooted path: empty and [.] elements are dropped, a
    [..] element removes the element before it, or nothing at the root. *)
Fixpoint split_slash (s : string) (cur : string) : list string :=
  match s with
  | EmptyString => [cur]
  | String c rest =>
      if Ascii.eqb c slash then cur :: split_slash rest ""
      else split_slash rest (cur ++ String c EmptyString)
  end.

Definition clean_step (stack : list string) (seg : string) : list string :=
  if String.eqb seg "" then stack
  else if String.eqb seg "." then stack
  else if String.eqb seg ".." then tl stack
  else seg :: stack.

Definition path_Clean (p : string) : string :=
  match rev (fold_left clean_step (split_slash p "") []) with
  | [] => "/"
  | segs => fold_right (fun seg acc => "/" ++ seg ++ acc) "" segs
  end.

(** [cleanPath] of net/http: the canonical form of a request path, which
    keeps a trailing slash. *)
Definition cleanPath (p : string) : string :=
  match p with
  | EmptyString => "/"
  | String c _ =>
      let p := if Ascii.eqb c slash then p else "/" ++ p in
      let np := path_Clean p in
      if ends_with_char p slash && negb (String.eqb np "/") then np ++ "/" else np
  end.

Record muxEntry : Type := { pattern : string; h : Handler }.

(** The routing table, in registration order.  [main.go] registers path
    patterns only; patterns that name a host, a method or a wildcard are
    not modelled.  A request is routed on [r.URL.Path], as [ServeMux] did
    before Go 1.22 and does under [GODEBUG=httpmuxgo121=1]; since Go 1.22
    it is routed on [r.URL.EscapedPath()], which is the same string when
    the path holds no escaped byte. *)
Definition ServeMux : Type := list muxEntry.

Definition NewServeMux : ServeMux := [].

Definition mux_m (mux : ServeMux) (key : string) : option muxEntry :=
  find (fun e => String.eqb (pattern e) key) mux.

(** [mux.HandleFunc]: registering an empty pattern or a pattern twice
    panics. *)
Definition HandleFunc {E} (mux : ServeMux) (pat : string) (handler : Handler)
  : Go E ServeMux :=
  if String.eqb pat "" then panic (AString "http: invalid pattern")
  else match mux_m mux pat with
       | Some _ => panic (AString ("http: multiple registrations for " ++ pat))
       | None => Ret (mux ++ [{| pattern := pat; h := handler |}])%list
       end.

(** Among the patterns that end in a slash, the longest one that is a
    prefix of the path. *)
Fixpoint longest_match (es : list muxEntry) (path : string) (best : option muxEntry)
  : option muxEntry :=
  match es with
  | [] => best
  | e :: rest =>
      if ends_with_char (pattern e) slash && strings_HasPrefix path (pattern e) then
        match best with
        | Some b =>
            if (String.length (pattern b) <? String.length (pattern e))%nat
            then longest_match rest path (Some e)
            else longest_match rest path best
        | None => longest_match rest path (Some e)
        end
      else longest_match rest path best
  end.

Definition mux_match (mux : ServeMux) (path : string) : option muxEntry :=
  match mux_m mux path with
  | Some e => Some e
  | None => longest_match mux path None
  end.

Definition mux_handler (mux : ServeMux) (path : string) : Handler :=
  match mux_match mux path with
  | Some e => h e
  | None => NotFoundHandler
  end.

(** [/tree] is redirected to [/tree/] when only the latter is registered. *)
Definition shouldRedirect (mux : ServeMux) (path : string) : bool :=
  match mux_m mux path with
  | Some _ => false
  | None =>
      if String.eqb path "" then false
      else match mux_m mux (path ++ "/") with
           | Some _ => negb (ends_with_char path slash)
           | None => false
           end
  end.

Definition StatusText (code : Z) : string :=
  if code =? 301 then "Moved Permanently" else "".

Section Program.

(** Two strings that net/http formats from a target path and the
    request, left open here: the value of the [Location] header of a
    redirect (the escaped path and the request's query), and the HTML
    note sent as its body. *)
Variable redirect_Location : string -> Request -> string.
Variable redirect_note : string -> Request -> Z -> string.

(** [http.Redirect] to the path [target]. *)
Definition http_Redirect (w : ResponseWriter) (r : Request) (target : string) (code : Z)
  : Go HandlerE unit :=
  ct <- call (Header_Get "Content-Type") ;;
  let hadCT := match ct with Some _ => true | None => false end in
  call (Header_Set "Location" (redirect_Location target r)) ;;
  (if negb hadCT && (String.eqb (Method r) "GET" || String.eqb (Method r) "HEAD")
   then call (Header_Set "Content-Type" "text/html; charset=utf-8")
   else Ret tt) ;;
  ResponseWriter_WriteHeader w code ;;
  if negb hadCT && String.eqb (Method r) "GET"
  then fmt_Fprintln w (redirect_note target r code)
  else Ret tt.

Definition RedirectHandler (target : string) (code : Z) : Handler :=
  HandlerFunc (fun w r => http_Redirect w r target code).

(** [mux.Handler(r)]: CONNECT requests are routed by their path as it
    is; all others are redirected to the canonical form of their path when
    it differs. *)
Definition ServeMux_Handler (mux : ServeMux) (r : Request) : Handler :=
  if String.eqb (Method r) "CONNECT" then
    if shouldRedirect mux (URL_Path r)
    then RedirectHandler (URL_Path r ++ "/") StatusMovedPermanently
    else mux_handler mux (URL_Path r)
  else
    let path := cleanPath (URL_Path r) in
    if shouldRedirect mux path
    then RedirectHandler (path ++ "/") StatusMovedPermanently
    else if negb (String.eqb path (URL_Path r))
    then RedirectHandler path StatusMovedPermanently
    else mux_handler mux (URL_Path r).

(** [mux.ServeHTTP]. *)
Definition ServeMux_ServeHTTP (mux : ServeMux) : Handler :=
  HandlerFunc (fun w r =>
    if String.eqb (RequestURI r) "*" then
      (if ProtoAtLeast r 1 1 then call (Header_Set "Connection" "close") else Ret tt) ;;
      ResponseWriter_WriteHeader w StatusBadRequest
    else
      ServeHTTP (ServeMux_Handler mux r) w r).

(** The server answers [OPTIONS *] itself and hands every other request
    to its [Handler]. *)
Definition globalOptionsHandler : Handler :=
  HandlerFunc (fun w r => call (Header_Set "Content-Length" "0")).

Definition serverHandler_ServeHTTP (handler : Handler) : Handler :=
  HandlerFunc (fun w r =>
    if String.eqb (RequestURI r) "*" && String.eqb (Method r) "OPTIONS"
    then ServeHTTP globalOptionsHandler w r
    else ServeHTTP handler w r).

(* =================================================================== *)
(** * Part 3: main.go, the request side                                 *)
(* =================================================================== *)

(** [logger.Printf]: the arguments are already formatted into [text]. *)
Definition logger_Printf {E} `{Runtime E} (text : string) : Go E unit :=
  logger_Output text.

(** Panic recovery middleware (main.go, lines 20-32). *)
Definition recoveryMiddleware (next : Handler) : Handler :=
  HandlerFunc (fun w r =>
    defer
      (err <- recover ;;
       match err with
       | Some err =>
           buf <- pprof_goroutine_WriteTo ;;          (* Capture stack trace *)
           logger_Printf ("PANIC RECOVERED: " ++ fmt_v err ++ nl ++
                          "STACK TRACE:" ++ nl ++ buf) ;;
           http_Error w "Internal Server Error" StatusInternalServerError
       | None => Ret tt
       end)
      (ServeHTTP next w r)).

(** The handler registered at ["/"] (main.go, lines 44-46). *)
Definition main_func1 : Handler :=
  HandlerFunc (fun w r => fmt_Fprintln w "Hello, World!").

(** The handler registered at ["/panic"] (main.go, lines 49-51). *)
Definition main_func2 : Handler :=
  HandlerFunc (fun w r => panic (AString "Something went wrong!")).

(** The routing table after the two registrations of [main]. *)
Definition main_mux : ServeMux :=
  [ {| pattern := "/"; h := main_func1 |};
    {| pattern := "/panic"; h := main_func2 |} ].

(** [handler := recoveryMiddleware(mux)] (main.go, line 54). *)
Definition main_handler : Handler := recoveryMiddleware (ServeMux_ServeHTTP main_mux).

(** One request served by an [http.Server] whose [Handler] is [handler].
    When the handler returns, the server completes the response.  (When a
    handler panics, the server itself aborts the connection.) *)
Definition serve (handler : Handler) (r : Request) (s : HState) : Outcome unit * HState :=
  match exec (serverHandler_ServeHTTP handler conn_response r)
             (with_resp (newResponse r) s) with
  | (Returned _, s') => (Returned tt, with_resp (finishRequest (resp s')) s')
  | (Panicked v, s') => (Panicked v, s')
  end.

(* =================================================================== *)
(** * Part 4: the process                                               *)
(* =================================================================== *)

(** [syscall.Signal] *)
Definition Signal : Type := Z.
Definition SIGINT : Signal := 2.
Definition SIGTERM : Signal := 15.

(** [time.Duration] and instants, in nanoseconds. *)
Definition Duration : Type := Z.
Definition Time : Type := Z.
Definition Second : Duration := 1000000000.

(** A context made by [context.WithTimeout(context.Background(), d)]. *)
Record Context : Type := { deadline : Time }.

(** [http.Server] *)
Record Server : Type := { Addr : string; Server_Handler : Handler }.

(** A channel of signals is named by its place in the process's table. *)
Definition chan : Type := nat.

(** What a goroutine of the process can do. *)
#[warnings="-register-all"]
Inductive ProcE : Type -> Type :=
| POutput (text : string) : ProcE unit
| PGoroutineProfile : ProcE string
| os_Exit (code : Z) : ProcE Empty_set
| time_Sleep (d : Duration) : ProcE unit
| make_chan (cap : nat) : ProcE chan
| signal_Notify (c : chan) (sigs : list Signal) : ProcE unit
| chan_recv (c : chan) : ProcE Signal
| go_stmt (body : Go ProcE unit) : ProcE unit
| context_WithTimeout (d : Duration) : ProcE Context
| context_cancel (ctx : Context) : ProcE unit
| ListenAndServe (srv : Server) : ProcE error
| Shutdown (srv : Server) (ctx : Context) : ProcE (option error).

#[local] Instance Runtime_ProcE : Runtime ProcE :=
  {| Output := POutput; GoroutineProfile := PGoroutineProfile |}.

(** [logger.Fatalf]: [Output] followed by [os.Exit(1)]. *)
Definition logger_Fatalf (text : string) : Go ProcE unit :=
  logger_Output text ;;
  x <- call (os_Exit 1) ;;
  match x : Empty_set with end.

(** Simulated database cleanup (main.go, lines 35-39). *)
Definition cleanup : Go ProcE unit :=
  logger_Println "Cleaning up resources (DB, caches, etc.)..." ;;
  call (time_Sleep (2 * Second)) ;;                  (* Simulate cleanup time *)
  logger_Println "Cleanup complete. Server shutting down.".

(** The goroutine that runs the server (main.go, lines 66-71).
    [ListenAndServe] always returns a non-nil error. *)
Definition main_func3 (server : Server) : Go ProcE unit :=
  logger_Println "Server started on :8080" ;;
  err <- call (ListenAndServe server) ;;
  if negb (error_eqb err ErrServerClosed)
  then logger_Fatalf ("Server error: " ++ Error err)
  else Ret tt.

(** The deferred recovery of the shutdown path (main.go, lines 82-88). *)
Definition main_func4 : Go ProcE unit :=
  x <- recover ;;
  match x with
  | Some x =>
      buf <- pprof_goroutine_WriteTo ;;
      logger_Printf ("PANIC DURING SHUTDOWN: " ++ fmt_v x ++ nl ++
                     "STACK TRACE:" ++ nl ++ buf)
  | None => Ret tt
  end.

(** [main] (main.go, lines 41-98), with the function called at line 91 as
    a parameter. *)
Definition main_with (cleanup : Go ProcE unit) : Go ProcE unit :=
  (* HTTP server setup *)
  mux <- HandleFunc NewServeMux "/" main_func1 ;;
  mux <- HandleFunc mux "/panic" main_func2 ;;
  (* Wrap middleware to recover from panics *)
  let handler := recoveryMiddleware (ServeMux_ServeHTTP mux) in
  let server := {| Addr := ":8080"; Server_Handler := handler |} in
  (* Channel to listen for OS signals *)
  stop <- call (make_chan 1) ;;
  call (signal_Notify stop [SIGINT; SIGTERM]) ;;
  (* Start the server in a goroutine *)
  call (go_stmt (main_func3 server)) ;;
  (* Graceful shutdown handling *)
  _ <- call (chan_recv stop) ;;                       (* Wait for termination signal *)
  logger_Println "Shutdown signal received. Cleaning up..." ;;
  (* Set timeout for cleanup operations *)
  ctx <- call (context_WithTimeout (5 * Second)) ;;
  defer (call (context_cancel ctx)) (
  (* Defer panic recovery & logging before shutdown *)
  defer main_func4 (
    (* Perform cleanup *)
    cleanup ;;
    (* Gracefully shutdown the server *)
    err <- call (Shutdown server ctx) ;;
    match err with
    | Some err => logger_Fatalf ("Server shutdown failed: " ++ Error err)
    | None => Ret tt
    end ;;
    logger_Println "Server exited gracefully.")).

Definition main : Go ProcE unit := main_with cleanup.

(** The server that [main] builds. *)
Definition main_server : Server := {| Addr := ":8080"; Server_Handler := main_handler |}.

(* ------------------------------------------------------------------- *)
(** ** The state of the process                                         *)
(* ------------------------------------------------------------------- *)

(** A goroutine: what is left of its body, and how far its current
    operation has got when the operation takes time. *)
Inductive Pending : Type :=
| Ready
| Sleeping (until : Time)
| Started
| Done.

Record Thread : Type := { code : Go ProcE unit; pending : Pending }.

Definition thread (body : Go ProcE unit) : Thread :=
  {| code := body; pending := Ready |}.

Record Chan : Type := { cap : nat; buf : list Signal }.

(** The listener and the connections of the one [http.Server]. *)
Inductive ServerState : Type :=
| Srv_new
| Srv_binding (srv : Server)            (* ListenAndServe called *)
| Srv_serving (srv : Server)            (* the socket accepts connections *)
| Srv_failed (msg : string)             (* bind or accept failed *)
| Srv_closing                           (* Shutdown called, connections open *)
| Srv_drained (lnerr : option string).  (* all connections are closed *)

Inductive Goroutine : Type :=
| G_main
| G_go (n : nat)                        (* started by the n-th go statement *)
| G_conn.                               (* serving a connection *)

Definition Goroutine_eqb (a b : Goroutine) : bool :=
  match a, b with
  | G_main, G_main => true
  | G_go n, G_go m => Nat.eqb n m
  | G_conn, G_conn => true
  | _, _ => false
  end.

(** What a goroutine has done in one step, with the answer it got. *)
Inductive Op : Type :=
| Logged (text : string)
| Profiled (text : string)
| Exited (code : Z)                     (* os.Exit *)
| Sleep_begun (until : Time)
| Sleep_done
| Made (c : chan) (n : nat)
| Notified (c : chan) (sigs : list Signal)
| Received (c : chan) (s : Signal)
| Spawned (body : Go ProcE unit)
| Deadline_set (ctx : Context)
| Cancelled (ctx : Context)
| Listen_called (srv : Server)
| Listen_returned (err : error)
| Shutdown_called (ctx : Context)
| Shutdown_returned (err : option error)
| Recovered                             (* recover() found no panic *)
| Finished                              (* the goroutine's function returned *)
| Crashed (v : any).                    (* a panic reached its top *)

(** What an observer of the process sees. *)
Inductive Event : Type :=
| By (g : Goroutine) (o : Op)
| Sent (c : chan) (s : Signal)          (* the signal trap wrote s to c *)
| Dropped (c : chan) (s : Signal)       (* c was full: s is discarded *)
| Unhandled (s : Signal)                (* no channel is registered for s *)
| Killed (s : Signal)                   (* the default action ends the process *)
| Dumped (s : Signal)                   (* the runtime prints the stacks and exits *)
| Bound                                 (* the listening socket is open *)
| Listener_failed (msg : string)
| Drained (lnerr : option string)
| Served (r : Request) (rs : Response)
| Aborted (r : Request) (v : any).

(** How the process ended. *)
Inductive ExitStatus : Type :=
| Exit_code (c : Z)
| Killed_by (s : Signal).

Record Proc : Type := {
  now : Time;
  chans : list Chan;
  notify : list (chan * list Signal);
  server : ServerState;
  main_thread : Thread;
  spawned : list Thread;
  stacks_text : string;
  trace : list (Time * Event);            (* oldest first *)
  exit_status : option ExitStatus
}.

(** What a signal does when no channel is registered for it.  Some end
    the process as killed by the signal ([default_kills]: SIGINT, SIGTERM
    and SIGHUP through the Go runtime, SIGKILL through the system); for
    others the Go runtime prints the stacks of the goroutines and exits
    with status 2 ([default_dumps]: SIGQUIT, SIGABRT, SIGILL, SIGTRAP,
    SIGSYS and the like); the remaining ones leave the process running. *)
Variable default_kills : Signal -> bool.
Variable default_dumps : Signal -> bool.

Definition emit (evs : list Event) (p : Proc) : Proc :=
  {| now := now p; chans := chans p; notify := notify p; server := server p;
     main_thread := main_thread p; spawned := spawned p;
     stacks_text := stacks_text p;
     trace := (trace p ++ map (fun ev => (now p, ev)) evs)%list;
     exit_status := exit_status p |}.

Definition set_exit (st : ExitStatus) (p : Proc) : Proc :=
  {| now := now p; chans := chans p; notify := notify p; server := server p;
     main_thread := main_thread p; spawned := spawned p;
     stacks_text := stacks_text p; trace := trace p; exit_status := Some st |}.

Definition set_now (t : Time) (p : Proc) : Proc :=
  {| now := t; chans := chans p; notify := notify p; server := server p;
     main_thread := main_thread p; spawned := spawned p;
     stacks_text := stacks_text p; trace := trace p; exit_status := exit_status p |}.

Definition set_chans (cs : list Chan) (p : Proc) : Proc :=
  {| now := now p; chans := cs; notify := notify p; server := server p;
     main_thread := main_thread p; spawned := spawned p;
     stacks_text := stacks_text p; trace := trace p; exit_status := exit_status p |}.

Definition set_notify (n : list (chan * list Signal)) (p : Proc) : Proc :=
  {| now := now p; chans := chans p; notify := n; server := server p;
     main_thread := main_thread p; spawned := spawned p;
     stacks_text := stacks_text p; trace := trace p; exit_status := exit_status p |}.

Definition set_server (sv : ServerState) (p : Proc) : Proc :=
  {| now := now p; chans := chans p; notify := notify p; server := sv;
     main_thread := main_thread p; spawned := spawned p;
     stacks_text := stacks_text p; trace := trace p; exit_status := exit_status p |}.

Definition set_spawned (ts : list Thread) (p : Proc) : Proc :=
  {| now := now p; chans := chans p; notify := notify p; server := server p;
     main_thread := main_thread p; spawned := ts;
     stacks_text := stacks_text p; trace := trace p; exit_status := exit_status p |}.

Definition set_main (th : Thread) (p : Proc) : Proc :=
  {| now := now p; chans := chans p; notify := notify p; server := server p;
     main_thread := th; spawned := spawned p;
     stacks_text := stacks_text p; trace := trace p; exit_status := exit_status p |}.

Fixpoint list_set {A} (l : list A) (n : nat) (x : A) : list A :=
  match l, n with
  | [], _ => []
  | _ :: rest, O => x :: rest
  | y :: rest, S n' => y :: list_set rest n' x
  end.

Definition thread_of (g : Goroutine) (p : Proc) : option Thread :=
  match g with
  | G_main => Some (main_thread p)
  | G_go n => nth_error (spawned p) n
  | G_conn => None
  end.

Definition set_thread (g : Goroutine) (th : Thread) (p : Proc) : Proc :=
  match g with
  | G_main => set_main th p
  | G_go n => set_spawned (list_set (spawned p) n th) p
  | G_conn => p
  end.

Definition addr_in_use : error := errors_New "bind: address already in use".

(** The next step of a goroutine in the process as it is now: what it
    does, and the goroutine after it; [None] when it cannot go on yet.
    When its function has returned or a panic has reached its top, the
    goroutine is done. *)
Definition next_op (th : Thread) (p : Proc) : option (Op * Thread) :=
  let goes (o : Op) (k : Go ProcE unit) := Some (o, thread k) in
  let stays (o : Op) (w : Pending) := Some (o, {| code := code th; pending := w |}) in
  match pending th with
  | Done => None
  | w =>
      match code th with
      | Ret _ => stays Finished Done
      | Panic v => stays (Crashed v) Done
      | Recover k => goes Recovered (k None)
      | Vis e k =>
          match e in ProcE X return (X -> Go ProcE unit) -> option (Op * Thread) with
          | POutput text => fun k => goes (Logged text) (k tt)
          | PGoroutineProfile => fun k =>
              goes (Profiled (stacks_text p)) (k (stacks_text p))
          | os_Exit c => fun k => stays (Exited c) Done
          | time_Sleep d => fun k =>
              match w with
              | Sleeping t => if t <=? now p then goes Sleep_done (k tt) else None
              | _ => stays (Sleep_begun (now p + d)) (Sleeping (now p + d))
              end
          | make_chan n => fun k =>
              goes (Made (length (chans p)) n) (k (length (chans p)))
          | signal_Notify c sigs => fun k => goes (Notified c sigs) (k tt)
          | chan_recv c => fun k =>
              match nth_error (chans p) c with
              | Some {| cap := _; buf := s :: _ |} => goes (Received c s) (k s)
              | _ => None                         (* nothing to receive *)
              end
          | go_stmt body => fun k => goes (Spawned body) (k tt)
          | context_WithTimeout d => fun k =>
              let ctx := {| deadline := now p + d |} in
              goes (Deadline_set ctx) (k ctx)
          | context_cancel ctx => fun k => goes (Cancelled ctx) (k tt)
          | ListenAndServe srv => fun k =>
              match server p, w with
              | Srv_closing, _ | Srv_drained _, _ =>
                  goes (Listen_returned ErrServerClosed) (k ErrServerClosed)
              | Srv_failed msg, Started =>
                  goes (Listen_returned (errors_New msg)) (k (errors_New msg))
              | Srv_new, Ready | Srv_failed _, Ready =>
                  stays (Listen_called srv) Started
              | _, Ready => goes (Listen_returned addr_in_use) (k addr_in_use)
              | _, _ => None                      (* serving *)
              end
          | Shutdown srv ctx => fun k =>
              match w with
              | Started =>
                  match server p with
                  | Srv_drained lnerr =>
                      goes (Shutdown_returned (option_map errors_New lnerr))
                           (k (option_map errors_New lnerr))
                  | _ =>
                      if deadline ctx <=? now p
                      then goes (Shutdown_returned (Some DeadlineExceeded))
                                (k (Some DeadlineExceeded))
                      else None                   (* draining *)
                  end
              | _ => stays (Shutdown_called ctx) Started
              end
          end k
      end
  end.

Fixpoint chan_pop (cs : list Chan) (c : chan) : list Chan :=
  match cs, c with
  | [], _ => []
  | ch :: rest, O => {| cap := cap ch; buf := tl (buf ch) |} :: rest
  | ch :: rest, S c' => ch :: chan_pop rest c'
  end.

(** What a step of goroutine [g] changes in the process, besides [g]. *)
Definition commit (g : Goroutine) (o : Op) (p : Proc) : Proc :=
  let p := emit [By g o] p in
  match o with
  | Exited c => set_exit (Exit_code c) p
  | Finished =>                       (* when main returns the process exits *)
      match g with G_main => set_exit (Exit_code 0) p | _ => p end
  | Crashed _ => set_exit (Exit_code 2) p
  | Made _ n => set_chans (chans p ++ [{| cap := n; buf := [] |}])%list p
  | Notified c sigs => set_notify (notify p ++ [(c, sigs)])%list p
  | Received c _ => set_chans (chan_pop (chans p) c) p
  | Spawned body => set_spawned (spawned p ++ [thread body])%list p
  | Listen_called srv => set_server (Srv_binding srv) p
  | Shutdown_called _ =>
      set_server (match server p with
                  | Srv_drained lnerr => Srv_drained lnerr
                  | _ => Srv_closing
                  end) p
  | _ => p
  end.

(** The scheduler gives goroutine [g] one step. *)
Definition run_goroutine (g : Goroutine) (p : Proc) : Proc :=
  match thread_of g p with
  | None => p
  | Some th =>
      match next_op th p with
      | Some (o, th') => commit g o (set_thread g th' p)
      | None => p
      end
  end.

(** The signal trap: [s] is written to every channel registered for it
    that has room, without blocking. *)
Fixpoint relay (s : Signal) (regs : list (chan * list Signal)) (p : Proc) : Proc :=
  match regs with
  | [] => p
  | (c, sigs) :: rest =>
      if existsb (Z.eqb s) sigs then
        match nth_error (chans p) c with
        | Some ch =>
            if (length (buf ch) <? cap ch)%nat
            then relay s rest
                   (emit [Sent c s]
                      (set_chans (list_set (chans p) c
                                    {| cap := cap ch; buf := (buf ch ++ [s])%list |}) p))
            else relay s rest (emit [Dropped c s] p)
        | None => relay s rest p
        end
      else relay s rest p
  end.

Definition registered (s : Signal) (p : Proc) : bool :=
  existsb (fun reg => existsb (Z.eqb s) (snd reg)) (notify p).

Definition signal_arrives (s : Signal) (p : Proc) : Proc :=
  if registered s p then relay s (notify p) p
  else if default_kills s then set_exit (Killed_by s) (emit [Killed s] p)
  else if default_dumps s then set_exit (Exit_code 2) (emit [Dumped s] p)
  else emit [Unhandled s] p.

(** A request reaches the server: it is served when the socket accepts
    connections. *)
Definition request_arrives (r : Request) (p : Proc) : Proc :=
  match server p with
  | Srv_serving srv =>
      match serve (Server_Handler srv) r
              {| resp := newResponse r; logged := []; stacks := stacks_text p |} with
      | (Returned _, s) =>
          emit (map (fun text => By G_conn (Logged text)) (logged s)
                ++ [Served r (resp s)])%list p
      | (Panicked v, s) =>
          emit (map (fun text => By G_conn (Logged text)) (logged s)
                ++ [Aborted r v])%list p
      end
  | _ => p
  end.

(** What can happen next, as the scheduler and the environment choose. *)
Inductive Action : Type :=
| Runs (g : Goroutine)
| Signal_arrives (s : Signal)
| Time_passes (d : Duration)
| Listener_opens
| Listener_fails (msg : string)
| Connections_close (lnerr : option string)
| Request_arrives (r : Request).

Definition step (a : Action) (p : Proc) : Proc :=
  match exit_status p with
  | Some _ => p                                  (* the process is gone *)
  | None =>
      match a with
      | Runs g => run_goroutine g p
      | Signal_arrives s => signal_arrives s p
      | Time_passes d => set_now (now p + Z.max 0 d) p
      | Listener_opens =>
          match server p with
          | Srv_binding srv => emit [Bound] (set_server (Srv_serving srv) p)
          | _ => p
          end
      | Listener_fails msg =>
          match server p with
          | Srv_binding _ | Srv_serving _ =>
              emit [Listener_failed msg] (set_server (Srv_failed msg) p)
          | _ => p
          end
      | Connections_close lnerr =>
          match server p with
          | Srv_closing => emit [Drained lnerr] (set_server (Srv_drained lnerr) p)
          | _ => p
          end
      | Request_arrives r => request_arrives r p
      end
  end.

Definition run (acts : list Action) (p : Proc) : Proc :=
  fold_left (fun p a => step a p) acts p.

(** The process when it starts: [main] is about to run. *)
Definition start (body : Go ProcE unit) (t0 : Time) (stk : string) : Proc :=
  {| now := t0; chans := []; notify := []; server := Srv_new;
     main_thread := thread body; spawned := [];
     stacks_text := stk; trace := []; exit_status := None |}.

(* =================================================================== *)
(** * Part 5: properties                                                *)
(* =================================================================== *)

(** A rooted path begins with a slash. *)
Definition rooted (p : string) : bool := strings_HasPrefix p "/".

(* ------------------------------------------------------------------- *)
(** ** Histories of goroutines                                          *)
(* ------------------------------------------------------------------- *)

(** The steps of goroutine [g] in a trace, with their instants. *)
Definition hist (g : Goroutine) (tr : list (Time * Event)) : list (Time * Op) :=
  flat_map (fun e => match snd e with
                     | By g' o => if Goroutine_eqb g g' then [(fst e, o)] else []
                     | _ => []
                     end) tr.

(** One step of a goroutine seen from the goroutine alone: at instant
    [t] it does [o] and becomes [th'], whatever the rest of the process
    is.  Answers that come from the process are free. *)
Definition advances (t : Time) (th : Thread) (o : Op) (th' : Thread) : Prop :=
  let goes (o' : Op) (k : Go ProcE unit) := o = o' /\ th' = thread k in
  let stays (o' : Op) (w : Pending) :=
    o = o' /\ th' = {| code := code th; pending := w |} in
  match pending th with
  | Done => False
  | w =>
      match code th with
      | Ret _ => stays Finished Done
      | Panic v => stays (Crashed v) Done
      | Recover k => goes Recovered (k None)
      | Vis e k =>
          match e in ProcE X return (X -> Go ProcE unit) -> Prop with
          | POutput text => fun k => goes (Logged text) (k tt)
          | PGoroutineProfile => fun k => exists s, goes (Profiled s) (k s)
          | os_Exit c => fun k => stays (Exited c) Done
          | time_Sleep d => fun k =>
              match w with
              | Sleeping u => u <= t /\ goes Sleep_done (k tt)
              | _ => stays (Sleep_begun (t + d)) (Sleeping (t + d))
              end
          | make_chan n => fun k => exists c, goes (Made c n) (k c)
          | signal_Notify c sigs => fun k => goes (Notified c sigs) (k tt)
          | chan_recv c => fun k => exists s, goes (Received c s) (k s)
          | go_stmt body => fun k => goes (Spawned body) (k tt)
          | context_WithTimeout d => fun k =>
              goes (Deadline_set {| deadline := t + d |}) (k {| deadline := t + d |})
          | context_cancel ctx => fun k => goes (Cancelled ctx) (k tt)
          | ListenAndServe srv => fun k =>
              (w = Ready /\ stays (Listen_called srv) Started) \/
              (exists err, goes (Listen_returned err) (k err))
          | Shutdown srv ctx => fun k =>
              match w with
              | Started =>
                  exists err, goes (Shutdown_returned err) (k err) /\
                              (err = Some DeadlineExceeded -> deadline ctx <= t)
              | _ => stays (Shutdown_called ctx) Started
              end
          end k
      end
  end.

(** A goroutine that starts as [th] no earlier than [t0] and goes
    through the steps [h] ends as [th']. *)
Fixpoint follows (t0 : Time) (th : Thread) (h : list (Time * Op)) (th' : Thread)
  : Prop :=
  match h with
  | [] => th' = th
  | (t, o) :: h' =>
      t0 <= t /\ exists th1, advances t th o th1 /\ follows t th1 h' th'
  end.

(** The goroutine after the step [o]: the step tells the answer that the
    process gave. *)
Definition after (th : Thread) (o : Op) : Thread :=
  let stays (w : Pending) := {| code := code th; pending := w |} in
  match code th with
  | Ret _ | Panic _ => stays Done
  | Recover k => thread (k None)
  | Vis e k =>
      match e in ProcE X return (X -> Go ProcE unit) -> Thread with
      | POutput _ => fun k => thread (k tt)
      | PGoroutineProfile => fun k =>
          match o with Profiled s => thread (k s) | _ => th end
      | os_Exit _ => fun k => stays Done
      | time_Sleep _ => fun k =>
          match o with Sleep_begun u => stays (Sleeping u) | _ => thread (k tt) end
      | make_chan _ => fun k =>
          match o with Made c _ => thread (k c) | _ => th end
      | signal_Notify _ _ => fun k => thread (k tt)
      | chan_recv _ => fun k =>
          match o with Received _ s => thread (k s) | _ => th end
      | go_stmt _ => fun k => thread (k tt)
      | context_WithTimeout _ => fun k =>
          match o with Deadline_set ctx => thread (k ctx) | _ => th end
      | context_cancel _ => fun k => thread (k tt)
      | ListenAndServe _ => fun k =>
          match o with Listen_returned err => thread (k err) | _ => stays Started end
      | Shutdown _ _ => fun k =>
          match o with Shutdown_returned err => thread (k err) | _ => stays Started end
      end k
  end.

(** The events of a request: the entries its handler logs, and the
    response or the abort. *)
Definition request_event (ev : Event) : Prop :=
  match ev with
  | By G_conn (Logged _) | Served _ _ | Aborted _ _ => True
  | _ => False
  end.

(** An event that is not a step of goroutine [g]. *)
Definition foreign (g : Goroutine) (ev : Event) : Prop :=
  match ev with
  | By g' _ => g' <> g
  | _ => True
  end.

(* ------------------------------------------------------------------- *)
(** ** The parts of [main]                                              *)
(* ------------------------------------------------------------------- *)

(** [main] from line 94 on: the drain and the last log entry. *)
Definition after_cleanup (ctx : Context) : Go ProcE unit :=
  err <- call (Shutdown main_server ctx) ;;
  match err with
  | Some err => logger_Fatalf ("Server shutdown failed: " ++ Error err)
  | None => Ret tt
  end ;;
  logger_Println "Server exited gracefully.".

(** [main] from line 79 on, with its two deferred calls. *)
Definition shutdown_path (cleanup : Go ProcE unit) (ctx : Context) : Go ProcE unit :=
  defer (call (context_cancel ctx))
    (defer main_func4 (cleanup ;; after_cleanup ctx)).

(** [main] from line 75 on, after the signal is received. *)
Definition from_signal (cleanup : Go ProcE unit) : Go ProcE unit :=
  logger_Println "Shutdown signal received. Cleaning up..." ;;
  ctx <- call (context_WithTimeout (5 * Second)) ;;
  shutdown_path cleanup ctx.

(** The text of the entries that [main.go] logs. *)
Definition line (s : string) : string := s ++ nl.

Definition fatal_drain (e : error) : string :=
  ensure_newline ("Server shutdown failed: " ++ Error e).

Definition fatal_serve (e : error) : string :=
  ensure_newline ("Server error: " ++ Error e).

Definition panic_entry (what : string) (v : any) (stk : string) : string :=
  ensure_newline (what ++ fmt_v v ++ nl ++ "STACK TRACE:" ++ nl ++ stk).

(** An entry written by [logger.Fatalf]. *)
Definition fatal_line (text : string) : bool :=
  strings_HasPrefix text "Server error: " ||
  strings_HasPrefix text "Server shutdown failed: ".

(** The steps of [main], in order, when it runs to its end: [c] is the
    channel it made, [s] the signal it received, [ctx] the deadline token,
    [u] the instant its sleep ends, and [res] what the drain returned. *)
Definition main_ops (c : chan) (s : Signal) (ctx : Context) (u : Time)
    (res : option error) : list Op :=
  [ Made c 1; Notified c [SIGINT; SIGTERM]; Spawned (main_func3 main_server);
    Received c s;
    Logged (line "Shutdown signal received. Cleaning up...");
    Deadline_set ctx;
    Logged (line "Cleaning up resources (DB, caches, etc.)...");
    Sleep_begun u; Sleep_done;
    Logged (line "Cleanup complete. Server shutting down.");
    Shutdown_called ctx; Shutdown_returned res ] ++
  match res with
  | None => [ Logged (line "Server exited gracefully."); Cancelled ctx; Finished ]
  | Some e => [ Logged (fatal_drain e); Exited 1 ]
  end.

(** The steps of the goroutine that runs the server, when
    [ListenAndServe] returns [err]. *)
Definition serve_ops_tail (err : error) : list Op :=
  Listen_returned err ::
  (if error_eqb err ErrServerClosed then [ Finished ]
   else [ Logged (fatal_serve err); Exited 1 ]).

Definition prefix_of {A} (l full : list A) : Prop := exists rest, (l ++ rest)%list = full.

(** The steps of the goroutine that runs the server: it may find the
    server already shut down when it calls [ListenAndServe]
    ([called = false]). *)
Definition serve_ops (called : bool) (err : error) : list Op :=
  Logged (line "Server started on :8080") ::
  ((if called then [ Listen_called main_server ] else []) ++ serve_ops_tail err)%list.

(** The instants of the steps of [main] agree with its sleep and its
    deadline: the deadline is five seconds after the token is made, the
    sleep lasts two seconds at least, and the drain reports an exceeded
    deadline only when the deadline has passed. *)
Definition main_timing (h : list (Time * Op)) (ctx : Context) (u : Time) : Prop :=
  (forall t ctx', In (t, Deadline_set ctx') h -> deadline ctx' = t + 5 * Second) /\
  (forall t u', In (t, Sleep_begun u') h -> u' = t + 2 * Second) /\
  (forall t, In (t, Sleep_done) h -> u <= t) /\
  (forall t, In (t, Shutdown_returned (Some DeadlineExceeded)) h -> deadline ctx <= t).

(** The parameters of a history of [main], read off its steps. *)
Definition chan_of (ops : list Op) : chan :=
  match ops with Made c _ :: _ => c | _ => O end.
Definition signal_of (ops : list Op) : Signal :=
  match nth_error ops 3 with Some (Received _ s) => s | _ => 0 end.
Definition ctx_of (ops : list Op) : Context :=
  match nth_error ops 5 with Some (Deadline_set ctx) => ctx | _ => {| deadline := 0 |} end.
Definition wake_of (ops : list Op) : Time :=
  match nth_error ops 7 with Some (Sleep_begun u) => u | _ => 0 end.
Definition result_of (ops : list Op) : option error :=
  match nth_error ops 11 with Some (Shutdown_returned r) => r | _ => None end.

Definition main_script (ops : list Op) : list Op :=
  main_ops (chan_of ops) (signal_of ops) (ctx_of ops) (wake_of ops) (result_of ops).

(** The parameters of a history of the goroutine that runs the server. *)
Definition called_of (ops : list Op) : bool :=
  match nth_error ops 1 with Some (Listen_called _) => true | _ => false end.
Definition err_of (ops : list Op) : error :=
  match nth_error ops (if called_of ops then 2 else 1) with
  | Some (Listen_returned e) => e
  | _ => ErrServerClosed
  end.

Definition serve_script (ops : list Op) : list Op :=
  serve_ops (called_of ops) (err_of ops).

(* ------------------------------------------------------------------- *)
(** ** Invariants of the process that runs [main]                       *)
(* ------------------------------------------------------------------- *)

(** The goroutines: none but [main] before the [go] statement, which is
    the third step of [main]; afterwards one more, which follows the body
    of the goroutine that runs the server. *)
Definition threads_inv (t0 : Time) (p : Proc) : Prop :=
  (spawned p = [] /\ (length (hist G_main (trace p)) <= 2)%nat /\
   forall n, hist (G_go n) (trace p) = []) \/
  (exists th,
      spawned p = [th] /\ (3 <= length (hist G_main (trace p)))%nat /\
      follows t0 (thread (main_func3 main_server)) (hist (G_go 0) (trace p)) th /\
      forall n, n <> O -> hist (G_go n) (trace p) = []).

(** How an event ends the process, if it does. *)
Definition exit_of (ev : Event) : option ExitStatus :=
  match ev with
  | By _ (Exited c) => Some (Exit_code c)
  | By G_main Finished => Some (Exit_code 0)
  | By _ (Crashed _) => Some (Exit_code 2)
  | Killed s => Some (Killed_by s)
  | Dumped _ => Some (Exit_code 2)
  | _ => None
  end.

(** The process has exited exactly when the last event of its trace is
    one that ends it; no earlier event does. *)
Definition exit_inv (p : Proc) : Prop :=
  match exit_status p with
  | None => Forall (fun e => exit_of (snd e) = None) (trace p)
  | Some st =>
      exists pre t ev,
        trace p = (pre ++ [(t, ev)])%list /\ exit_of ev = Some st /\
        Forall (fun e => exit_of (snd e) = None) pre
  end.

(** The signals that the signal trap wrote to a channel, in order. *)
Definition sents (tr : list (Time * Event)) : list Signal :=
  flat_map (fun e => match snd e with Sent _ s => [s] | _ => [] end) tr.

Definition termination_signal (s : Signal) : Prop := s = SIGINT \/ s = SIGTERM.

(** The channel [stop]: made by the first step of [main], registered by
    the second, read by the fourth.  It holds one signal at most; until
    [main] reads it, it holds exactly the signals written so far; when
    [main] reads it, exactly one signal has been written. *)
Definition chan_inv (p : Proc) : Prop :=
  let k := length (hist G_main (trace p)) in
  ((k = 0%nat /\ chans p = [] /\ notify p = [] /\ sents (trace p) = []) \/
   (k = 1%nat /\ chans p = [{| cap := 1; buf := [] |}] /\ notify p = [] /\
    sents (trace p) = []) \/
   ((2 <= k <= 3)%nat /\
    exists b, chans p = [{| cap := 1; buf := b |}] /\
              notify p = [(O, [SIGINT; SIGTERM])] /\
              sents (trace p) = b /\ (length b <= 1)%nat /\
              Forall termination_signal b) \/
   ((4 <= k)%nat /\
    exists b, chans p = [{| cap := 1; buf := b |}] /\
              notify p = [(O, [SIGINT; SIGTERM])] /\
              (length b <= 1)%nat /\ Forall termination_signal b /\
              exists pre t s post,
                trace p = (pre ++ (t, By G_main (Received O s)) :: post)%list /\
                sents pre = [s] /\ termination_signal s)) /\
  (forall t c s, In (t, Sent c s) (trace p) \/ In (t, Dropped c s) (trace p) ->
                 c = O /\ termination_signal s) /\
  ((1 <= k)%nat -> chan_of (map snd (hist G_main (trace p))) = O).

(** Events that neither touch a channel nor belong to [main]. *)
Definition harmless (ev : Event) : Prop :=
  match ev with
  | Sent _ _ | Dropped _ _ | By G_main _ => False
  | _ => True
  end.

(** The kinds of steps of the goroutine that runs the server. *)
Definition serve_kind (o : Op) : Prop :=
  match o with
  | Logged _ | Listen_called _ | Listen_returned _ | Finished | Exited 1 => True
  | _ => False
  end.

(** The kinds of steps of [main]. *)
Definition main_kind (o : Op) : Prop :=
  match o with
  | Profiled _ | Listen_called _ | Listen_returned _ | Recovered | Crashed _ => False
  | Exited c => c = 1
  | _ => True
  end.

(** The steps of the goroutine that runs the server up to its call of
    [ListenAndServe]. *)
Definition serve_called : list Op :=
  [ Logged (line "Server started on :8080"); Listen_called main_server ].

(** The server and the goroutine that runs it: while the socket is being
    opened or is open, the goroutine waits in [ListenAndServe]; a failed
    socket has left its event; [ListenAndServe] returns [ErrServerClosed]
    after [main] has called [Shutdown], or else the error of the socket. *)
Definition server_inv (p : Proc) : Prop :=
  (forall srv, server p = Srv_binding srv \/ server p = Srv_serving srv ->
     srv = main_server /\ map snd (hist (G_go 0) (trace p)) = serve_called) /\
  (forall msg, server p = Srv_failed msg ->
     exists t, In (t, Listener_failed msg) (trace p)) /\
  (forall t err, In (t, Listen_returned err) (hist (G_go 0) (trace p)) ->
     (err = ErrServerClosed /\
      exists t' ctx, In (t', By G_main (Shutdown_called ctx)) (trace p)) \/
     (exists msg t', err = errors_New msg /\ In (t', Listener_failed msg) (trace p))) /\
  (server p = Srv_closing \/ (exists l, server p = Srv_drained l) ->
     exists t ctx, In (t, By G_main (Shutdown_called ctx)) (trace p)).





(** What the environment and the handlers of requests leave in the
    trace: a handler only logs, no request is aborted by a panic, and a
    signal ends the process only by its default action. *)
Definition env_event_ok (ev : Event) : Prop :=
  match ev with
  | By G_conn o => exists text, o = Logged text
  | Aborted _ _ => False
  | Killed s => default_kills s = true
  | Dumped s => default_kills s = false /\ default_dumps s = true
  | _ => True
  end.

Definition events_inv (p : Proc) : Prop :=
  Forall (fun e => env_event_ok (snd e)) (trace p).

(** The process takes requests: it runs and its socket is open. *)
Definition accepting (p : Proc) : bool :=
  match exit_status p, server p with
  | None, Srv_serving _ => true
  | _, _ => false
  end.

(* ------------------------------------------------------------------- *)
(** ** Sample runs                                                      *)
(* ------------------------------------------------------------------- *)

(** The process starts: [main] makes its channel, registers it and starts
    the goroutine, which logs and calls [ListenAndServe]; the socket
    opens. *)
Definition startup_schedule : list Action :=
  [ Runs G_main; Runs G_main; Runs G_main; Runs (G_go 0); Runs (G_go 0);
    Listener_opens ].

(** After the start, SIGTERM arrives; [main] receives it, cleans up for
    two seconds and calls [Shutdown]; the connections close at once, so
    that [ListenAndServe] and [Shutdown] return; [main] logs, cancels and
    returns. *)
Definition graceful_schedule : list Action :=
  (startup_schedule ++
   [ Signal_arrives SIGTERM;
     Runs G_main; Runs G_main; Runs G_main; Runs G_main; Runs G_main;
     Time_passes (2 * Second);
     Runs G_main; Runs G_main; Runs G_main;
     Connections_close None; Runs (G_go 0); Runs (G_go 0);
     Runs G_main; Runs G_main; Runs G_main; Runs G_main ])%list.



(** After the start, SIGINT arrives and [main] receives it; then SIGTERM
    arrives. *)
Definition second_signal_schedule : list Action :=
  (startup_schedule ++
   [ Signal_arrives SIGINT; Runs G_main; Signal_arrives SIGTERM ])%list.

(** Whether the socket has failed in a trace. *)
Definition socket_failed (tr : list (Time * Event)) : bool :=
  existsb (fun e => match snd e with Listener_failed _ => true | _ => false end) tr.



(** The socket takes requests from the moment it has been opened until
    it fails or some goroutine calls [Shutdown]. *)
Definition open_inv (p : Proc) : Prop :=
  (exists t, In (t, Bound) (trace p)) ->
  socket_failed (trace p) = false ->
  (forall t g ctx, ~ In (t, By g (Shutdown_called ctx)) (trace p)) ->
  exists srv, server p = Srv_serving srv.

(** After the start, SIGTERM arrives; [main] receives it and begins
    [cleanup]; one second passes. *)
Definition cleanup_schedule : list Action :=
  (startup_schedule ++
   [ Signal_arrives SIGTERM;
     Runs G_main; Runs G_main; Runs G_main; Runs G_main; Runs G_main;
     Time_passes (1 * Second) ])%list.


(** The request [GET path] of a client that speaks HTTP/1.1. *)
Definition get_request (path : string) : Request :=
  {| Method := "GET"; RequestURI := path; URL_Path := path;
     ProtoMajor := 1; ProtoMinor := 1 |}.

(** A response that has not sent its header has declared no length and
    has no byte written. *)
Definition pristine (rs : Response) : Prop :=
  wroteHeader rs = false -> contentLength rs = -1 /\ written rs = 0.

(** A handler that has written part of its reply when it panics. *)
Definition writes_then_panics : Handler :=
  HandlerFunc (fun w r => fmt_Fprintln w "partial" ;; panic (AString "late")).

(** The world of a request that the server has just taken: a response
    not yet begun and an empty log. *)
Definition request_state (r : Request) : HState :=
  {| resp := newResponse r; logged := []; stacks := "goroutine 1 [running]" |}.

(** What an exit status tells about the run: status 0 is the end of a
    complete shutdown after a termination signal and a drain that
    succeeded; status 1 follows an entry of [logger.Fatalf]; status 2 is
    the exit of the runtime on a signal whose default action is a dump of
    the stacks; a signal kills the process only by its default action.
    No other status occurs. *)
Definition exit_meaning (p : Proc) (st : ExitStatus) : Prop :=
  match st with
  | Exit_code c =>
      (c = 0 /\
       exists ch s ctx u,
         termination_signal s /\
         map snd (hist G_main (trace p)) = main_ops ch s ctx u None) \/
      (c = 1 /\
       exists t g text,
         In (t, By g (Logged text)) (trace p) /\ fatal_line text = true) \/
      (c = 2 /\
       exists t s,
         In (t, Dumped s) (trace p) /\
         default_kills s = false /\ default_dumps s = true)
  | Killed_by s => default_kills s = true
  end.

(** When the socket has failed, the goroutine that runs the server had
    logged and called [ListenAndServe]. *)
Definition failure_inv (p : Proc) : Prop :=
  (exists t msg, In (t, Listener_failed msg) (trace p)) ->
  (2 <= length (hist (G_go 0) (trace p)))%nat.
(* =================================================================== *)
(** * Part 6: the recovery wrapper, routing, invariants                 *)
(* =================================================================== *)


#[local] Arguments String.eqb : simpl never.
#[local] Arguments Ascii.eqb : simpl never.
#[local] Arguments hist : simpl never.

(* ------------------------------------------------------------------- *)
(** ** Running handler bodies                                           *)
(* ------------------------------------------------------------------- *)

Lemma exec_bind {A B} (m : Go HandlerE A) (f : A -> Go HandlerE B) (s : HState) :
  exec (bind m f) s =
  match exec m s with
  | (Returned a, s') => exec (f a) s'
  | (Panicked v, s') => (Panicked v, s')
  end.
Proof.
  revert s. induction m as [a | v | k IH | X e k IH]; intros s; simpl.
  - reflexivity.
  - reflexivity.
  - apply IH.
  - destruct (perform e s) as [x s']. apply IH.
Qed.

(** A deferred function runs in the state its function body ends in,
    whether the body returned or panicked. *)
Lemma exec_defer (d body : Go HandlerE unit) (s : HState) :
  exec (defer d body) s =
  match exec body s with
  | (Returned _, s') => exec (p <- deferred_call None d ;; resume p) s'
  | (Panicked v, s') => exec (p <- deferred_call (Some v) d ;; resume p) s'
  end.
Proof.
  revert s. induction body as [a | v | k IH | X e k IH]; intros s; simpl.
  - reflexivity.
  - reflexivity.
  - apply IH.
  - destruct (perform e s) as [x s']. apply IH.
Qed.

(** A deferred function that runs while nothing panics behaves as a plain
    call. *)
Lemma exec_deferred_call_None (d : Go HandlerE unit) (s : HState) :
  exec (deferred_call None d) s =
  match exec d s with
  | (Returned _, s') => (Returned None, s')
  | (Panicked v, s') => (Panicked v, s')
  end.
Proof.
  revert s. induction d as [a | v | k IH | X e k IH]; intros s; simpl.
  - reflexivity.
  - reflexivity.
  - apply IH.
  - destruct (perform e s) as [x s']. apply IH.
Qed.

Lemma header_get_del (key : string) (h : list (string * string)) :
  header_get key (header_del key h) = None.
Proof.
  unfold header_get, header_del.
  induction h as [| [k v] h IH]; cbn [filter find fst snd]; [reflexivity|].
  destruct (String.eqb k key) eqn:E; cbn [negb filter find fst snd]; [exact IH|].
  rewrite E. exact IH.
Qed.

Lemma header_get_set_other (key key' value : string) (h : list (string * string)) :
  (key' =? key)%string = false ->
  header_get key (header_set key' value h) = header_get key (header_del key' h).
Proof.
  intros E. unfold header_get, header_set. cbn [find fst snd]. now rewrite E.
Qed.

Lemma header_get_del_none (key key' : string) (h : list (string * string)) :
  header_get key h = None -> header_get key (header_del key' h) = None.
Proof.
  unfold header_get, header_del.
  induction h as [| [k v] h IH]; cbn [filter find fst snd]; [auto|].
  destruct (String.eqb k key) eqn:E; [discriminate|]. intros H.
  destruct (String.eqb k key'); cbn [negb filter find fst snd]; [auto|].
  rewrite E. auto.
Qed.

(** [http.Error] has dropped the declared length by the time it sends the
    header. *)
Lemma error_header_no_length (h : list (string * string)) :
  header_get "Content-Length"
    (header_set "X-Content-Type-Options" "nosniff"
       (header_set "Content-Type" "text/plain; charset=utf-8"
          (header_del "Content-Length" h))) = None.
Proof.
  rewrite header_get_set_other by reflexivity.
  apply header_get_del_none.
  rewrite header_get_set_other by reflexivity.
  apply header_get_del_none.
  apply header_get_del.
Qed.

(** Header keys written in the source are canonical already. *)
Ltac canon_keys :=
  repeat match goal with
    | |- context [CanonicalMIMEHeaderKey ?k] =>
        let k' := eval vm_compute in (CanonicalMIMEHeaderKey k) in
        change (CanonicalMIMEHeaderKey k) with k'
    end.

(** A [Write] leaves the header that is out as it is. *)
Lemma do_Write_header (data : string) (rs : Response) :
  wroteHeader rs = true ->
  wroteHeader (do_Write data rs) = true /\ status (do_Write data rs) = status rs.
Proof.
  intros Hw. unfold do_Write. rewrite Hw.
  destruct (String.length data =? 0)%nat; [auto|].
  destruct (bodyAllowedForStatus (status rs)); cbn [negb]; auto.
Qed.

(** A [Write] of some data on a response whose header is out. *)
Lemma do_Write_sent (data : string) (rs : Response) :
  wroteHeader rs = true ->
  String.length data <> 0%nat ->
  wroteHeader (do_Write data rs) = true /\
  status (do_Write data rs) = status rs /\
  toHEAD (do_Write data rs) = toHEAD rs /\
  body (do_Write data rs) =
    (if bodyAllowedForStatus (status rs) && negb (toHEAD rs) &&
        ((contentLength rs =? -1) ||
         (written rs + Z.of_nat (String.length data) <=? contentLength rs))
     then body rs ++ data
     else body rs).
Proof.
  intros Hw Hlen. unfold do_Write. rewrite Hw.
  destruct (Nat.eqb_spec (String.length data) 0) as [E | _]; [contradiction|].
  destruct (bodyAllowedForStatus (status rs)); cbn [negb andb]; [|auto].
  cbn [wroteHeader status toHEAD body]. repeat split; auto.
  destruct (contentLength rs =? -1); cbn [negb andb orb].
  - destruct (toHEAD rs); reflexivity.
  - destruct (Z.ltb_spec (contentLength rs) (written rs + Z.of_nat (String.length data)));
      destruct (Z.leb_spec (written rs + Z.of_nat (String.length data)) (contentLength rs));
      try lia; destruct (toHEAD rs); reflexivity.
Qed.

(** [http.Error] in terms of the response: the header is prepared, sent,
    and the text written. *)
Lemma exec_http_Error (w : ResponseWriter) (err : string) (code : Z) (s : HState) :
  exec (http_Error w err code) s =
  match do_WriteHeader code
          (set_header
             (header_set "X-Content-Type-Options" "nosniff"
                (header_set "Content-Type" "text/plain; charset=utf-8"
                   (header_del "Content-Length" (header (resp s)))))
             (resp s)) with
  | (Returned _, rs) => (Returned tt, with_resp (do_Write (err ++ nl) rs) s)
  | (Panicked v, rs) => (Panicked v, with_resp rs s)
  end.
Proof.
  unfold http_Error, ResponseWriter_WriteHeader, fmt_Fprintln, call.
  destruct s as [[wrote st hd cl wr bd hh] lg stk].
  cbn [bind exec perform].
  change (CanonicalMIMEHeaderKey "Content-Length") with "Content-Length".
  change (CanonicalMIMEHeaderKey "Content-Type") with "Content-Type".
  change (CanonicalMIMEHeaderKey "X-Content-Type-Options") with "X-Content-Type-Options".
  cbn [resp with_resp header set_header logged stacks
       wroteHeader status contentLength written body toHEAD].
  unfold do_WriteHeader.
  cbn [wroteHeader status header contentLength written body toHEAD].
  destruct wrote; [reflexivity|].
  destruct ((code <? 100) || (999 <? code)); [reflexivity|].
  destruct ((100 <=? code) && (code <=? 199) && negb (code =? 101)); reflexivity.
Qed.

(** What [http.Error(w, "Internal Server Error", 500)] leaves. *)
Lemma exec_internal_server_error (w : ResponseWriter) (s : HState) :
  exists rs,
    exec (http_Error w "Internal Server Error" StatusInternalServerError) s
      = (Returned tt, with_resp rs s) /\
    wroteHeader rs = true /\
    status rs = (if wroteHeader (resp s) then status (resp s) else 500) /\
    body rs = (if bodyAllowedForStatus (status rs) && negb (toHEAD (resp s)) &&
                  ((contentLength (resp s) =? -1) ||
                   (written (resp s) + 22 <=? contentLength (resp s)))
               then body (resp s) ++ "Internal Server Error" ++ nl
               else body (resp s)) /\
    toHEAD rs = toHEAD (resp s).
Proof.
  rewrite exec_http_Error.
  match goal with
  | |- context [do_WriteHeader _ ?rs0] => set (rs1 := rs0)
  end.
  assert (Hsent : exists rs2,
             do_WriteHeader StatusInternalServerError rs1 = (Returned tt, rs2) /\
             wroteHeader rs2 = true /\
             status rs2 = (if wroteHeader (resp s) then status (resp s) else 500) /\
             contentLength rs2 = contentLength (resp s) /\
             written rs2 = written (resp s) /\
             body rs2 = body (resp s) /\
             toHEAD rs2 = toHEAD (resp s)).
  { unfold do_WriteHeader.
    destruct (wroteHeader rs1) eqn:Hw; subst rs1; cbn [set_header wroteHeader] in Hw.
    - eexists. split; [reflexivity|].
      cbn [set_header wroteHeader status contentLength written body toHEAD].
      rewrite Hw. repeat split.
    - change ((StatusInternalServerError <? 100) || (999 <? StatusInternalServerError))
        with false.
      change ((100 <=? StatusInternalServerError) && (StatusInternalServerError <=? 199) &&
              negb (StatusInternalServerError =? 101)) with false.
      cbv iota. eexists. split; [reflexivity|].
      unfold declared_length.
      cbn [set_header wroteHeader status header contentLength written body toHEAD].
      rewrite error_header_no_length. rewrite Hw. cbn [fst]. repeat split. }
  destruct Hsent as (rs2 & -> & Hw & Hst & Hcl & Hwr & Hbd & Hhd).
  exists (do_Write ("Internal Server Error" ++ nl) rs2).
  split; [reflexivity|].
  destruct (do_Write_sent ("Internal Server Error" ++ nl) rs2 Hw) as (Hw' & Hst' & Hhd' & Hbd').
  { discriminate. }
  rewrite Hw', Hst', Hhd', Hbd', Hcl, Hwr, Hbd, Hhd.
  change (Z.of_nat (String.length ("Internal Server Error" ++ nl))) with 22.
  auto.
Qed.

(** From the response that the server hands to a handler on, a response
    that has sent no header has declared no length: there the text of
    [http.Error] always fits. *)
Lemma do_Write_wrote (data : string) (rs : Response) :
  wroteHeader (do_Write data rs) = true.
Proof.
  unfold do_Write.
  assert (H : wroteHeader (if wroteHeader rs then rs
                           else snd (do_WriteHeader StatusOK rs)) = true).
  { destruct (wroteHeader rs) eqn:E; [exact E|].
    unfold do_WriteHeader. rewrite E. reflexivity. }
  destruct (String.length data =? 0)%nat; [exact H|].
  destruct (negb _); [exact H | exact H].
Qed.

Lemma perform_pristine {X} (e : HandlerE X) (s : HState) :
  pristine (resp s) -> pristine (resp (snd (perform e s))).
Proof.
  intros Hp. destruct e as [| | | c | | |]; cbn [perform snd resp with_resp];
    try exact Hp.
  - destruct (do_WriteHeader c (resp s)) as [o rs] eqn:E. cbn [snd resp with_resp].
    unfold do_WriteHeader in E.
    destruct (wroteHeader (resp s)) eqn:Hw; [inversion E; subst; exact Hp|].
    destruct ((c <? 100) || (999 <? c)); [inversion E; subst; exact Hp|].
    destruct ((100 <=? c) && (c <=? 199) && negb (c =? 101));
      inversion E; subst; [exact Hp|].
    intros H. discriminate H.
  - intros H. rewrite do_Write_wrote in H. discriminate H.
Qed.

Lemma exec_pristine {A} (p : Go HandlerE A) (s : HState) :
  pristine (resp s) -> pristine (resp (snd (exec p s))).
Proof.
  revert s. induction p as [a | v | k IH | X e k IH]; intros s Hp; cbn [exec].
  - exact Hp.
  - exact Hp.
  - apply IH, Hp.
  - pose proof (perform_pristine e s Hp) as Hp'.
    destruct (perform e s) as [x s']. apply IH, Hp'.
Qed.

(** The handler made by [recoveryMiddleware], run on top of the run of
    the handler it wraps. *)
Lemma exec_recoveryMiddleware
    (next : Handler) (w : ResponseWriter) (r : Request) (s : HState) :
  exec (recoveryMiddleware next w r) s =
  match exec (next w r) s with
  | (Returned _, s') => (Returned tt, s')
  | (Panicked v, s') =>
      exec (http_Error w "Internal Server Error" StatusInternalServerError)
        {| resp := resp s';
           logged := (logged s' ++
                      [ensure_newline ("PANIC RECOVERED: " ++ fmt_v v ++ nl ++
                                       "STACK TRACE:" ++ nl ++ stacks s')])%list;
           stacks := stacks s' |}
  end.
Proof.
  unfold recoveryMiddleware, HandlerFunc.
  rewrite exec_defer. unfold ServeHTTP.
  destruct (exec (next w r) s) as [[[] | v] s'].
  - reflexivity.
  - rewrite exec_bind.
    cbn [recover bind deferred_call].
    rewrite exec_deferred_call_None.
    cbn [pprof_goroutine_WriteTo call logger_Printf logger_Output bind].
    cbn [exec perform Runtime_HandlerE GoroutineProfile Output].
    match goal with
    | |- context [exec (http_Error w _ _) ?st] =>
        destruct (exec_internal_server_error w st) as (rs & Hrun & _)
    end.
    rewrite Hrun. reflexivity.
Qed.

(** C1, amended.  For every request and every underlying handler, the
    handler made by [recoveryMiddleware] returns normally.  When the
    underlying handler returns, the wrapped one leaves exactly what it
    left (pass-through).  When it panics with [v], the wrapped one adds
    one entry to the log, made of [v] and the goroutine stacks, and then
    calls [http.Error] with the text ["Internal Server Error"] and the
    code 500 on the response as the handler left it.  The status is 500
    only if the handler had sent no header; otherwise the status it sent
    stands.  The text is added to the body unless the status allows no
    body, the request is a HEAD, or the text (22 bytes) does not fit the
    length that the header sent has declared.  In particular, when the
    handler had sent no header, on a response that was begun by the
    server, the status is 500 and the text is added, unless the request
    is a HEAD. *)
Theorem recoveryMiddleware_contains_faults
    (next : Handler) (w : ResponseWriter) (r : Request) (s : HState) :
  match exec (ServeHTTP next w r) s with
  | (Returned _, s') =>
      exec (ServeHTTP (recoveryMiddleware next) w r) s = (Returned tt, s')
  | (Panicked v, s') =>
      exists rs,
        exec (ServeHTTP (recoveryMiddleware next) w r) s =
          (Returned tt,
           {| resp := rs;
              logged := (logged s' ++
                         [ensure_newline ("PANIC RECOVERED: " ++ fmt_v v ++ nl ++
                                          "STACK TRACE:" ++ nl ++ stacks s')])%list;
              stacks := stacks s' |}) /\
        wroteHeader rs = true /\
        status rs = (if wroteHeader (resp s') then status (resp s') else 500) /\
        body rs = (if bodyAllowedForStatus (status rs) && negb (toHEAD (resp s')) &&
                      ((contentLength (resp s') =? -1) ||
                       (written (resp s') + 22 <=? contentLength (resp s')))
                   then body (resp s') ++ "Internal Server Error" ++ nl
                   else body (resp s')) /\
        (pristine (resp s) -> wroteHeader (resp s') = false ->
         status rs = 500 /\
         body rs = (if toHEAD (resp s') then body (resp s')
                    else body (resp s') ++ "Internal Server Error" ++ nl))
  end.
Proof.
  pose proof (exec_pristine (ServeHTTP next w r) s) as Hfresh.
  unfold ServeHTTP in *. rewrite exec_recoveryMiddleware.
  destruct (exec (next w r) s) as [[[] | v] s'].
  - reflexivity.
  - match goal with
    | |- context [exec (http_Error w _ _) ?st] =>
        destruct (exec_internal_server_error w st) as (rs & Hrun & Hw & Hst & Hbd & _)
    end.
    exists rs. rewrite Hrun. cbn [resp logged stacks with_resp snd] in *.
    split; [reflexivity|]. split; [exact Hw|]. split; [exact Hst|].
    split; [exact Hbd|].
    intros Hp Hno. destruct (Hfresh Hp Hno) as [Hcl _].
    rewrite Hno in Hst. rewrite Hbd, Hst, Hcl. split; [reflexivity|].
    change (bodyAllowedForStatus 500) with true.
    destruct (toHEAD (resp s')); reflexivity.
Qed.

(* ------------------------------------------------------------------- *)
(** ** Routing                                                          *)
(* ------------------------------------------------------------------- *)

Lemma rooted_inv (p : string) :
  rooted p = true -> exists rest, p = String slash rest.
Proof.
  unfold rooted.
  destruct p as [| c rest]; [discriminate|].
  change (strings_HasPrefix (String c rest) "/") with (Ascii.eqb "/"%char c && true).
  destruct (Ascii.eqb_spec "/"%char c) as [E | E]; intros H; [|discriminate H].
  exists rest. unfold slash. now rewrite E.
Qed.

Lemma rooted_app (p q : string) : rooted p = true -> rooted (p ++ q) = true.
Proof.
  intros H. destruct (rooted_inv p H) as [rest ->].
  reflexivity.
Qed.

Lemma path_Clean_rooted (p : string) : rooted (path_Clean p) = true.
Proof.
  unfold path_Clean.
  destruct (rev (fold_left clean_step (split_slash p "") [])) as [| seg segs];
    reflexivity.
Qed.

Lemma cleanPath_rooted (p : string) : rooted (cleanPath p) = true.
Proof.
  unfold cleanPath. destruct p as [| c rest]; [reflexivity|].
  cbv zeta.
  match goal with |- context [if ?b then _ else _] => destruct b end.
  all: match goal with |- context [if ?b then _ else _] => destruct b end.
  all: try apply rooted_app; apply path_Clean_rooted.
Qed.

Lemma last_char_app (p : string) (c : ascii) :
  last_char (p ++ String c EmptyString) = Some c.
Proof.
  induction p as [| a p IH]; [reflexivity|].
  cbn. rewrite IH. destruct (p ++ String c EmptyString) eqn:E; [|reflexivity].
  destruct p; discriminate.
Qed.

(** Comparisons of closed strings are evaluated; the others are left
    for rewriting. *)
Ltac eval_eqb :=
  repeat match goal with
    | |- context [String.eqb ?a ?b] =>
        let v := eval vm_compute in (String.eqb a b) in
        match v with
        | true => change (String.eqb a b) with true
        | false => change (String.eqb a b) with false
        end
    | |- context [ends_with_char ?a ?b] =>
        let v := eval vm_compute in (ends_with_char a b) in
        match v with
        | true => change (ends_with_char a b) with true
        | false => change (ends_with_char a b) with false
        end
    end.

(** The routing table of [main] sends every rooted path but ["/panic"]
    to the handler of ["/"], and redirects none to a slash-ended path. *)
Lemma main_mux_catch_all (path : string) :
  rooted path = true -> path <> "/panic" ->
  mux_handler main_mux path = main_func1 /\ shouldRedirect main_mux path = false.
Proof.
  intros Hroot Hne.
  assert (Hp : ("/panic" =? path)%string = false)
    by (apply String.eqb_neq; congruence).
  assert (Hq : ("/panic" =? path ++ "/")%string = false).
  { apply String.eqb_neq. intros E.
    pose proof (last_char_app path slash) as L.
    change (String slash EmptyString) with "/" in L.
    rewrite <- E in L. discriminate L. }
  assert (Hr : ("/" =? path ++ "/")%string = false).
  { apply String.eqb_neq. intros E.
    destruct (rooted_inv path Hroot) as [rest ->].
    destruct rest; discriminate E. }
  assert (He : (path =? "")%string = false).
  { apply String.eqb_neq. intros ->. discriminate Hroot. }
  unfold mux_handler, mux_match, shouldRedirect, mux_m, main_mux.
  cbn [find pattern longest_match].
  rewrite Hp, Hq, Hr, He. fold (rooted path). rewrite Hroot.
  eval_eqb.
  destruct ("/" =? path)%string; cbn; split; reflexivity.
Qed.

Lemma main_mux_panic :
  mux_handler main_mux "/panic" = main_func2 /\
  shouldRedirect main_mux "/panic" = false.
Proof. split; reflexivity. Qed.

(** Where [main]'s routing table sends a request. *)
Lemma route_catch_all (r : Request) :
  URL_Path r <> "/panic" ->
  (if (Method r =? "CONNECT")%string then rooted (URL_Path r) = true
   else cleanPath (URL_Path r) = URL_Path r) ->
  ServeMux_Handler main_mux r = main_func1.
Proof.
  intros Hne Hcanon. unfold ServeMux_Handler.
  destruct (Method r =? "CONNECT")%string.
  - destruct (main_mux_catch_all _ Hcanon Hne) as [-> ->]. reflexivity.
  - cbv zeta. rewrite Hcanon.
    assert (Hroot : rooted (URL_Path r) = true)
      by (rewrite <- Hcanon; apply cleanPath_rooted).
    destruct (main_mux_catch_all _ Hroot Hne) as [-> ->].
    rewrite String.eqb_refl. reflexivity.
Qed.

Lemma route_panic (r : Request) :
  URL_Path r = "/panic" -> ServeMux_Handler main_mux r = main_func2.
Proof.
  intros Hp. unfold ServeMux_Handler. rewrite Hp.
  destruct (Method r =? "CONNECT")%string; reflexivity.
Qed.

(** The server's own dispatch hands a request whose target is not [*] to
    the handler. *)
Lemma serve_dispatch (handler : Handler) (r : Request) (s : HState) :
  RequestURI r <> "*" ->
  serve handler r s =
  match exec (handler conn_response r) (with_resp (newResponse r) s) with
  | (Returned _, s') => (Returned tt, with_resp (finishRequest (resp s')) s')
  | (Panicked v, s') => (Panicked v, s')
  end.
Proof.
  intros Huri. apply String.eqb_neq in Huri.
  unfold serve, serverHandler_ServeHTTP, HandlerFunc, ServeHTTP.
  rewrite Huri. reflexivity.
Qed.

(** A request that ends at the handler of ["/"]. *)
Lemma serve_hello (r : Request) (s : HState) :
  RequestURI r <> "*" ->
  URL_Path r <> "/panic" ->
  (if (Method r =? "CONNECT")%string then rooted (URL_Path r) = true
   else cleanPath (URL_Path r) = URL_Path r) ->
  serve main_handler r s =
    (Returned tt,
     {| resp := {| wroteHeader := true; status := 200; header := [];
                   contentLength := -1; written := 14;
                   body := if (Method r =? "HEAD")%string then ""
                           else "Hello, World!" ++ nl;
                   toHEAD := (Method r =? "HEAD")%string |};
        logged := logged s; stacks := stacks s |}).
Proof.
  intros Huri Hne Hcanon.
  rewrite serve_dispatch by assumption.
  unfold main_handler. rewrite exec_recoveryMiddleware.
  unfold ServeMux_ServeHTTP, HandlerFunc, ServeHTTP.
  apply String.eqb_neq in Huri. rewrite Huri.
  rewrite (route_catch_all r Hne Hcanon).
  unfold main_func1, HandlerFunc, fmt_Fprintln, call, newResponse, with_resp.
  cbn [exec perform resp logged stacks].
  unfold do_Write, finishRequest, with_resp.
  cbn [wroteHeader status header body toHEAD resp logged stacks].
  change (bodyAllowedForStatus StatusOK) with true. cbn [negb].
  destruct (Method r =? "HEAD")%string; reflexivity.
Qed.

(** A request that ends at the handler of ["/panic"]. *)
Lemma serve_panic (r : Request) (s : HState) :
  RequestURI r <> "*" ->
  URL_Path r = "/panic" ->
  serve main_handler r s =
    (Returned tt,
     {| resp := {| wroteHeader := true; status := 500;
                   header := [("X-Content-Type-Options", "nosniff");
                              ("Content-Type", "text/plain; charset=utf-8")];
                   contentLength := -1; written := 22;
                   body := if (Method r =? "HEAD")%string then ""
                           else "Internal Server Error" ++ nl;
                   toHEAD := (Method r =? "HEAD")%string |};
        logged := (logged s ++
                   [ensure_newline ("PANIC RECOVERED: Something went wrong!" ++ nl ++
                                    "STACK TRACE:" ++ nl ++ stacks s)])%list;
        stacks := stacks s |}).
Proof.
  intros Huri Hp.
  rewrite serve_dispatch by assumption.
  unfold main_handler. rewrite exec_recoveryMiddleware.
  unfold ServeMux_ServeHTTP, HandlerFunc, ServeHTTP.
  apply String.eqb_neq in Huri. rewrite Huri.
  rewrite (route_panic r Hp).
  unfold main_func2, HandlerFunc, panic, newResponse, with_resp.
  cbn [exec resp logged stacks fmt_v].
  unfold http_Error, ResponseWriter_WriteHeader, fmt_Fprintln, call, panic.
  cbn [bind exec perform resp logged stacks with_resp header set_header
       wroteHeader status body toHEAD do_WriteHeader].
  unfold do_Write, finishRequest, with_resp.
  cbn. destruct (Method r =? "HEAD")%string; reflexivity.
Qed.

(** A redirect sent on a fresh response has status 301. *)
Lemma exec_RedirectHandler (target : string) (r : Request) (s : HState) :
  exists rs,
    exec (RedirectHandler target StatusMovedPermanently conn_response r)
         (with_resp (newResponse r) s) = (Returned tt, with_resp rs s) /\
    wroteHeader rs = true /\ status rs = 301.
Proof.
  unfold RedirectHandler, HandlerFunc, http_Redirect, ResponseWriter_WriteHeader,
    fmt_Fprintln, call, newResponse, with_resp.
  canon_keys.
  cbn [bind exec perform resp logged stacks header header_get find negb andb].
  destruct (Method r =? "GET")%string; destruct (Method r =? "HEAD")%string;
    cbn [orb andb bind exec perform resp logged stacks with_resp header set_header
         wroteHeader status body toHEAD contentLength written];
    canon_keys;
    cbn [orb andb bind exec perform resp logged stacks with_resp header set_header
         wroteHeader status body toHEAD contentLength written];
    unfold do_WriteHeader;
    cbn [wroteHeader status body toHEAD contentLength written header];
    change ((StatusMovedPermanently <? 100) || (999 <? StatusMovedPermanently)) with false;
    change ((100 <=? StatusMovedPermanently) && (StatusMovedPermanently <=? 199) &&
            negb (StatusMovedPermanently =? 101)) with false;
    cbv iota;
    cbn [bind exec perform resp logged stacks with_resp];
    eexists; (split; [reflexivity|]);
    try (apply do_Write_header; reflexivity);
    split; reflexivity.
Qed.

(** The statuses the server of [main] can answer with.  A request is
    answered with 404 only if it is a CONNECT whose path is not rooted. *)
Lemma serve_status (r : Request) (s : HState) :
  (Method r =? "CONNECT")%string = false \/ rooted (URL_Path r) = true ->
  exists s',
    serve main_handler r s = (Returned tt, s') /\
    wroteHeader (resp s') = true /\
    (status (resp s') = 200 \/ status (resp s') = 301 \/
     status (resp s') = 400 \/ status (resp s') = 500).
Proof.
  intros Hr.
  destruct (String.eqb_spec (RequestURI r) "*") as [Hstar | Hstar].
  - (* the request target is an asterisk *)
    unfold serve, serverHandler_ServeHTTP, HandlerFunc, ServeHTTP.
    apply String.eqb_eq in Hstar. rewrite Hstar. cbn [andb].
    destruct (Method r =? "OPTIONS")%string.
    + unfold globalOptionsHandler, HandlerFunc, call, newResponse, with_resp.
      cbn. eexists. split; [reflexivity|]. cbn. auto.
    + unfold main_handler. rewrite exec_recoveryMiddleware.
      unfold ServeMux_ServeHTTP, HandlerFunc, ServeHTTP. rewrite Hstar.
      unfold ResponseWriter_WriteHeader, call, newResponse, with_resp.
      destruct (ProtoAtLeast r 1 1); cbn;
        (eexists; split; [reflexivity|]); cbn; auto.
  - destruct (String.eqb_spec (URL_Path r) "/panic") as [Hp | Hp].
    + rewrite (serve_panic r s Hstar Hp). eexists. split; [reflexivity|].
      cbn. auto.
    + destruct (Method r =? "CONNECT")%string eqn:Hm.
      * destruct Hr as [Hr | Hr]; [discriminate Hr|].
        rewrite (serve_hello r s Hstar Hp) by (rewrite Hm; exact Hr).
        eexists. split; [reflexivity|]. cbn. auto.
      * destruct (String.eqb_spec (cleanPath (URL_Path r)) (URL_Path r)) as [Hc | Hc].
        -- rewrite (serve_hello r s Hstar Hp) by (rewrite Hm; exact Hc).
           eexists. split; [reflexivity|]. cbn. auto.
        -- rewrite serve_dispatch by assumption.
           unfold main_handler. rewrite exec_recoveryMiddleware.
           unfold ServeMux_ServeHTTP, HandlerFunc, ServeHTTP.
           apply String.eqb_neq in Hstar. rewrite Hstar.
           unfold ServeMux_Handler. rewrite Hm. cbv zeta.
           apply String.eqb_neq in Hc. rewrite Hc. cbn [negb].
           match goal with
           | |- context [exec ((if ?b then RedirectHandler ?t1 _ else RedirectHandler ?t2 _) _ _) _] =>
               destruct b;
               [destruct (exec_RedirectHandler t1 r s) as (rs & -> & Hw & Hst)
               |destruct (exec_RedirectHandler t2 r s) as (rs & -> & Hw & Hst)]
           end.
           all: eexists; split; [reflexivity|]; unfold finishRequest, with_resp;
             cbn [resp]; rewrite Hw; auto.
Qed.

(* ------------------------------------------------------------------- *)
(** ** Steps of the process and histories of goroutines                 *)
(* ------------------------------------------------------------------- *)

Lemma next_op_advances (th : Thread) (p : Proc) (o : Op) (th' : Thread) :
  next_op th p = Some (o, th') -> advances (now p) th o th'.
Proof.
  unfold next_op, advances. destruct th as [c w].
  cbn [code pending].
  destruct w; try discriminate;
    (destruct c as [[] | v | k | X e k]; [| | |destruct e]); intros H;
    repeat match type of H with
      | context [match ?x with _ => _ end] => destruct x eqn:?
      end;
    try discriminate H; inversion H; subst; clear H;
    try solve [repeat split; eauto; lia].
  all: try solve [eexists; repeat split; eauto].
  all: try solve [right; eexists; repeat split; eauto].
  all: try solve [left; repeat split; eauto].
  all: try solve [eexists; repeat split; intros; try discriminate; eauto; lia].
  exists (option_map errors_New lnerr). repeat split.
  destruct lnerr; discriminate.
Qed.

Lemma run_snoc (acts : list Action) (a : Action) (p : Proc) :
  run (acts ++ [a]) p = step a (run acts p).
Proof. unfold run. rewrite fold_left_app. reflexivity. Qed.

Lemma hist_app (g : Goroutine) (tr1 tr2 : list (Time * Event)) :
  hist g (tr1 ++ tr2) = (hist g tr1 ++ hist g tr2)%list.
Proof. unfold hist. apply flat_map_app. Qed.

Lemma Goroutine_eqb_refl (g : Goroutine) : Goroutine_eqb g g = true.
Proof. destruct g; cbn; auto using Nat.eqb_refl. Qed.

Lemma Goroutine_eqb_eq (a b : Goroutine) : Goroutine_eqb a b = true <-> a = b.
Proof.
  destruct a, b; cbn; split; intros H; try discriminate; try reflexivity.
  - apply Nat.eqb_eq in H. now subst.
  - inversion H. apply Nat.eqb_refl.
Qed.

Lemma follows_snoc (t0 : Time) (th : Thread) (h : list (Time * Op))
    (th1 th2 : Thread) (t : Time) (o : Op) :
  follows t0 th h th1 -> t0 <= t -> Forall (fun e => fst e <= t) h ->
  advances t th1 o th2 ->
  follows t0 th (h ++ [(t, o)]) th2.
Proof.
  revert t0 th. induction h as [| [t' o'] h IH]; intros t0 th Hf Hle Hall Hadv.
  - cbn in Hf. subst th1. cbn. split; [assumption|]. exists th2. split; auto.
  - cbn in Hf. destruct Hf as (Hle' & th' & Hadv' & Hf).
    inversion Hall as [| ? ? Ht Hall']; subst. cbn in Ht.
    cbn. split; [assumption|]. exists th'. split; [assumption|].
    apply IH; assumption.
Qed.

(** What [commit] changes. *)
Lemma commit_trace (g : Goroutine) (o : Op) (p : Proc) :
  trace (commit g o p) = (trace p ++ [(now p, By g o)])%list.
Proof. destruct o; try reflexivity. destruct g; reflexivity. Qed.

Lemma commit_now (g : Goroutine) (o : Op) (p : Proc) : now (commit g o p) = now p.
Proof. destruct o; try reflexivity. destruct g; reflexivity. Qed.

Lemma commit_main (g : Goroutine) (o : Op) (p : Proc) :
  main_thread (commit g o p) = main_thread p.
Proof. destruct o; try reflexivity. destruct g; reflexivity. Qed.

Lemma commit_stacks (g : Goroutine) (o : Op) (p : Proc) :
  stacks_text (commit g o p) = stacks_text p.
Proof. destruct o; try reflexivity. destruct g; reflexivity. Qed.

(** The signal trap touches the channels and the trace only. *)
Lemma relay_frame (s : Signal) (regs : list (chan * list Signal)) (p : Proc) :
  now (relay s regs p) = now p /\
  notify (relay s regs p) = notify p /\
  server (relay s regs p) = server p /\
  main_thread (relay s regs p) = main_thread p /\
  spawned (relay s regs p) = spawned p /\
  stacks_text (relay s regs p) = stacks_text p /\
  exit_status (relay s regs p) = exit_status p /\
  exists evs,
    trace (relay s regs p) = (trace p ++ map (fun ev => (now p, ev)) evs)%list /\
    Forall (fun ev => exists c, ev = Sent c s \/ ev = Dropped c s) evs.
Proof.
  revert p. induction regs as [| [c sigs] regs IH]; intros p; cbn [relay].
  - repeat split. exists []. split; [now rewrite app_nil_r | constructor].
  - destruct (existsb (Z.eqb s) sigs); [|apply IH].
    destruct (nth_error (chans p) c) as [ch|]; [|apply IH].
    destruct (length (buf ch) <? cap ch)%nat.
    + match goal with |- context [relay s regs ?q] =>
        destruct (IH q) as (E1 & E2 & E3 & E4 & E5 & E6 & E7 & evs & Etr & Hev)
      end.
      rewrite E1, E2, E3, E4, E5, E6, E7. repeat split.
      exists (Sent c s :: evs). split.
      * rewrite Etr. cbn. rewrite <- app_assoc. reflexivity.
      * constructor; [exists c; auto | assumption].
    + match goal with |- context [relay s regs ?q] =>
        destruct (IH q) as (E1 & E2 & E3 & E4 & E5 & E6 & E7 & evs & Etr & Hev)
      end.
      rewrite E1, E2, E3, E4, E5, E6, E7. repeat split.
      exists (Dropped c s :: evs). split.
      * rewrite Etr. cbn. rewrite <- app_assoc. reflexivity.
      * constructor; [exists c; auto | assumption].
Qed.

Lemma request_arrives_frame (r : Request) (p : Proc) :
  now (request_arrives r p) = now p /\
  chans (request_arrives r p) = chans p /\
  notify (request_arrives r p) = notify p /\
  server (request_arrives r p) = server p /\
  main_thread (request_arrives r p) = main_thread p /\
  spawned (request_arrives r p) = spawned p /\
  stacks_text (request_arrives r p) = stacks_text p /\
  exit_status (request_arrives r p) = exit_status p /\
  exists evs,
    trace (request_arrives r p) = (trace p ++ map (fun ev => (now p, ev)) evs)%list /\
    Forall request_event evs.
Proof.
  unfold request_arrives.
  destruct (server p) eqn:Hs;
    try (repeat split; try assumption; exists [];
         split; [now rewrite app_nil_r | constructor]).
  match goal with |- context [serve ?a ?b ?c] =>
    destruct (serve a b c) as [[[] | v] s] end; cbn; repeat split;
    try assumption;
    eexists; (split; [reflexivity|]);
    apply Forall_app; split;
    try (apply Forall_forall; intros ev Hin; apply in_map_iff in Hin;
         destruct Hin as (text & <- & _); exact I);
    repeat constructor.
Qed.

Lemma hist_foreign (g : Goroutine) (t : Time) (evs : list Event) :
  Forall (foreign g) evs -> hist g (map (fun ev => (t, ev)) evs) = [].
Proof.
  induction 1 as [| ev evs Hev _ IH]; [reflexivity|].
  unfold hist in *. cbn [map flat_map snd fst]. rewrite IH, app_nil_r.
  destruct ev; try reflexivity. cbn in Hev.
  destruct (Goroutine_eqb g g0) eqn:E; [|reflexivity].
  apply Goroutine_eqb_eq in E. congruence.
Qed.

(** The cases of one action. *)
Lemma step_view (a : Action) (p : Proc) :
  step a p = p \/
  (exists g th o th',
      a = Runs g /\ exit_status p = None /\ thread_of g p = Some th /\
      next_op th p = Some (o, th') /\
      step a p = commit g o (set_thread g th' p)) \/
  (exists s, a = Signal_arrives s /\ exit_status p = None /\
             step a p = signal_arrives s p) \/
  (exists d, a = Time_passes d /\ exit_status p = None /\
             step a p = set_now (now p + Z.max 0 d) p) \/
  (exists srv, a = Listener_opens /\ exit_status p = None /\
               server p = Srv_binding srv /\
               step a p = emit [Bound] (set_server (Srv_serving srv) p)) \/
  (exists msg, a = Listener_fails msg /\ exit_status p = None /\
               (exists srv, server p = Srv_binding srv \/ server p = Srv_serving srv) /\
               step a p = emit [Listener_failed msg] (set_server (Srv_failed msg) p)) \/
  (exists lnerr, a = Connections_close lnerr /\ exit_status p = None /\
                 server p = Srv_closing /\
                 step a p = emit [Drained lnerr] (set_server (Srv_drained lnerr) p)) \/
  (exists r, a = Request_arrives r /\ exit_status p = None /\
             step a p = request_arrives r p).
Proof.
  unfold step. destruct (exit_status p) eqn:Hx; [left; reflexivity|].
  destruct a as [g | s | d | | msg | lnerr | r].
  - unfold run_goroutine. destruct (thread_of g p) as [th|] eqn:Hth; [|auto].
    destruct (next_op th p) as [[o th']|] eqn:Hn; [|auto].
    right; left. exists g, th, o, th'. auto.
  - right; right; left. eauto.
  - right; right; right; left. eauto.
  - destruct (server p) eqn:Hs; auto.
    right; right; right; right; left. eauto.
  - destruct (server p) eqn:Hs; auto;
      right; right; right; right; right; left; eauto 7.
  - destruct (server p) eqn:Hs; auto.
    right; right; right; right; right; right; left. eauto.
  - right; right; right; right; right; right; right. eauto.
Qed.

Lemma Forall_time_le (tr : list (Time * Event)) (t t' : Time) :
  Forall (fun e => fst e <= t) tr -> t <= t' -> Forall (fun e => fst e <= t') tr.
Proof.
  intros H Hle. eapply Forall_impl; [|exact H]. cbn. intros e He. lia.
Qed.

Lemma Forall_time_emit (tr : list (Time * Event)) (t : Time) (evs : list Event) :
  Forall (fun e => fst e <= t) tr ->
  Forall (fun e => fst e <= t) (tr ++ map (fun ev => (t, ev)) evs).
Proof.
  intros H. apply Forall_app. split; [assumption|].
  apply Forall_forall. intros e Hin. apply in_map_iff in Hin.
  destruct Hin as (ev & <- & _). cbn. lia.
Qed.

Lemma hist_times (g : Goroutine) (tr : list (Time * Event)) (t : Time) :
  Forall (fun e => fst e <= t) tr -> Forall (fun e => fst e <= t) (hist g tr).
Proof.
  induction 1 as [| [t' ev] tr Ht _ IH]; [constructor|].
  unfold hist in *. cbn [flat_map snd fst]. apply Forall_app. split; [|exact IH].
  destruct ev; try constructor. destruct (Goroutine_eqb g g0); repeat constructor.
  exact Ht.
Qed.

Lemma hist_one (g : Goroutine) (t : Time) (ev : Event) :
  hist g [(t, ev)] =
  match ev with
  | By g' o => if Goroutine_eqb g g' then [(t, o)] else []
  | _ => []
  end.
Proof. unfold hist. cbn. rewrite app_nil_r. reflexivity. Qed.

Lemma commit_spawned (g : Goroutine) (o : Op) (p : Proc) :
  spawned (commit g o p) =
  (spawned p ++ match o with Spawned b => [thread b] | _ => [] end)%list.
Proof.
  destruct o; cbn; try (now rewrite app_nil_r); try reflexivity.
  destruct g; cbn; now rewrite app_nil_r.
Qed.

Lemma nth_error_list_set_eq {A} (l : list A) (n : nat) (x y : A) :
  nth_error l n = Some y -> nth_error (list_set l n x) n = Some x.
Proof.
  revert n. induction l as [| a l IH]; intros [| n] H; cbn in *;
    try discriminate; auto.
Qed.

Lemma nth_error_list_set_neq {A} (l : list A) (n m : nat) (x : A) :
  n <> m -> nth_error (list_set l m x) n = nth_error l n.
Proof.
  revert n m. induction l as [| a l IH]; intros [| n] [| m] H; cbn;
    try reflexivity; try congruence.
  apply IH. congruence.
Qed.

Lemma nth_error_app_some {A} (l l' : list A) (n : nat) (x : A) :
  nth_error l n = Some x -> nth_error (l ++ l') n = Some x.
Proof.
  intros H. rewrite nth_error_app1; [assumption|].
  apply nth_error_Some. congruence.
Qed.

(** The view of an action from one goroutine [g]: the action is a step
    of [g], or it leaves the goroutine and its history alone. *)
Lemma step_goroutine_view (g : Goroutine) (a : Action) (p : Proc) (th : Thread) :
  thread_of g p = Some th ->
  now p <= now (step a p) /\
  (Forall (fun e => fst e <= now p) (trace p) ->
   Forall (fun e => fst e <= now (step a p)) (trace (step a p))) /\
  ((thread_of g (step a p) = Some th /\ hist g (trace (step a p)) = hist g (trace p)) \/
   (exists o th', advances (now p) th o th' /\
                  thread_of g (step a p) = Some th' /\
                  hist g (trace (step a p)) = (hist g (trace p) ++ [(now p, o)])%list)).
Proof.
  intros Hth.
  destruct (step_view a p) as
    [E | [(g' & th1 & o & th' & -> & Hx & Hth1 & Hn & E)
       | [(s & -> & Hx & E) | [(d & -> & Hx & E) | [(srv & -> & Hx & Hs & E)
       | [(msg & -> & Hx & Hs & E) | [(ln & -> & Hx & Hs & E) | (r & -> & Hx & E)]]]]]]];
    rewrite E; clear E.
  - split; [lia|]. split; [auto|]. left. auto.
  - rewrite commit_now, commit_trace.
    assert (Hnow : now (set_thread g' th' p) = now p) by (destruct g'; reflexivity).
    assert (Htr : trace (set_thread g' th' p) = trace p) by (destruct g'; reflexivity).
    rewrite Hnow, Htr. split; [lia|]. split.
    { intros H. apply (Forall_time_emit _ _ [By g' o]). exact H. }
    rewrite hist_app, hist_one.
    destruct (Goroutine_eqb g g') eqn:Eg.
    + apply Goroutine_eqb_eq in Eg. subst g'. right.
      rewrite Hth in Hth1. inversion Hth1; subst th1.
      exists o, th'. split; [apply next_op_advances; assumption|].
      split; [|reflexivity].
      destruct g as [| n |]; cbn [thread_of] in *.
      * rewrite commit_main. reflexivity.
      * rewrite commit_spawned. apply nth_error_app_some.
        cbn [set_thread spawned set_spawned].
        eapply nth_error_list_set_eq. exact Hth.
      * discriminate.
    + left. rewrite app_nil_r. split; [|reflexivity].
      assert (Hne : g <> g') by (intros ->; rewrite Goroutine_eqb_refl in Eg; discriminate).
      destruct g as [| n |]; cbn [thread_of] in *.
      * rewrite commit_main. destruct g'; cbn; congruence.
      * rewrite commit_spawned. apply nth_error_app_some.
        destruct g' as [| m |]; cbn [set_thread spawned set_spawned set_main];
          try assumption.
        rewrite nth_error_list_set_neq; [assumption | congruence].
      * discriminate.
  - unfold signal_arrives. destruct (registered s p).
    + destruct (relay_frame s (notify p) p)
        as (E1 & E2 & E3 & E4 & E5 & E6 & E7 & evs & Etr & Hev).
      rewrite E1, Etr. split; [lia|]. split; [apply Forall_time_emit|].
      left. split.
      * destruct g; cbn [thread_of] in *; congruence.
      * rewrite hist_app, hist_foreign, app_nil_r; [reflexivity|].
        eapply Forall_impl; [|exact Hev]. intros ev (c & [-> | ->]); exact I.
    + destruct (default_kills s); [|destruct (default_dumps s)];
        cbn [now trace emit set_exit map].
      * split; [lia|]. split; [apply (Forall_time_emit _ _ [Killed s])|].
        left. rewrite hist_app. cbn. rewrite app_nil_r. split; [|reflexivity].
        destruct g; exact Hth.
      * split; [lia|]. split; [apply (Forall_time_emit _ _ [Dumped s])|].
        left. rewrite hist_app. cbn. rewrite app_nil_r. split; [|reflexivity].
        destruct g; exact Hth.
      * split; [lia|]. split; [apply (Forall_time_emit _ _ [Unhandled s])|].
        left. rewrite hist_app. cbn. rewrite app_nil_r. split; [|reflexivity].
        destruct g; exact Hth.
  - cbn. split; [lia|]. split.
    { intros H. eapply Forall_time_le; [exact H | lia]. }
    left. split; [|reflexivity]. destruct g; exact Hth.
  - cbn. split; [lia|]. split.
    { apply (Forall_time_emit _ _ [Bound]). }
    left. rewrite hist_app. cbn. rewrite app_nil_r. split; [|reflexivity].
    destruct g; exact Hth.
  - cbn. split; [lia|]. split.
    { apply (Forall_time_emit _ _ [Listener_failed msg]). }
    left. rewrite hist_app. cbn. rewrite app_nil_r. split; [|reflexivity].
    destruct g; exact Hth.
  - cbn. split; [lia|]. split.
    { apply (Forall_time_emit _ _ [Drained ln]). }
    left. rewrite hist_app. cbn. rewrite app_nil_r. split; [|reflexivity].
    destruct g; exact Hth.
  - destruct (request_arrives_frame r p)
      as (E1 & E2 & E3 & E4 & E5 & E6 & E7 & E8 & evs & Etr & Hev).
    rewrite E1, Etr. split; [lia|]. split; [apply Forall_time_emit|].
    left. split.
    + destruct g; cbn [thread_of] in *; congruence.
    + rewrite hist_app, hist_foreign, app_nil_r; [reflexivity|].
      eapply Forall_impl; [|exact Hev]. intros ev Hreq.
      destruct ev as [g' o | | | | | | | | | |]; try exact I.
      cbn in *. destruct g'; try contradiction.
      intros <-. discriminate Hth.
Qed.

(** The history of [main] in a trace of the process follows the body of
    [main]; the instants of a trace never exceed the clock. *)
Lemma main_history (body : Go ProcE unit) (t0 : Time) (stk : string)
    (acts : list Action) :
  follows t0 (thread body)
          (hist G_main (trace (run acts (start body t0 stk))))
          (main_thread (run acts (start body t0 stk))) /\
  t0 <= now (run acts (start body t0 stk)) /\
  Forall (fun e => fst e <= now (run acts (start body t0 stk)))
         (trace (run acts (start body t0 stk))).
Proof.
  induction acts as [| a acts IH] using rev_ind.
  - cbn. split; [reflexivity|]. split; [lia | constructor].
  - rewrite run_snoc. set (p := run acts (start body t0 stk)) in *.
    destruct IH as (Hf & Ht0 & Htimes).
    destruct (step_goroutine_view G_main a p (main_thread p) eq_refl)
      as (Hnow & Htr & [[Hth Hh] | (o & th' & Hadv & Hth & Hh)]).
    + cbn [thread_of] in Hth. inversion Hth as [Hth'].
      rewrite Hh, Hth'. split; [assumption|].
      split; [lia | auto].
    + cbn [thread_of] in Hth. inversion Hth as [Hth'].
      rewrite Hh, Hth'. split; [|split; [lia | auto]].
      eapply follows_snoc; eauto using hist_times.
Qed.

(* ------------------------------------------------------------------- *)
(** ** The histories of [main] and of the goroutine it starts           *)
(* ------------------------------------------------------------------- *)

Lemma main_with_unfold (c : Go ProcE unit) :
  main_with c =
  Vis (make_chan 1) (fun stop =>
  Vis (signal_Notify stop [SIGINT; SIGTERM]) (fun _ =>
  Vis (go_stmt (main_func3 main_server)) (fun _ =>
  Vis (chan_recv stop) (fun _ => from_signal c)))).
Proof. reflexivity. Qed.

Ltac split_adv :=
  repeat match goal with
    | H : _ /\ _ |- _ => destruct H
    | H : exists _, _ |- _ => destruct H
    | H : False |- _ => contradiction
    | H : _ \/ _ |- _ => destruct H
    end.

Ltac walk H :=
  match type of H with
  | follows ?t0 ?th ?h ?th' =>
      let t := fresh "t" in
      let o := fresh "o" in
      let Hle := fresh "Hle" in
      let th1 := fresh "th" in
      let Hadv := fresh "Hadv" in
      destruct h as [| [t o] h];
      [ cbn [follows] in H
      | cbn [follows] in H; destruct H as (Hle & th1 & Hadv & H);
        cbn [advances thread code pending bind call defer deferred_call resume
             from_signal shutdown_path after_cleanup cleanup main_func4
             logger_Println logger_Printf logger_Output logger_Fatalf recover
             pprof_goroutine_WriteTo Output GoroutineProfile Runtime_ProcE] in Hadv;
        repeat match type of Hadv with
          | context [match ?x with _ => _ end] => is_var x; destruct x
          | context [error_eqb ?x _] => is_var x; destruct x
          end;
        cbn [advances thread code pending bind call defer deferred_call resume
             logger_Println logger_Printf logger_Output logger_Fatalf
             Output GoroutineProfile Runtime_ProcE negb error_eqb] in Hadv ]
  end.

Ltac walk_all H k :=
  walk H; [ k | split_adv; try discriminate; subst; try walk_all H k .. ].

Ltac in_cases :=
  repeat match goal with
    | H : In _ (_ :: _) |- _ => destruct H as [H | H]
    | H : In _ [] |- _ => contradiction H
    | H : (_, _) = (_, _) |- _ => inversion H; subst; clear H
    end.

Lemma main_trail (t0 : Time) (h : list (Time * Op)) (th : Thread) :
  follows t0 (thread main) h th ->
  prefix_of (map snd h) (main_script (map snd h)) /\
  main_timing h (ctx_of (map snd h)) (wake_of (map snd h)).
Proof.
  intros H. unfold main in H. rewrite main_with_unfold in H.
  walk_all H ltac:(
    split;
    [ eexists; cbv [map snd app main_script main_ops chan_of signal_of ctx_of
                    wake_of result_of nth_error]; reflexivity
    | unfold main_timing; 
      cbv [map snd ctx_of wake_of nth_error];
      repeat split; intros; in_cases; cbn [deadline] in *;
      try lia; try reflexivity;
      try match goal with Hd : _ -> _ <= _ |- _ => apply Hd; reflexivity end ]).
Qed.

Lemma serve_trail (t0 : Time) (h : list (Time * Op)) (th : Thread) :
  follows t0 (thread (main_func3 main_server)) h th ->
  prefix_of (map snd h) (serve_script (map snd h)).
Proof.
  intros H. unfold main_func3 in H.
  walk_all H ltac:(
    eexists; cbv [map snd app serve_script serve_ops serve_ops_tail called_of err_of
                  nth_error error_eqb]; reflexivity).
Qed.

Lemma prefix_nth {A} (l full : list A) (i : nat) (x : A) :
  prefix_of l full -> nth_error l i = Some x -> nth_error full i = Some x.
Proof.
  intros [rest <-] H. rewrite nth_error_app1; [assumption|].
  apply nth_error_Some. congruence.
Qed.

Lemma prefix_length {A} (l full : list A) :
  prefix_of l full -> (length l <= length full)%nat.
Proof. intros [rest <-]. rewrite length_app. lia. Qed.

Lemma nth_error_snoc {A} (l : list A) (x : A) :
  nth_error (l ++ [x]) (length l) = Some x.
Proof. rewrite nth_error_app2, Nat.sub_diag; [reflexivity | lia]. Qed.

(** The step of [main] at place [i] of its history is the step at
    place [i] of its script. *)
Lemma main_op_at (t0 : Time) (h : list (Time * Op)) (th : Thread)
    (i : nat) (t : Time) (o : Op) :
  follows t0 (thread main) h th ->
  nth_error h i = Some (t, o) ->
  nth_error (main_script (map snd h)) i = Some o.
Proof.
  intros Hf Hn. apply main_trail in Hf. destruct Hf as [Hp _].
  eapply prefix_nth; [exact Hp|].
  rewrite nth_error_map, Hn. reflexivity.
Qed.

Lemma serve_op_at (t0 : Time) (h : list (Time * Op)) (th : Thread)
    (i : nat) (t : Time) (o : Op) :
  follows t0 (thread (main_func3 main_server)) h th ->
  nth_error h i = Some (t, o) ->
  nth_error (serve_script (map snd h)) i = Some o.
Proof.
  intros Hf Hn. apply serve_trail in Hf.
  eapply prefix_nth; [exact Hf|].
  rewrite nth_error_map, Hn. reflexivity.
Qed.

(** All that a step of a goroutine changes. *)
Lemma commit_fields (g : Goroutine) (o : Op) (th' : Thread) (p : Proc) :
  let p' := commit g o (set_thread g th' p) in
  now p' = now p /\
  stacks_text p' = stacks_text p /\
  trace p' = (trace p ++ [(now p, By g o)])%list /\
  main_thread p' = match g with G_main => th' | _ => main_thread p end /\
  spawned p' =
    ((match g with G_go n => list_set (spawned p) n th' | _ => spawned p end) ++
     match o with Spawned b => [thread b] | _ => [] end)%list /\
  chans p' = match o with
             | Made _ n => (chans p ++ [{| cap := n; buf := [] |}])%list
             | Received c _ => chan_pop (chans p) c
             | _ => chans p
             end /\
  notify p' = match o with
              | Notified c sigs => (notify p ++ [(c, sigs)])%list
              | _ => notify p
              end /\
  server p' = match o with
              | Listen_called srv => Srv_binding srv
              | Shutdown_called _ =>
                  match server p with
                  | Srv_drained lnerr => Srv_drained lnerr
                  | _ => Srv_closing
                  end
              | _ => server p
              end /\
  exit_status p' = match o with
                   | Exited c => Some (Exit_code c)
                   | Finished => match g with
                                 | G_main => Some (Exit_code 0)
                                 | _ => exit_status p
                                 end
                   | Crashed _ => Some (Exit_code 2)
                   | _ => exit_status p
                   end.
Proof.
  destruct o; destruct g; cbn; rewrite ?app_nil_r; repeat split; reflexivity.
Qed.

(** An action of the environment leaves the goroutines alone. *)
Lemma env_frame (a : Action) (p : Proc) :
  (forall g, a <> Runs g) ->
  main_thread (step a p) = main_thread p /\
  spawned (step a p) = spawned p /\
  stacks_text (step a p) = stacks_text p /\
  (forall g, g <> G_conn -> hist g (trace (step a p)) = hist g (trace p)).
Proof.
  intros Ha.
  destruct (step_view a p) as
    [E | [(g' & th1 & o & th' & -> & Hx & Hth1 & Hn & E)
       | [(s & -> & Hx & E) | [(d & -> & Hx & E) | [(srv & -> & Hx & Hs & E)
       | [(msg & -> & Hx & Hs & E) | [(ln & -> & Hx & Hs & E) | (r & -> & Hx & E)]]]]]]];
    rewrite E; clear E.
  - auto.
  - now elim (Ha g').
  - unfold signal_arrives. destruct (registered s p).
    + destruct (relay_frame s (notify p) p)
        as (E1 & E2 & E3 & E4 & E5 & E6 & E7 & evs & Etr & Hev).
      repeat split; try assumption. intros g _.
      rewrite Etr, hist_app, hist_foreign, app_nil_r; [reflexivity|].
      eapply Forall_impl; [|exact Hev]. intros ev (c & [-> | ->]); exact I.
    + destruct (default_kills s); [|destruct (default_dumps s)]; cbn; repeat split; intros g _;
        rewrite hist_app; cbn; now rewrite app_nil_r.
  - cbn. auto.
  - cbn. repeat split. intros g _. rewrite hist_app. cbn. now rewrite app_nil_r.
  - cbn. repeat split. intros g _. rewrite hist_app. cbn. now rewrite app_nil_r.
  - cbn. repeat split. intros g _. rewrite hist_app. cbn. now rewrite app_nil_r.
  - destruct (request_arrives_frame r p)
      as (E1 & E2 & E3 & E4 & E5 & E6 & E7 & E8 & evs & Etr & Hev).
    repeat split; try assumption. intros g Hg.
    rewrite Etr, hist_app, hist_foreign, app_nil_r; [reflexivity|].
    eapply Forall_impl; [|exact Hev]. intros ev Hreq.
    destruct ev as [g' o | | | | | | | | | |]; try exact I.
    cbn in *. destruct g'; try contradiction. congruence.
Qed.

(** Make the parameters of a script in [Hop] variables. *)
Ltac abstract_script Hop :=
  revert Hop; unfold main_script, serve_script;
  repeat match goal with
    | |- context [chan_of ?l] => generalize (chan_of l)
    | |- context [signal_of ?l] => generalize (signal_of l)
    | |- context [ctx_of ?l] => generalize (ctx_of l)
    | |- context [wake_of ?l] => generalize (wake_of l)
    | |- context [result_of ?l] => generalize (result_of l)
    | |- context [called_of ?l] => generalize (called_of l)
    | |- context [err_of ?l] => generalize (err_of l)
    end;
  intros.

Ltac step_cases a p :=
  let E := fresh "E" in
  destruct (step_view a p) as
    [E | [(?g & ?th & ?o & ?th' & -> & ?Hx & ?Hth & ?Hn & E)
       | [(?s & -> & ?Hx & E) | [(?d & -> & ?Hx & E) | [(?srv & -> & ?Hx & ?Hs & E)
       | [(?msg & -> & ?Hx & ?Hs & E) | [(?ln & -> & ?Hx & ?Hs & E)
       | (?r & -> & ?Hx & E)]]]]]]].

Lemma threads_invariant (acts : list Action) (t0 : Time) (stk : string) :
  threads_inv t0 (run acts (start main t0 stk)).
Proof.
  induction acts as [| a acts IH] using rev_ind.
  - left. cbn. auto.
  - pose proof (main_history main t0 stk (acts ++ [a])) as (Hm' & _ & _).
    pose proof (main_history main t0 stk acts) as (Hm & Ht0 & Htimes).
    rewrite run_snoc in *. set (p := run acts (start main t0 stk)) in *.
    destruct (step_view a p) as
      [E | [(g & th & o & th' & -> & Hx & Hth & Hn & E) | Henv]].
    + rewrite E. exact IH.
    + rewrite E in *. clear E.
      destruct (commit_fields g o th' p) as (_ & _ & Etr & _ & Esp & _).
      unfold threads_inv. rewrite Etr, Esp. rewrite !hist_app in *.
      rewrite !hist_one in *. rewrite Etr, hist_app, hist_one in Hm'.
      destruct g as [| n |]; cbn [thread_of Goroutine_eqb] in *.
      * (* a step of main *)
        pose proof (main_op_at _ _ _ _ _ _ Hm' (nth_error_snoc _ _)) as Hop.
        rewrite length_app. cbn [length].
        assert (Hgo : forall n, hist (G_go n)
                        (trace p ++ [(now p, By G_main o)]) = hist (G_go n) (trace p)).
        { intros n. rewrite hist_app, hist_one. cbn. apply app_nil_r. }
        destruct IH as [(Hsp & Hlen & Hno) | (thb & Hsp & Hlen & Hb & Hno)].
        -- rewrite Hsp. abstract_script Hop.
           destruct (length (hist G_main (trace p))) as [| [| [| k]]] eqn:El;
             [ | | | lia]; cbn in Hop; inversion Hop; subst o; cbn [app].
           ++ left. repeat split; [lia|]. intros n. now rewrite Hgo.
           ++ left. repeat split; [lia|]. intros n. now rewrite Hgo.
           ++ right. exists (thread (main_func3 main_server)).
              repeat split; [lia | | intros n Hne; now rewrite Hgo].
              rewrite Hno. reflexivity.
        -- right. exists thb. rewrite Hsp.
           assert (Hnsp : match o with Spawned b => [thread b] | _ => [] end = []).
           { abstract_script Hop.
             destruct (length (hist G_main (trace p))) as [| [| [| k]]]; try lia.
             unfold main_ops in Hop.
             do 9 (destruct k as [| k]; [cbn in Hop; inversion Hop; reflexivity|]).
             match type of Hop with context [match ?r with _ => _ end] =>
               destruct r end; cbn in Hop;
             do 3 (destruct k as [| k]; [cbn in Hop; inversion Hop; reflexivity|]);
             try discriminate Hop; destruct k; discriminate Hop. }
           rewrite Hnsp. cbn [app]. rewrite !app_nil_r.
           repeat split; [lia | assumption |].
           intros n Hne. rewrite Hgo. auto.
      * (* a step of a goroutine started by go *)
        assert (Hgo : forall m, m <> n -> hist (G_go m)
                        (trace p ++ [(now p, By (G_go n) o)]) = hist (G_go m) (trace p)).
        { intros m Hne. rewrite hist_app, hist_one. cbn.
          destruct (Nat.eqb_spec m n); [congruence | apply app_nil_r]. }
        destruct IH as [(Hsp & Hlen & Hno) | (thb & Hsp & Hlen & Hb & Hno)].
        { rewrite Hsp in Hth. destruct n; discriminate Hth. }
        rewrite Hsp in Hth. destruct n as [| n]; [|destruct n; discriminate Hth].
        cbn in Hth. inversion Hth; subst th.
        assert (Hb' : follows t0 (thread (main_func3 main_server))
                        (hist (G_go 0) (trace p) ++ [(now p, o)]) th').
        { eapply follows_snoc; eauto using hist_times, next_op_advances. }
        pose proof (serve_op_at _ _ _ _ _ _ Hb' (nth_error_snoc _ _)) as Hop.
        assert (Hnsp : match o with Spawned b => [thread b] | _ => [] end = []).
        { abstract_script Hop. revert Hop.
          unfold serve_ops, serve_ops_tail.
          generalize (length (hist (G_go 0) (trace p))). intros k Hop.
          repeat match type of Hop with
            | context [if ?b then _ else _] => destruct b
            end;
            do 5 (destruct k as [| k]; [cbn in Hop; inversion Hop; reflexivity|]);
            try discriminate Hop; destruct k; discriminate Hop. }
        right. exists th'. rewrite Hsp, Hnsp. cbn [list_set app].
        rewrite app_nil_r.
        repeat split; try assumption.
        intros n Hne. rewrite Hgo by congruence. auto.
      * discriminate Hth.
    + (* the environment *)
      assert (Ha : forall g, a <> Runs g).
      { destruct Henv as [(s & -> & _) | [(d & -> & _) | [(srv & -> & _)
          | [(msg & -> & _) | [(ln & -> & _) | (r & -> & _)]]]]]; congruence. }
      destruct (env_frame a p Ha) as (_ & Esp & _ & Eh).
      unfold threads_inv. rewrite Esp. rewrite !Eh by congruence.
      destruct IH as [(Hsp & Hlen & Hno) | (thb & Hsp & Hlen & Hb & Hno)].
      * left. repeat split; try assumption. intros n. rewrite Eh by congruence. auto.
      * right. exists thb. repeat split; try assumption.
        intros n Hne. rewrite Eh by congruence. auto.
Qed.

(* ------------------------------------------------------------------- *)
(** ** What a step of a goroutine finds in the process                  *)
(* ------------------------------------------------------------------- *)

Lemma next_op_facts (th : Thread) (p : Proc) (o : Op) (th' : Thread) :
  next_op th p = Some (o, th') ->
  match o with
  | Made c _ => c = length (chans p)
  | Received c s =>
      exists n rest, nth_error (chans p) c = Some {| cap := n; buf := s :: rest |}
  | Listen_called _ =>
      pending th = Ready /\ (server p = Srv_new \/ exists m, server p = Srv_failed m)
  | Listen_returned err =>
      (err = ErrServerClosed /\
       (server p = Srv_closing \/ exists l, server p = Srv_drained l)) \/
      (exists msg, err = errors_New msg /\ server p = Srv_failed msg /\
                   pending th = Started) \/
      (err = addr_in_use /\ pending th = Ready /\
       exists srv, server p = Srv_binding srv \/ server p = Srv_serving srv)
  | Shutdown_returned err =>
      (exists l, server p = Srv_drained l /\ err = option_map errors_New l) \/
      (err = Some DeadlineExceeded /\ forall l, server p <> Srv_drained l)
  | Profiled s => s = stacks_text p
  | _ => True
  end.
Proof.
  unfold next_op. destruct th as [c w]. cbn [code pending].
  destruct w; try discriminate;
    (destruct c as [[] | v | k | X e k]; [| | |destruct e]); intros H;
    repeat match type of H with
      | context [match ?x with _ => _ end] => destruct x eqn:?
      end;
    try discriminate H; inversion H; subst; clear H; try exact I;
    try reflexivity; eauto 8.
  all: try solve [right; split; [reflexivity | congruence]].
  all: try solve [left; eauto].
Qed.

(* ------------------------------------------------------------------- *)
(** ** How the process ends                                             *)
(* ------------------------------------------------------------------- *)

Lemma exit_invariant (body : Go ProcE unit) (acts : list Action)
    (t0 : Time) (stk : string) :
  exit_inv (run acts (start body t0 stk)).
Proof.
  induction acts as [| a acts IH] using rev_ind.
  - constructor.
  - rewrite run_snoc. set (p := run acts (start body t0 stk)) in *.
    unfold exit_inv in *.
    destruct (step_view a p) as
      [E | [(g & th & o & th' & -> & Hx & Hth & Hn & E)
         | [(s & -> & Hx & E) | [(d & -> & Hx & E) | [(srv & -> & Hx & Hs & E)
         | [(msg & -> & Hx & Hs & E) | [(ln & -> & Hx & Hs & E)
         | (r & -> & Hx & E)]]]]]]];
      rewrite E; clear E; try rewrite Hx in IH.
    + exact IH.
    + destruct (commit_fields g o th' p) as (_ & _ & Etr & _ & _ & _ & _ & _ & Ex).
      rewrite Ex, Etr, Hx.
      assert (Hex : match o with
                    | Exited c => Some (Exit_code c)
                    | Finished => match g with
                                  | G_main => Some (Exit_code 0)
                                  | _ => None
                                  end
                    | Crashed _ => Some (Exit_code 2)
                    | _ => None
                    end = exit_of (By g o))
        by (destruct o; destruct g; reflexivity).
      rewrite Hex. destruct (exit_of (By g o)) eqn:Eo.
      * exists (trace p), (now p), (By g o). auto.
      * apply Forall_app. split; [assumption|]. repeat constructor. exact Eo.
    + unfold signal_arrives. destruct (registered s p).
      * destruct (relay_frame s (notify p) p)
          as (_ & _ & _ & _ & _ & _ & E7 & evs & Etr & Hev).
        rewrite E7, Hx, Etr. apply Forall_app. split; [assumption|].
        apply Forall_forall. intros e Hin. apply in_map_iff in Hin.
        destruct Hin as (ev & <- & Hin).
        rewrite Forall_forall in Hev. destruct (Hev ev Hin) as (c & [-> | ->]);
          reflexivity.
      * destruct (default_kills s); [|destruct (default_dumps s)]; cbn.
        -- exists (trace p), (now p), (Killed s). auto.
        -- exists (trace p), (now p), (Dumped s). auto.
        -- rewrite Hx. apply Forall_app. split; [assumption|]. repeat constructor.
    + cbn. rewrite Hx. exact IH.
    + cbn. rewrite Hx. apply Forall_app. split; [assumption|]. repeat constructor.
    + cbn. rewrite Hx. apply Forall_app. split; [assumption|]. repeat constructor.
    + cbn. rewrite Hx. apply Forall_app. split; [assumption|]. repeat constructor.
    + destruct (request_arrives_frame r p)
        as (_ & _ & _ & _ & _ & _ & _ & E8 & evs & Etr & Hev).
      rewrite E8, Hx, Etr. apply Forall_app. split; [assumption|].
      apply Forall_forall. intros e Hin. apply in_map_iff in Hin.
      destruct Hin as (ev & <- & Hin).
      rewrite Forall_forall in Hev. specialize (Hev ev Hin).
      destruct ev as [g' o | | | | | | | | | |]; try reflexivity; try contradiction.
      cbn in Hev. destruct g'; try contradiction. destruct o; try contradiction.
      reflexivity.
Qed.


Lemma exit_status_cause (body : Go ProcE unit) (acts : list Action)
    (t0 : Time) (stk : string) (st : ExitStatus) :
  exit_status (run acts (start body t0 stk)) = Some st ->
  exists pre t ev,
    trace (run acts (start body t0 stk)) = (pre ++ [(t, ev)])%list /\
    exit_of ev = Some st.
Proof.
  intros Hx. pose proof (exit_invariant body acts t0 stk) as H.
  unfold exit_inv in H. rewrite Hx in H.
  destruct H as (pre & t & ev & Etr & Hex & _). eauto.
Qed.

(* ------------------------------------------------------------------- *)
(** ** The channel of signals                                           *)
(* ------------------------------------------------------------------- *)

Lemma sents_app (a b : list (Time * Event)) : sents (a ++ b) = (sents a ++ sents b)%list.
Proof. unfold sents. apply flat_map_app. Qed.

Lemma sents_harmless (t : Time) (evs : list Event) :
  Forall harmless evs -> sents (map (fun ev => (t, ev)) evs) = [].
Proof.
  induction 1 as [| ev evs Hev _ IH]; [reflexivity|].
  unfold sents in *. cbn [map flat_map snd]. rewrite IH, app_nil_r.
  destruct ev; try reflexivity; contradiction.
Qed.

Lemma chan_of_snoc (h : list (Time * Op)) (x : list (Time * Op)) :
  h <> [] -> chan_of (map snd (h ++ x)) = chan_of (map snd h).
Proof. destruct h; [congruence | reflexivity]. Qed.

Lemma serve_op_kind (t0 : Time) (h : list (Time * Op)) (th : Thread)
    (t : Time) (o : Op) :
  follows t0 (thread (main_func3 main_server)) h th ->
  In (t, o) h -> serve_kind o.
Proof.
  intros Hf Hin. apply In_nth_error in Hin. destruct Hin as [i Hi].
  pose proof (serve_op_at _ _ _ _ _ _ Hf Hi) as Hop.
  apply nth_error_In in Hop. revert Hop.
  unfold serve_script, serve_ops, serve_ops_tail.
  repeat match goal with
    | |- context [if ?b then _ else _] => destruct b
    end; cbn; intuition (subst; exact I).
Qed.

(** Extending the trace by harmless events keeps the channel as it is. *)
Lemma chan_inv_frame (p p' : Proc) (t : Time) (evs : list Event) :
  chan_inv p -> chans p' = chans p -> notify p' = notify p ->
  trace p' = (trace p ++ map (fun ev => (t, ev)) evs)%list ->
  Forall harmless evs ->
  chan_inv p'.
Proof.
  intros (Hk & Hsd & Hc) Ech Eno Etr Hev.
  assert (Hh : hist G_main (trace p') = hist G_main (trace p)).
  { rewrite Etr, hist_app, hist_foreign, app_nil_r; [reflexivity|].
    eapply Forall_impl; [|exact Hev]. intros ev Hh.
    destruct ev as [g o | | | | | | | | | |]; try exact I.
    destruct g; cbn in *; try contradiction; congruence. }
  assert (Hs : sents (trace p') = sents (trace p)).
  { rewrite Etr, sents_app, sents_harmless, app_nil_r; auto. }
  unfold chan_inv. rewrite Hh, Ech, Eno, Hs. split; [|split].
  - destruct Hk as [H | [H | [H | (Hk & b & H1 & H2 & H3 & H4 & pre & t' & s & post & E & H5)]]];
      auto.
    right; right; right. split; [assumption|]. exists b. repeat split; auto.
    exists pre, t', s, (post ++ map (fun ev => (t, ev)) evs)%list.
    split; [|assumption]. rewrite Etr, E, <- app_assoc. reflexivity.
  - intros t' c s Hin. rewrite Etr in Hin.
    assert (Hno : forall e, In e (map (fun ev => (t, ev)) evs) ->
                            forall c s, snd e <> Sent c s /\ snd e <> Dropped c s).
    { intros e He c' s'. apply in_map_iff in He. destruct He as (ev & <- & He).
      rewrite Forall_forall in Hev. specialize (Hev ev He).
      destruct ev; cbn in *; try contradiction; split; congruence. }
    destruct Hin as [Hin | Hin]; apply in_app_or in Hin;
      destruct Hin as [Hin | Hin]; eauto;
      destruct (Hno _ Hin c s) as [N1 N2]; cbn in *; congruence.
  - exact Hc.
Qed.

Lemma existsb_termination (s : Signal) :
  existsb (Z.eqb s) [SIGINT; SIGTERM] = true -> termination_signal s.
Proof.
  cbn. unfold termination_signal.
  destruct (Z.eqb_spec s SIGINT); [auto|].
  destruct (Z.eqb_spec s SIGTERM); [auto|]. discriminate.
Qed.

Lemma chan_invariant (acts : list Action) (t0 : Time) (stk : string) :
  chan_inv (run acts (start main t0 stk)).
Proof.
  induction acts as [| a acts IH] using rev_ind.
  - unfold chan_inv. cbn [run fold_left start trace chans notify].
    change (hist G_main []) with (@nil (Time * Op)). cbn.
    split; [left; auto|]. split; [|lia].
    intros t c s [[] | []].
  - pose proof (main_history main t0 stk (acts ++ [a])) as (Hm' & _ & _).
    pose proof (main_history main t0 stk acts) as (Hm & Ht0 & Htimes).
    pose proof (threads_invariant acts t0 stk) as Hthr.
    rewrite run_snoc in *. set (p := run acts (start main t0 stk)) in *.
    destruct (step_view a p) as
      [E | [(g & th & o & th' & -> & Hx & Hth & Hn & E)
         | [(s & -> & Hx & E) | [(d & -> & Hx & E) | [(srv & -> & Hx & Hs & E)
         | [(msg & -> & Hx & Hs & E) | [(ln & -> & Hx & Hs & E)
         | (r & -> & Hx & E)]]]]]]];
      rewrite E in *; clear E.
    + exact IH.
    + destruct (commit_fields g o th' p)
        as (_ & _ & Etr & _ & Esp & Ech & Eno & _ & _).
      destruct g as [| n |]; cbn [thread_of] in *.
      * (* a step of main *)
        rewrite Etr, hist_app, hist_one in Hm'. cbn [Goroutine_eqb] in Hm'.
        pose proof (main_op_at _ _ _ _ _ _ Hm' (nth_error_snoc _ _)) as Hop.
        pose proof (next_op_facts _ _ _ _ Hn) as Hfacts.
        destruct IH as (Hk & Hsd & Hc).
        assert (Hsd' : forall t c s,
                   In (t, Sent c s) (trace p ++ [(now p, By G_main o)]) \/
                   In (t, Dropped c s) (trace p ++ [(now p, By G_main o)]) ->
                   c = O /\ termination_signal s).
        { intros t c s [Hin | Hin]; apply in_app_or in Hin;
            destruct Hin as [Hin | [Hin | []]]; try discriminate Hin; eauto. }
        unfold chan_inv. rewrite Etr, Ech, Eno, hist_app, hist_one.
        cbn [Goroutine_eqb]. rewrite length_app. cbn [length].
        rewrite sents_app. cbn [sents flat_map snd app]. rewrite app_nil_r.
        split; [|split; [exact Hsd'|]].
        2: { intros _.
             destruct (hist G_main (trace p)) as [| e hm] eqn:Eh.
             - abstract_script Hop.
               cbn in Hop. inversion Hop; subst o. cbn in Hfacts. subst.
               destruct Hk as [(_ & -> & _) | [(K & _) | [(K & _) | (K & _)]]];
                 cbn in *; try lia; try reflexivity.
             - rewrite chan_of_snoc by congruence. apply Hc. cbn. lia. }
        destruct Hk as [(K & Hch & Hno & Hse)
                       | [(K & Hch & Hno & Hse)
                       | [(K & b & Hch & Hno & Hse & Hlen & Hts)
                       | (K & b & Hch & Hno & Hlen & Hts & pre & t & s & post & Et & Hpre & Hs)]]].
        -- (* the channel is made *)
           rewrite K in *. abstract_script Hop. cbn in Hop.
           inversion Hop; subst o. rewrite Hch in *. cbn in Hfacts. subst.
           right; left. rewrite Hno, Hse. auto.
        -- (* the channel is registered *)
           rewrite K in *.
           unfold main_script in Hop. rewrite chan_of_snoc in Hop
             by (destruct (hist G_main (trace p)); [discriminate K | congruence]).
           rewrite Hc in Hop by lia. abstract_script Hop. cbn in Hop.
           inversion Hop; subst o. rewrite Hch, Hno, Hse.
           right; right; left. split; [lia|]. exists []. cbn. repeat split; auto.
        -- (* the goroutine is started, or the channel is read *)
           unfold main_script in Hop. rewrite chan_of_snoc in Hop
             by (destruct (hist G_main (trace p)); [cbn in K; lia | congruence]).
           rewrite Hc in Hop by lia. abstract_script Hop.
           destruct (length (hist G_main (trace p))) as [| [| [| [| k]]]];
             try lia; cbn in Hop; inversion Hop; subst o.
           ++ right; right; left. split; [lia|]. exists b. rewrite Hch, Hno.
              repeat split; auto.
           ++ destruct Hfacts as (n & rest & Hnth). rewrite Hch in Hnth.
              cbn in Hnth. injection Hnth as _ Hb. rewrite Hb in Hch, Hse, Hlen, Hts.
              destruct rest; [|cbn in Hlen; lia].
              right; right; right. split; [lia|]. exists [].
              rewrite Hch, Hno. cbn. repeat split; auto.
              exists (trace p), (now p), s, []. repeat split; auto.
              inversion Hts; assumption.
        -- (* the shutdown sequence *)
           assert (Hq : match o with
                        | Made _ _ | Received _ _ | Notified _ _ => False
                        | _ => True
                        end).
           { abstract_script Hop.
             destruct (length (hist G_main (trace p))) as [| [| [| [| k]]]]; try lia.
             unfold main_ops in Hop.
             do 8 (destruct k as [| k]; [cbn in Hop; inversion Hop; exact I|]).
             match type of Hop with context [match ?r with _ => _ end] =>
               destruct r end; cbn in Hop;
             do 3 (destruct k as [| k]; [cbn in Hop; inversion Hop; exact I|]);
             try discriminate Hop; destruct k; discriminate Hop. }
           right; right; right. split; [lia|]. exists b.
           rewrite Hch, Hno.
           repeat split; try assumption; try (destruct o; try contradiction; reflexivity).
           exists pre, t, s, (post ++ [(now p, By G_main o)])%list.
           rewrite Et, <- app_assoc. auto.
      * (* a step of the goroutine that runs the server *)
        destruct Hthr as [(Hsp & _) | (thb & Hsp & _ & Hb & _)];
          rewrite Hsp in Hth; [destruct n; discriminate Hth|].
        destruct n as [| n]; [|destruct n; discriminate Hth].
        cbn in Hth. inversion Hth; subst th.
        assert (Hb' : follows t0 (thread (main_func3 main_server))
                        (hist (G_go 0) (trace p) ++ [(now p, o)]) th').
        { eapply follows_snoc; eauto using hist_times, next_op_advances. }
        assert (Hkind : serve_kind o).
        { eapply serve_op_kind; [exact Hb'|]. apply in_or_app. right. left. reflexivity. }
        eapply (chan_inv_frame p _ (now p) [By (G_go 0) o]); eauto.
        -- rewrite Ech. destruct o; try contradiction; reflexivity.
        -- rewrite Eno. destruct o; try contradiction; reflexivity.
        -- repeat constructor.
      * discriminate Hth.
    + (* a signal *)
      unfold signal_arrives.
      assert (Hplain : forall ev, harmless ev ->
                forall q, chans q = chans p -> notify q = notify p ->
                          trace q = (trace p ++ [(now p, ev)])%list -> chan_inv q).
      { intros ev Hev q E1 E2 E3.
        eapply (chan_inv_frame p q (now p) [ev]); eauto. }
      destruct IH as (Hk & Hsd & Hc).
      assert (IH : chan_inv p) by (unfold chan_inv; auto).
      unfold registered.
      destruct Hk as [(K & Hch & Hno & Hse)
                     | [(K & Hch & Hno & Hse)
                     | [(K & b & Hch & Hno & Hse & Hlen & Hts)
                     | (K & b & Hch & Hno & Hlen & Hts & pre & t & s' & post & Et & Hpre & Hs)]]];
        rewrite Hno; cbn [existsb snd orb].
      * destruct (default_kills s); [|destruct (default_dumps s)]; eapply Hplain; try reflexivity; exact I.
      * destruct (default_kills s); [|destruct (default_dumps s)]; eapply Hplain; try reflexivity; exact I.
      * rewrite !orb_false_r.
        destruct ((s =? SIGINT) || (s =? SIGTERM))%bool eqn:Ereg.
        2: { destruct (default_kills s); [|destruct (default_dumps s)]; eapply Hplain; try reflexivity; exact I. }
        assert (Ereg' : termination_signal s).
        { apply orb_true_iff in Ereg. unfold termination_signal.
          destruct Ereg as [H | H]; apply Z.eqb_eq in H; auto. }
        clear Ereg. rename Ereg' into Ereg.
        cbn [relay].
        assert (Ee : existsb (Z.eqb s) [SIGINT; SIGTERM] = true).
        { destruct Ereg as [-> | ->]; reflexivity. }
        rewrite Ee, Hch. cbn [nth_error buf cap].
        destruct b as [| x [| y b]]; [| |cbn in Hlen; lia]; cbn [length Nat.ltb Nat.leb].
        -- unfold chan_inv. cbn [trace chans notify emit set_chans map list_set app now].
           rewrite hist_app, hist_one, app_nil_r, sents_app, Hse.
           cbn [sents flat_map snd app].
           split; [|split].
           ++ right; right; left. split; [assumption|]. exists [s].
              repeat split; auto; constructor; auto.
           ++ intros t c s0 [Hin | Hin]; apply in_app_or in Hin;
                destruct Hin as [Hin | [Hin | []]]; try discriminate Hin; eauto.
              inversion Hin; subst. auto.
           ++ exact Hc.
        -- unfold chan_inv. cbn [trace chans notify emit map app now].
           rewrite hist_app, hist_one, app_nil_r, sents_app, Hse.
           change (sents [(now p, Dropped 0%nat s)]) with (@nil Signal).
           cbn [app].
           split; [|split].
           ++ right; right; left. split; [assumption|]. exists [x].
              repeat split; auto.
           ++ intros t c s0 [Hin | Hin]; apply in_app_or in Hin;
                destruct Hin as [Hin | [Hin | []]]; try discriminate Hin; eauto.
              inversion Hin; subst. auto.
           ++ exact Hc.
      * rewrite !orb_false_r.
        destruct ((s =? SIGINT) || (s =? SIGTERM))%bool eqn:Ereg.
        2: { destruct (default_kills s); [|destruct (default_dumps s)]; eapply Hplain; try reflexivity; exact I. }
        assert (Ereg' : termination_signal s).
        { apply orb_true_iff in Ereg. unfold termination_signal.
          destruct Ereg as [H | H]; apply Z.eqb_eq in H; auto. }
        clear Ereg. rename Ereg' into Ereg.
        cbn [relay].
        assert (Ee : existsb (Z.eqb s) [SIGINT; SIGTERM] = true).
        { destruct Ereg as [-> | ->]; reflexivity. }
        rewrite Ee, Hch. cbn [nth_error buf cap].
        destruct b as [| x [| y b]]; [| |cbn in Hlen; lia]; cbn [length Nat.ltb Nat.leb].
        -- unfold chan_inv. cbn [trace chans notify emit set_chans map list_set app now].
           rewrite hist_app, hist_one, app_nil_r.
           split; [|split].
           ++ right; right; right. split; [assumption|]. exists [s].
              repeat split; auto; try (constructor; auto).
              exists pre, t, s', (post ++ [(now p, Sent O s)])%list.
              rewrite Et, <- app_assoc. auto.
           ++ intros t1 c s0 [Hin | Hin]; apply in_app_or in Hin;
                destruct Hin as [Hin | [Hin | []]]; try discriminate Hin; eauto.
              inversion Hin; subst. auto.
           ++ exact Hc.
        -- unfold chan_inv. cbn [trace chans notify emit map app now].
           rewrite hist_app, hist_one, app_nil_r.
           split; [|split].
           ++ right; right; right. split; [assumption|]. exists [x].
              repeat split; auto.
              exists pre, t, s', (post ++ [(now p, Dropped O s)])%list.
              rewrite Et, <- app_assoc. auto.
           ++ intros t1 c s0 [Hin | Hin]; apply in_app_or in Hin;
                destruct Hin as [Hin | [Hin | []]]; try discriminate Hin; eauto.
              inversion Hin; subst. auto.
           ++ exact Hc.
    + eapply (chan_inv_frame p _ (now p) []); eauto. cbn. now rewrite app_nil_r.
    + eapply (chan_inv_frame p _ (now p) [Bound]); eauto. repeat constructor.
    + eapply (chan_inv_frame p _ (now p) [Listener_failed msg]); eauto.
      repeat constructor.
    + eapply (chan_inv_frame p _ (now p) [Drained ln]); eauto. repeat constructor.
    + destruct (request_arrives_frame r p)
        as (_ & E2 & E3 & _ & _ & _ & _ & _ & evs & Etr & Hev).
      eapply (chan_inv_frame p _ (now p) evs); eauto.
      eapply Forall_impl; [|exact Hev]. intros ev Hreq.
      destruct ev as [g' o | | | | | | | | | |]; try exact I; try contradiction.
      destruct g'; try contradiction. exact I.
Qed.

(* ------------------------------------------------------------------- *)
(** ** The goroutine after its steps                                    *)
(* ------------------------------------------------------------------- *)

Lemma advances_after (t : Time) (th : Thread) (o : Op) (th' : Thread) :
  advances t th o th' -> th' = after th o.
Proof.
  unfold advances, after. destruct th as [c w]. cbn [code pending].
  destruct w; try contradiction;
    (destruct c as [[] | v | k | X e k]; [| | |destruct e]); intros H;
    split_adv; subst; try reflexivity; try discriminate.
Qed.

Lemma follows_after (t0 : Time) (th : Thread) (h : list (Time * Op)) (th' : Thread) :
  follows t0 th h th' -> th' = fold_left after (map snd h) th.
Proof.
  revert t0 th. induction h as [| [t o] h IH]; intros t0 th H; cbn in *.
  - assumption.
  - destruct H as (_ & th1 & Hadv & Hf).
    apply advances_after in Hadv. subst th1. eauto.
Qed.

(* ------------------------------------------------------------------- *)
(** ** The server                                                       *)
(* ------------------------------------------------------------------- *)

Lemma main_op_kind (t0 : Time) (h : list (Time * Op)) (th : Thread)
    (t : Time) (o : Op) :
  follows t0 (thread main) h th ->
  In (t, o) h -> main_kind o.
Proof.
  intros Hf Hin. apply In_nth_error in Hin. destruct Hin as [i Hi].
  pose proof (main_op_at _ _ _ _ _ _ Hf Hi) as Hop.
  apply nth_error_In in Hop. revert Hop.
  unfold main_script, main_ops.
  destruct (result_of (map snd h)); cbn; intuition (subst; try exact I; reflexivity).
Qed.

Lemma server_inv_frame (p p' : Proc) (evs : list (Time * Event)) :
  server_inv p -> server p' = server p ->
  hist (G_go 0) (trace p') = hist (G_go 0) (trace p) ->
  trace p' = (trace p ++ evs)%list ->
  server_inv p'.
Proof.
  intros (H1 & H2 & H3 & H4) Es Eh Et.
  unfold server_inv. rewrite Es, Eh, Et. split; [|split; [|split]].
  - exact H1.
  - intros msg Hm. destruct (H2 msg Hm) as [t Hin]. exists t.
    apply in_or_app; auto.
  - intros t err Hin.
    destruct (H3 t err Hin) as [(-> & t' & ctx & Hc) | (msg & t' & -> & Hf)];
      [left | right]; eauto 8 using in_or_app.
  - intros Hs. destruct (H4 Hs) as (t & ctx & Hin). eauto using in_or_app.
Qed.

(** While the socket is being opened or is open, the goroutine that runs
    the server cannot take a step. *)
Lemma serve_waits (t0 : Time) (h : list (Time * Op)) (th : Thread) (p : Proc) :
  follows t0 (thread (main_func3 main_server)) h th ->
  map snd h = serve_called ->
  (exists srv, server p = Srv_binding srv \/ server p = Srv_serving srv) ->
  next_op th p = None.
Proof.
  intros Hf Hh (srv & Hs). apply follows_after in Hf. rewrite Hh in Hf.
  subst th. cbn. destruct Hs as [-> | ->]; reflexivity.
Qed.

Lemma server_invariant (acts : list Action) (t0 : Time) (stk : string) :
  server_inv (run acts (start main t0 stk)).
Proof.
  induction acts as [| a acts IH] using rev_ind.
  - unfold server_inv. cbn [run fold_left start trace server].
    change (hist (G_go 0) []) with (@nil (Time * Op)).
    split; [|split; [|split]].
    + intros srv [H | H]; discriminate H.
    + intros msg H; discriminate H.
    + intros t err [].
    + intros [H | [l H]]; discriminate H.
  - pose proof (main_history main t0 stk (acts ++ [a])) as (Hm' & _ & _).
    pose proof (threads_invariant acts t0 stk) as Hthr.
    pose proof (main_history main t0 stk acts) as (_ & Ht0 & Htimes).
    rewrite run_snoc in *. set (p := run acts (start main t0 stk)) in *.
    destruct (step_view a p) as
      [E | [(g & th & o & th' & -> & Hx & Hth & Hn & E)
         | [(s & -> & Hx & E) | [(d & -> & Hx & E) | [(srv & -> & Hx & Hs & E)
         | [(msg & -> & Hx & Hs & E) | [(ln & -> & Hx & Hs & E)
         | (r & -> & Hx & E)]]]]]]];
      rewrite E in *; clear E.
    + exact IH.
    + destruct (commit_fields g o th' p)
        as (_ & _ & Etr & _ & Esp & _ & _ & Esv & _).
      destruct IH as (H1 & H2 & H3 & H4).
      destruct g as [| n |]; cbn [thread_of] in *.
      * (* a step of main *)
        assert (Hk : main_kind o).
        { eapply main_op_kind; [exact Hm'|]. rewrite Etr, hist_app, hist_one.
          cbn [Goroutine_eqb]. apply in_or_app. right. left. reflexivity. }
        assert (Hh : hist (G_go 0) (trace (commit G_main o (set_thread G_main th' p)))
                     = hist (G_go 0) (trace p)).
        { rewrite Etr, hist_app, hist_one. cbn [Goroutine_eqb]. apply app_nil_r. }
        unfold server_inv. rewrite Hh, Esv, Etr.
        split; [|split; [|split]].
        -- intros srv Hs. apply H1.
           destruct o; try contradiction; try exact Hs.
           destruct (server p); destruct Hs; discriminate.
        -- intros msg Hs.
           assert (Hs' : server p = Srv_failed msg).
           { destruct o; try contradiction; try exact Hs.
             destruct (server p); discriminate. }
           destruct (H2 msg Hs') as [t Hin]. eauto using in_or_app.
        -- intros t err Hin.
           destruct (H3 t err Hin) as [(-> & t' & ctx & Hc) | (msg & t' & -> & Hf)];
             [left | right]; eauto 8 using in_or_app.
        -- intros Hs.
           destruct o; try contradiction;
             try (destruct (H4 Hs) as (t & ctx' & Hin); eauto using in_or_app).
           exists (now p), ctx. apply in_or_app. right. left. reflexivity.
      * (* a step of the goroutine that runs the server *)
        destruct Hthr as [(Hsp & _) | (thb & Hsp & _ & Hb & _)];
          rewrite Hsp in Hth; [destruct n; discriminate Hth|].
        destruct n as [| n]; [|destruct n; discriminate Hth].
        cbn in Hth. inversion Hth; subst th.
        assert (Hblock : forall srv,
                   server p = Srv_binding srv \/ server p = Srv_serving srv -> False).
        { intros srv Hs. destruct (H1 srv Hs) as [_ Hh].
          rewrite (serve_waits _ _ _ p Hb Hh) in Hn by eauto. discriminate Hn. }
        assert (Hb' : follows t0 (thread (main_func3 main_server))
                        (hist (G_go 0) (trace p) ++ [(now p, o)]) th').
        { eapply follows_snoc; eauto using hist_times, next_op_advances. }
        assert (Hkind : serve_kind o).
        { eapply serve_op_kind; [exact Hb'|]. apply in_or_app. right. left. reflexivity. }
        pose proof (next_op_facts _ _ _ _ Hn) as Hfacts.
        pose proof (serve_trail _ _ _ Hb') as Hpre.
        pose proof (serve_op_at _ _ _ _ _ _ Hb' (nth_error_snoc _ _)) as Hop.
        unfold server_inv. rewrite Esv, Etr, hist_app, hist_one.
        cbn [Goroutine_eqb Nat.eqb].
        split; [|split; [|split]].
        -- intros srv Hs.
           destruct o; try contradiction; try (elim (Hblock srv Hs)).
           assert (srv0 = srv) by (destruct Hs as [Hs | Hs]; congruence).
           subst srv0. clear Hs.
           rewrite map_app in *. cbn [map snd] in *.
           abstract_script Hop. abstract_script Hpre.
           destruct (hist (G_go 0) (trace p)) as [| [t1 o1] [| [t2 o2] h]];
             cbn in Hop, Hpre.
           ++ discriminate Hop.
           ++ destruct Hpre as [rest Hpre]. unfold serve_ops in *.
              destruct b; cbn in Hop, Hpre; inversion Hop; inversion Hpre; subst.
              split; reflexivity.
           ++ exfalso. unfold serve_ops, serve_ops_tail in Hop.
              destruct b; destruct (error_eqb e ErrServerClosed);
                repeat (destruct h as [| ? h]; cbn in Hop; try discriminate Hop).
        -- intros msg Hs.
           assert (Hs' : server p = Srv_failed msg)
             by (destruct o; try contradiction; try exact Hs; discriminate Hs).
           destruct (H2 msg Hs') as [t Hin]. eauto using in_or_app.
        -- intros t err Hin. apply in_app_or in Hin.
           destruct Hin as [Hin | [Hin | []]].
           ++ destruct (H3 t err Hin) as [(-> & t' & ctx & Hc) | (msg & t' & -> & Hf)];
                [left | right]; eauto 8 using in_or_app.
           ++ inversion Hin; subst. cbn in Hfacts.
              destruct Hfacts as [(-> & Hs) | [(msg & -> & Hs & _) | (_ & _ & srv & Hs)]].
              ** left. split; [reflexivity|].
                 destruct (H4 Hs) as (t' & ctx & Hc). eauto using in_or_app.
              ** right. destruct (H2 msg Hs) as [t' Hf]. eauto 8 using in_or_app.
              ** elim (Hblock srv Hs).
        -- intros Hs.
           assert (Hs' : server p = Srv_closing \/ exists l, server p = Srv_drained l).
           { destruct o; try contradiction; try exact Hs.
             destruct Hs as [Hs | [l Hs]]; discriminate Hs. }
           destruct (H4 Hs') as (t & ctx & Hin). eauto using in_or_app.
      * discriminate Hth.
    + (* a signal *)
      unfold signal_arrives. destruct (registered s p).
      * destruct (relay_frame s (notify p) p)
          as (_ & _ & E3 & _ & _ & _ & _ & evs & Etr & Hev).
        eapply server_inv_frame; eauto.
        rewrite Etr, hist_app, hist_foreign, app_nil_r; [reflexivity|].
        eapply Forall_impl; [|exact Hev]. intros ev (c & [-> | ->]); exact I.
      * destruct (default_kills s); [|destruct (default_dumps s)];
          eapply (server_inv_frame p); eauto; try reflexivity;
          cbn [trace emit set_exit]; rewrite hist_app; cbn; now rewrite app_nil_r.
    + eapply (server_inv_frame p _ []); eauto. cbn. now rewrite app_nil_r.
    + (* the socket opens *)
      destruct IH as (H1 & H2 & H3 & H4).
      unfold server_inv. cbn [server trace emit set_server map].
      rewrite hist_app, hist_one, app_nil_r.
      split; [|split; [|split]].
      * intros srv' [H | H]; [discriminate H|]. inversion H; subst srv'.
        apply H1. left. exact Hs.
      * intros msg H; discriminate H.
      * intros t err Hin.
        destruct (H3 t err Hin) as [(-> & t' & ctx & Hc) | (msg & t' & -> & Hf)];
          [left | right]; eauto 8 using in_or_app.
      * intros [H | [l H]]; discriminate H.
    + (* the socket fails *)
      destruct IH as (H1 & H2 & H3 & H4).
      unfold server_inv. cbn [server trace emit set_server map].
      rewrite hist_app, hist_one, app_nil_r.
      split; [|split; [|split]].
      * intros srv' [H | H]; discriminate H.
      * intros msg' H. inversion H; subst msg'. exists (now p).
        apply in_or_app. right. left. reflexivity.
      * intros t err Hin.
        destruct (H3 t err Hin) as [(-> & t' & ctx & Hc) | (msg' & t' & -> & Hf)];
          [left | right]; eauto 8 using in_or_app.
      * intros [H | [l H]]; discriminate H.
    + (* the connections are closed *)
      destruct IH as (H1 & H2 & H3 & H4).
      unfold server_inv. cbn [server trace emit set_server map].
      rewrite hist_app, hist_one, app_nil_r.
      split; [|split; [|split]].
      * intros srv' [H | H]; discriminate H.
      * intros msg' H. discriminate H.
      * intros t err Hin.
        destruct (H3 t err Hin) as [(-> & t' & ctx & Hc) | (msg' & t' & -> & Hf)];
          [left | right]; eauto 8 using in_or_app.
      * intros _. destruct H4 as (t & ctx & Hin); [left; exact Hs|].
        eauto using in_or_app.
    + destruct (request_arrives_frame r p)
        as (_ & _ & _ & E3 & _ & _ & _ & _ & evs & Etr & Hev).
      eapply server_inv_frame; eauto.
      rewrite Etr, hist_app, hist_foreign, app_nil_r; [reflexivity|].
      eapply Forall_impl; [|exact Hev]. intros ev Hreq.
      destruct ev as [g' o | | | | | | | | | |]; try exact I.
      cbn in *. destruct g'; try contradiction. congruence.
Qed.

Lemma mux_handler_cases (path : string) :
  mux_handler main_mux path = main_func1 \/
  mux_handler main_mux path = main_func2 \/
  mux_handler main_mux path = NotFoundHandler.
Proof.
  unfold mux_handler, mux_match, mux_m, main_mux.
  cbn [find pattern longest_match h].
  repeat match goal with
    | |- context [if ?b then _ else _] => destruct b; cbn [h andb]
    end; auto.
Qed.

Lemma ServeMux_Handler_cases (r : Request) :
  ServeMux_Handler main_mux r = main_func1 \/
  ServeMux_Handler main_mux r = main_func2 \/
  ServeMux_Handler main_mux r = NotFoundHandler \/
  exists target, ServeMux_Handler main_mux r = RedirectHandler target StatusMovedPermanently.
Proof.
  unfold ServeMux_Handler.
  repeat match goal with
    | |- context [if ?b then _ else _] => destruct b
    end; cbv zeta;
  repeat match goal with
    | |- context [if ?b then _ else _] => destruct b
    end; eauto;
  match goal with
  | |- context [mux_handler main_mux ?p] =>
      destruct (mux_handler_cases p) as [-> | [-> | ->]]; auto
  end.
Qed.

(** What a request leaves in the log: nothing, or the entry of the panic
    of the handler of ["/panic"]. *)
Lemma serve_logs (r : Request) (s : HState) :
  exists s',
    serve main_handler r s = (Returned tt, s') /\
    stacks s' = stacks s /\
    (logged s' = logged s \/
     logged s' = (logged s ++
                  [panic_entry "PANIC RECOVERED: " (AString "Something went wrong!")
                     (stacks s)])%list).
Proof.
  destruct (String.eqb_spec (RequestURI r) "*") as [Hstar | Hstar].
  - unfold serve, serverHandler_ServeHTTP, HandlerFunc, ServeHTTP.
    apply String.eqb_eq in Hstar. rewrite Hstar. cbn [andb].
    destruct (Method r =? "OPTIONS")%string.
    + unfold globalOptionsHandler, HandlerFunc, call, newResponse, with_resp.
      cbn. eexists. split; [reflexivity|]. cbn. auto.
    + unfold main_handler. rewrite exec_recoveryMiddleware.
      unfold ServeMux_ServeHTTP, HandlerFunc, ServeHTTP. rewrite Hstar.
      unfold ResponseWriter_WriteHeader, call, newResponse, with_resp.
      destruct (ProtoAtLeast r 1 1); cbn;
        (eexists; split; [reflexivity|]); cbn; auto.
  - rewrite serve_dispatch by assumption.
    unfold main_handler. rewrite exec_recoveryMiddleware.
    unfold ServeMux_ServeHTTP, HandlerFunc, ServeHTTP.
    apply String.eqb_neq in Hstar. rewrite Hstar.
    destruct (ServeMux_Handler_cases r) as [-> | [-> | [-> | [target ->]]]].
    + unfold main_func1, HandlerFunc, fmt_Fprintln, call, newResponse, with_resp.
      cbn [exec perform resp logged stacks].
      eexists. split; [reflexivity|]. cbn. auto.
    + unfold main_func2, HandlerFunc, panic, newResponse, with_resp.
      cbn [exec resp logged stacks fmt_v].
      unfold http_Error, ResponseWriter_WriteHeader, fmt_Fprintln, call, panic.
      cbn [bind exec perform resp logged stacks with_resp header set_header
           wroteHeader status body toHEAD do_WriteHeader].
      eexists. split; [reflexivity|]. cbn. auto.
    + unfold NotFoundHandler, HandlerFunc, http_Error, ResponseWriter_WriteHeader,
        fmt_Fprintln, call, panic, newResponse, with_resp.
      cbn [bind exec perform resp logged stacks with_resp header set_header
           wroteHeader status body toHEAD do_WriteHeader].
      eexists. split; [reflexivity|]. cbn. auto.
    + destruct (exec_RedirectHandler target r s) as (rs & -> & _).
      eexists. split; [reflexivity|]. cbn. auto.
Qed.

Lemma main_until_drain (t0 : Time) (h : list (Time * Op)) (th : Thread)
    (t : Time) (ctx : Context) :
  follows t0 (thread main) h th ->
  In (t, Shutdown_called ctx) h ->
  exists c s t1 t2 t3 tr tl tc t6 tb te t9,
    firstn 11 h =
      [ (t1, Made c 1); (t2, Notified c [SIGINT; SIGTERM]);
        (t3, Spawned (main_func3 main_server));
        (tr, Received c s);
        (tl, Logged (line "Shutdown signal received. Cleaning up..."));
        (tc, Deadline_set ctx);
        (t6, Logged (line "Cleaning up resources (DB, caches, etc.)..."));
        (tb, Sleep_begun (tb + 2 * Second)); (te, Sleep_done);
        (t9, Logged (line "Cleanup complete. Server shutting down."));
        (t, Shutdown_called ctx) ] /\
    deadline ctx = tc + 5 * Second /\
    tr <= tl <= tc /\ tc <= t6 <= tb /\ tb + 2 * Second <= te /\ te <= t9 <= t.
Proof.
  intros H Hin. unfold main in H. rewrite main_with_unfold in H.
  walk_all H ltac:(
    in_cases;
    (cbn [firstn]; do 12 eexists; (split; [reflexivity|]); cbn [deadline]; unfold Second in *; lia)).
Qed.

Lemma prefix_firstn {A} (l full : list A) :
  prefix_of l full -> l = firstn (length l) full.
Proof.
  intros [rest <-]. rewrite firstn_app, Nat.sub_diag, firstn_all. cbn.
  now rewrite app_nil_r.
Qed.

(** A step of [main] in the process. *)
Lemma main_step (p : Proc) :
  exit_status p = None ->
  step (Runs G_main) p =
  match next_op (main_thread p) p with
  | Some (o, th') => commit G_main o (set_main th' p)
  | None => p
  end.
Proof. intros Hx. unfold step, run_goroutine. rewrite Hx. reflexivity. Qed.

(** [main] after its call of [Shutdown]: it waits until the connections
    are closed or the deadline of its token has passed. *)
Lemma main_at_drain (t0 : Time) (h : list (Time * Op)) (t : Time) (ctx : Context)
    (th : Thread) (p : Proc) :
  follows t0 (thread main) (h ++ [(t, Shutdown_called ctx)]) th ->
  exists th',
  next_op th p =
    match server p with
    | Srv_drained l => Some (Shutdown_returned (option_map errors_New l), th' (option_map errors_New l))
    | _ => if deadline ctx <=? now p
           then Some (Shutdown_returned (Some DeadlineExceeded), th' (Some DeadlineExceeded))
           else None
    end.
Proof.
  intros Hf.
  pose proof (main_op_at _ _ _ _ _ _ Hf (nth_error_snoc _ _)) as Hop.
  pose proof (main_trail _ _ _ Hf) as [Hpre _].
  apply prefix_firstn in Hpre. apply follows_after in Hf.
  rewrite Hpre in Hf. clear Hpre. rewrite length_map, length_app in Hf.
  cbn [length] in Hf. rewrite Nat.add_1_r in Hf.
  revert Hf. abstract_script Hop.
  unfold main_ops in *.
  set (n := length h) in *. clearbody n.
  do 10 (destruct n as [| n]; [discriminate Hop|]).
  destruct n as [| n].
  2: { exfalso. destruct o; cbn in Hop;
       repeat (destruct n as [| n]; cbn in Hop; try discriminate Hop). }
  cbn in Hop. inversion Hop; subst c. clear Hop.
  cbn [firstn app] in Hf. unfold main in Hf. rewrite main_with_unfold in Hf.
  cbn in Hf.
  exists (fun res => after th (Shutdown_returned res)). subst th.
  unfold next_op, after. cbn [code pending].
  destruct (server p); try reflexivity;
    destruct (deadline ctx <=? now p); reflexivity.
Qed.


Lemma hist_In (g : Goroutine) (tr : list (Time * Event)) (t : Time) (o : Op) :
  In (t, o) (hist g tr) <-> In (t, By g o) tr.
Proof.
  unfold hist. rewrite in_flat_map. split.
  - intros ([t' ev] & Hin & Hev). cbn in Hev.
    destruct ev as [g' o' | | | | | | | | | |]; try contradiction.
    destruct (Goroutine_eqb g g') eqn:E; [|contradiction].
    apply Goroutine_eqb_eq in E. subst g'.
    destruct Hev as [Hev | []]. inversion Hev; subst. exact Hin.
  - intros Hin. exists (t, By g o). split; [exact Hin|].
    cbn. rewrite Goroutine_eqb_refl. left. reflexivity.
Qed.

(** All that a step of [main] changes, when it can take one. *)
Lemma main_step_fields (p : Proc) (o : Op) (th' : Thread) :
  exit_status p = None ->
  next_op (main_thread p) p = Some (o, th') ->
  let q := step (Runs G_main) p in
  trace q = (trace p ++ [(now p, By G_main o)])%list /\
  now q = now p /\ main_thread q = th' /\
  exit_status q = exit_of (By G_main o).
Proof.
  intros Hx Hn q. unfold q. rewrite main_step by assumption. rewrite Hn.
  destruct (commit_fields G_main o th' p) as (E1 & _ & E2 & E3 & _ & _ & _ & _ & E4).
  cbn [set_thread] in *. rewrite E1, E2, E3, E4.
  repeat split. destruct o; cbn; auto.
Qed.

Lemma step_exited (a : Action) (p : Proc) (st : ExitStatus) :
  exit_status p = Some st -> step a p = p.
Proof. intros H. unfold step. now rewrite H. Qed.

(** One step of [main] from a state where its code is known. *)
Ltac main_go p Hx Hth :=
  let Hn := fresh "Hn" in
  eassert (Hn : next_op (main_thread p) p = Some _)
    by (rewrite Hth; unfold next_op; cbn [code pending thread]; reflexivity);
  destruct (main_step_fields p _ _ Hx Hn) as (?Tr & ?Now & ?Th & ?Ex);
  cbn [exit_of] in *.





(* ------------------------------------------------------------------- *)
(** ** The entries of the log                                           *)
(* ------------------------------------------------------------------- *)






(** The signal that [main] receives is its fourth step. *)
Lemma received_at (t0 : Time) (h : list (Time * Op)) (th : Thread)
    (t : Time) (c : chan) (s : Signal) :
  follows t0 (thread main) h th ->
  In (t, Received c s) h ->
  nth_error h 3 = Some (t, Received c s).
Proof.
  intros Hf Hin. destruct (In_nth_error _ _ Hin) as [i Hi].
  pose proof (main_op_at _ _ _ _ _ _ Hf Hi) as Hop.
  abstract_script Hop. unfold main_ops in Hop.
  do 3 (destruct i as [| i]; [discriminate Hop|]).
  destruct i as [| i]; [exact Hi|]. exfalso.
  do 8 (destruct i as [| i]; [discriminate Hop|]).
  match type of Hop with context [match ?r with _ => _ end] => destruct r end;
    cbn in Hop; repeat (destruct i as [| i]; cbn in Hop; try discriminate Hop).
Qed.

(** The signal that [main] has received is a termination signal. *)
Lemma main_received (acts : list Action) (t0 : Time) (stk : string)
    (t : Time) (c : chan) (s : Signal) :
  In (t, Received c s) (hist G_main (trace (run acts (start main t0 stk)))) ->
  c = O /\ termination_signal s.
Proof.
  intros Hin. set (p := run acts (start main t0 stk)) in *.
  pose proof (main_history main t0 stk acts) as (Hf & _ & _). fold p in Hf.
  pose proof (received_at _ _ _ _ _ _ Hf Hin) as H3.
  destruct (chan_invariant acts t0 stk) as (Hk & _ & _). fold p in Hk.
  assert (Hlen : (3 < length (hist G_main (trace p)))%nat)
    by (apply nth_error_Some; congruence).
  destruct Hk as [(K & _) | [(K & _) | [(K & _) | (_ & b & _ & _ & _ & _ & pre & t' & s' & post & Et & _ & Hs)]]];
    try lia.
  assert (Hin' : In (t', Received O s') (hist G_main (trace p))).
  { apply hist_In. rewrite Et. apply in_or_app. right. left. reflexivity. }
  pose proof (received_at _ _ _ _ _ _ Hf Hin') as H3'.
  rewrite H3 in H3'. inversion H3'; subst. auto.
Qed.

(* ------------------------------------------------------------------- *)
(** ** The end of the goroutine that runs the server                    *)
(* ------------------------------------------------------------------- *)







(* ------------------------------------------------------------------- *)
(** ** The receipt of the signal                                        *)
(* ------------------------------------------------------------------- *)

(** [main] receives at its fourth step and at no other. *)
Lemma received_index (t0 : Time) (h : list (Time * Op)) (th : Thread)
    (i : nat) (t : Time) (c : chan) (s : Signal) :
  follows t0 (thread main) h th ->
  nth_error h i = Some (t, Received c s) -> i = 3%nat.
Proof.
  intros Hf Hi.
  pose proof (main_op_at _ _ _ _ _ _ Hf Hi) as Hop.
  abstract_script Hop. unfold main_ops in Hop.
  do 3 (destruct i as [| i]; [discriminate Hop|]).
  destruct i as [| i]; [reflexivity|]. exfalso.
  do 8 (destruct i as [| i]; [discriminate Hop|]).
  match type of Hop with context [match ?r with _ => _ end] => destruct r end;
    cbn in Hop; repeat (destruct i as [| i]; cbn in Hop; try discriminate Hop).
Qed.

(** The first three steps of [main] and no other are the channel, the
    registration and the goroutine. *)
Lemma setup_index (t0 : Time) (h : list (Time * Op)) (th : Thread)
    (i : nat) (t : Time) (o : Op) :
  follows t0 (thread main) h th ->
  nth_error h i = Some (t, o) ->
  match o with
  | Made _ _ | Notified _ _ | Spawned _ => (i < 3)%nat
  | Received _ _ => i = 3%nat
  | _ => (3 < i)%nat
  end.
Proof.
  intros Hf Hi.
  pose proof (main_op_at _ _ _ _ _ _ Hf Hi) as Hop.
  abstract_script Hop. unfold main_ops in Hop.
  do 12 (destruct i as [| i]; [inversion Hop; lia|]).
  match type of Hop with context [match ?r with _ => _ end] => destruct r end;
    cbn in Hop;
    do 3 (destruct i as [| i]; cbn in Hop; [inversion Hop; lia|]);
    destruct i; discriminate Hop.
Qed.

(** [main] when it waits for the signal. *)
Lemma main_at_receive (t0 : Time) (h : list (Time * Op)) (th : Thread) :
  follows t0 (thread main) h th ->
  length h = 3%nat -> chan_of (map snd h) = O ->
  th = thread (Vis (chan_recv O) (fun _ => from_signal cleanup)).
Proof.
  intros Hf Hlen Hc.
  destruct (main_trail _ _ _ Hf) as [Hpre _].
  apply prefix_firstn in Hpre. rewrite length_map, Hlen in Hpre.
  apply follows_after in Hf. rewrite Hpre in Hf.
  unfold main_script in Hf. rewrite Hc in Hf.
  unfold main in Hf. rewrite main_with_unfold in Hf. exact Hf.
Qed.

(** A termination signal that arrives while [main] waits for one makes
    [main] go on: it receives the signal (or the one that arrived before
    and is still in the channel) and logs that it shuts down. *)
Lemma signal_triggers (acts : list Action) (t0 : Time) (stk : string) (s : Signal) :
  let p := run acts (start main t0 stk) in
  let h := hist G_main (trace p) in
  termination_signal s -> exit_status p = None -> length h = 3%nat ->
  let p' := run [Signal_arrives s; Runs G_main; Runs G_main] p in
  exists s',
    termination_signal s' /\
    (sents (trace p) = [] -> s' = s) /\
    map snd (hist G_main (trace p')) =
      (map snd h ++ [ Received O s';
                      Logged (line "Shutdown signal received. Cleaning up...") ])%list /\
    exit_status p' = None.
Proof.
  intros p h Hs Hx Hlen p'.
  pose proof (main_history main t0 stk acts) as (Hf & _ & _). fold p h in Hf.
  destruct (chan_invariant acts t0 stk) as (Hk & _ & Hc). fold p h in Hk, Hc.
  destruct Hk as [(K & _) | [(K & _) | [(_ & b & Hch & Hno & Hse & Hb & Hts) | (K & _)]]];
    try lia.
  pose proof (main_at_receive _ _ _ Hf Hlen (Hc ltac:(lia))) as Hth.
  assert (Hreg : existsb (Z.eqb s) [SIGINT; SIGTERM] = true)
    by (destruct Hs as [-> | ->]; reflexivity).
  assert (E1 : exists ev b',
             step (Signal_arrives s) p = emit [ev] (set_chans [{| cap := 1; buf := b' |}] p) /\
             (ev = Sent O s \/ ev = Dropped O s) /\
             ((b = [] /\ b' = [s]) \/ (b <> [] /\ b' = b))).
  { assert (Hreg' : registered s p = true)
      by (unfold registered; rewrite Hno; destruct Hs as [-> | ->]; reflexivity).
    unfold step. rewrite Hx. unfold signal_arrives. rewrite Hreg', Hno.
    cbn [relay]. rewrite Hreg, Hch.
    cbn [nth_error buf cap].
    destruct b as [| x [| y b]]; [| |cbn in Hb; lia]; cbn [length Nat.ltb Nat.leb].
    - exists (Sent O s), [s]. cbn. auto.
    - exists (Dropped O s), [x]. split; [|split; [auto | right; split; [discriminate | reflexivity]]].
      unfold emit, set_chans. cbn. rewrite Hch. reflexivity. }
  destruct E1 as (ev & b' & E1 & Hev & Hb').
  unfold p', run. cbn [fold_left]. rewrite E1.
  set (p1 := emit [ev] (set_chans [{| cap := 1; buf := b' |}] p)) in *.
  assert (Hx1 : exit_status p1 = None) by exact Hx.
  assert (Hth1 : main_thread p1 = thread (Vis (chan_recv O) (fun _ => from_signal cleanup)))
    by exact Hth.
  assert (Hne : exists s' rest, b' = s' :: rest /\ termination_signal s' /\ (b = [] -> s' = s)).
  { destruct Hb' as [[-> ->] | [Hne ->]]; [exists s, []; auto|].
    destruct b as [| x rest]; [congruence|]. exists x, rest.
    inversion Hts; subst. repeat split; auto. discriminate. }
  destruct Hne as (s' & rest & -> & Hs' & Hfirst).
  assert (Hn : next_op (main_thread p1) p1 =
               Some (Received O s', thread (from_signal cleanup)))
    by (rewrite Hth1; reflexivity).
  destruct (main_step_fields p1 _ _ Hx1 Hn) as (Tr & Now & Th & Ex).
  cbn [exit_of] in Ex.
  set (p2 := step (Runs G_main) p1) in *.
  unfold from_signal in Th. cbn in Th. main_go p2 Ex Th.
  exists s'. split; [exact Hs'|]. split; [rewrite Hse; exact Hfirst|].
  split; [|exact Ex0].
  rewrite Tr0, Tr, !hist_app, !hist_one. cbn [Goroutine_eqb].
  unfold p1. cbn [trace emit set_chans map]. rewrite hist_app, hist_one.
  fold h. destruct Hev as [-> | ->]; rewrite !map_app, app_nil_r, <- app_assoc;
    reflexivity.
Qed.

(* ------------------------------------------------------------------- *)
(** ** A panic of [cleanup]                                             *)
(* ------------------------------------------------------------------- *)








(* =================================================================== *)
(** * Part 7: the requests that the process serves                      *)
(* =================================================================== *)

(** A request that reaches the process while its socket is open is run
    through the handler of [main] and answered. *)
Lemma request_step (acts : list Action) (t0 : Time) (stk : string) (r : Request) :
  let p := run acts (start main t0 stk) in
  exit_status p = None ->
  (exists srv, server p = Srv_serving srv) ->
  exists s',
    serve main_handler r
      {| resp := newResponse r; logged := []; stacks := stacks_text p |} = (Returned tt, s') /\
    step (Request_arrives r) p =
      emit (map (fun text => By G_conn (Logged text)) (logged s') ++ [Served r (resp s')]) p.
Proof.
  intros p Hx [srv Hs].
  destruct (server_invariant acts t0 stk) as (H1 & _).
  destruct (H1 srv (or_intror Hs)) as [-> _].
  destruct (serve_logs r {| resp := newResponse r; logged := []; stacks := stacks_text p |})
    as (s' & Hrun & _).
  exists s'. split; [exact Hrun|].
  unfold step. fold p. rewrite Hx. unfold request_arrives. rewrite Hs.
  cbn [Server_Handler main_server]. rewrite Hrun. reflexivity.
Qed.

(** C9.  In every state that the process of [main] reaches in which it
    runs and its socket is open, a request [GET /] (whose target is not
    the asterisk form) is answered once, with status 200 and the body
    ["Hello, World!"] and a newline; the handler logs nothing. *)
Theorem root_route_says_hello
    (acts : list Action) (t0 : Time) (stk : string) (r : Request) :
  let p := run acts (start main t0 stk) in
  exit_status p = None ->
  (exists srv, server p = Srv_serving srv) ->
  Method r = "GET" -> URL_Path r = "/" -> RequestURI r <> "*" ->
  exists rs,
    step (Request_arrives r) p = emit [Served r rs] p /\
    status rs = 200 /\ body rs = "Hello, World!" ++ nl.
Proof.
  intros p Hx Hs Hm Hp Huri.
  destruct (request_step acts t0 stk r Hx Hs) as (s' & Hrun & Hstep).
  fold p in Hrun, Hstep.
  rewrite serve_hello in Hrun; try assumption.
  - inversion Hrun; subst s'. clear Hrun. cbn [logged resp map app] in Hstep.
    eexists. split; [exact Hstep|]. rewrite Hm. split; reflexivity.
  - rewrite Hp. discriminate.
  - rewrite Hm, Hp. reflexivity.
Qed.

(** C10, amended.  In every state that the process of [main] reaches in
    which it runs and its socket is open, every request is answered.  When
    the target of the request is not the asterisk form, its path is not
    ["/panic"] and is in canonical form (for a CONNECT request: begins
    with a slash), the answer has status 200, whatever the method and
    however unknown the path, and its body is ["Hello, World!"] and a
    newline, or empty for a HEAD request.  The answer to a request that is
    not a CONNECT, or whose path begins with a slash, never has status
    404: it has status 200, 301, 400 or 500. *)
Theorem catch_all_route
    (acts : list Action) (t0 : Time) (stk : string) (r : Request) :
  let p := run acts (start main t0 stk) in
  exit_status p = None ->
  (exists srv, server p = Srv_serving srv) ->
  exists logs rs,
    step (Request_arrives r) p = emit (logs ++ [Served r rs])%list p /\
    (RequestURI r <> "*" -> URL_Path r <> "/panic" ->
     (if (Method r =? "CONNECT")%string then rooted (URL_Path r) = true
      else cleanPath (URL_Path r) = URL_Path r) ->
     logs = [] /\ status rs = 200 /\
     body rs = if (Method r =? "HEAD")%string then "" else "Hello, World!" ++ nl) /\
    ((Method r =? "CONNECT")%string = false \/ rooted (URL_Path r) = true ->
     status rs <> 404 /\
     (status rs = 200 \/ status rs = 301 \/ status rs = 400 \/ status rs = 500)).
Proof.
  intros p Hx Hs.
  destruct (request_step acts t0 stk r Hx Hs) as (s' & Hrun & Hstep).
  fold p in Hrun, Hstep.
  exists (map (fun text => By G_conn (Logged text)) (logged s')), (resp s').
  split; [exact Hstep|]. split.
  - intros Huri Hne Hcanon. rewrite serve_hello in Hrun by assumption.
    inversion Hrun; subst s'. cbn. auto.
  - intros Hr.
    destruct (serve_status r {| resp := newResponse r; logged := [];
                                stacks := stacks_text p |} Hr)
      as (s'' & Hrun' & _ & Hst).
    rewrite Hrun in Hrun'. inversion Hrun'; subst s''.
    split; [|exact Hst]. intuition congruence.
Qed.

(** C4.  In every state that the process of [main] reaches in which it
    runs and its socket is open, a request [GET /panic] (whose target is
    not the asterisk form) leaves two events: one entry in the log, which
    begins with [PANIC RECOVERED: ] and the value of the panic and
    continues with [STACK TRACE:] and the stacks of the goroutines, and
    one answer, with status 500 and the body ["Internal Server Error"] and
    a newline.  The process has not exited, its socket is still open, its
    goroutines are as they were, and it answers every request after. *)
Theorem panic_route_recovers
    (acts : list Action) (t0 : Time) (stk : string) (r : Request) :
  let p := run acts (start main t0 stk) in
  exit_status p = None ->
  (exists srv, server p = Srv_serving srv) ->
  Method r = "GET" -> URL_Path r = "/panic" -> RequestURI r <> "*" ->
  let p' := step (Request_arrives r) p in
  (exists rs,
      p' = emit [ By G_conn (Logged (ensure_newline
                    ("PANIC RECOVERED: Something went wrong!" ++ nl ++
                     "STACK TRACE:" ++ nl ++ stacks_text p)));
                  Served r rs ] p /\
      status rs = 500 /\ body rs = "Internal Server Error" ++ nl) /\
  exit_status p' = None /\
  server p' = server p /\
  main_thread p' = main_thread p /\ spawned p' = spawned p /\
  (forall r', exists logs rs',
      step (Request_arrives r') p' = emit (logs ++ [Served r' rs'])%list p').
Proof.
  intros p Hx Hs Hm Hp Huri p'.
  destruct (request_step acts t0 stk r Hx Hs) as (s' & Hrun & Hstep).
  fold p in Hrun, Hstep. fold p' in Hstep.
  rewrite serve_panic in Hrun by assumption.
  inversion Hrun; subst s'. clear Hrun. cbn [logged resp map app] in Hstep.
  rewrite Hm in Hstep.
  change ("GET" =? "HEAD")%string with false in Hstep. cbv iota in Hstep.
  split; [|rewrite Hstep; cbn [exit_status server main_thread spawned emit];
           repeat split; try assumption].
  - eexists. split; [exact Hstep|]. split; reflexivity.
  - rewrite <- Hstep. intros r'.
    assert (Hp' : p' = run (acts ++ [Request_arrives r]) (start main t0 stk))
      by (rewrite run_snoc; reflexivity).
    pose proof (request_step (acts ++ [Request_arrives r]) t0 stk r') as Hnext.
    cbv zeta in Hnext. rewrite <- Hp' in Hnext.
    destruct Hnext as (s'' & _ & Hstep'); [rewrite Hstep; assumption ..|].
    eauto.
Qed.

(* =================================================================== *)
(** * Part 8: the shutdown                                              *)
(* =================================================================== *)

(** C3.  In every run of the process of [main], when [main] calls
    [Shutdown] with the token [ctx], its steps so far are: the channel, the
    registration, the goroutine, the receipt of the signal, the entry
    [Shutdown signal received], the making of [ctx], the three steps of
    [cleanup] around its sleep, and the call.  The deadline of [ctx] is
    five seconds after the instant at which it was made, which is after
    the receipt of the signal and before [cleanup]; [cleanup] takes two
    seconds at least, so at most three seconds are left when the drain
    begins.  The drain counts from the deadline of [ctx]: while the
    connections are open, [main] waits before the deadline and the drain
    fails with [DeadlineExceeded] from the deadline on, and only then. *)
Theorem deadline_runs_from_signal
    (acts : list Action) (t0 : Time) (stk : string) (t : Time) (ctx : Context) :
  let p := run acts (start main t0 stk) in
  let h := hist G_main (trace p) in
  In (t, Shutdown_called ctx) h ->
  (exists c s t1 t2 t3 tr tl tc t6 tb te t9,
      firstn 11 h =
        [ (t1, Made c 1); (t2, Notified c [SIGINT; SIGTERM]);
          (t3, Spawned (main_func3 main_server));
          (tr, Received c s);
          (tl, Logged (line "Shutdown signal received. Cleaning up..."));
          (tc, Deadline_set ctx);
          (t6, Logged (line "Cleaning up resources (DB, caches, etc.)..."));
          (tb, Sleep_begun (tb + 2 * Second)); (te, Sleep_done);
          (t9, Logged (line "Cleanup complete. Server shutting down."));
          (t, Shutdown_called ctx) ] /\
      deadline ctx = tc + 5 * Second /\
      tr <= tc /\ tc <= tb /\ tb + 2 * Second <= te /\ te <= t /\
      deadline ctx - t <= 3 * Second) /\
  (forall t', In (t', Shutdown_returned (Some DeadlineExceeded)) h -> deadline ctx <= t') /\
  (length h = 11%nat -> exit_status p = None ->
   (forall l, server p <> Srv_drained l) ->
   if deadline ctx <=? now p
   then trace (step (Runs G_main) p) =
          (trace p ++ [(now p, By G_main (Shutdown_returned (Some DeadlineExceeded)))])%list
   else step (Runs G_main) p = p).
Proof.
  intros p h Hin.
  pose proof (main_history main t0 stk acts) as (Hf & _ & _). fold p h in Hf.
  destruct (main_until_drain _ _ _ _ _ Hf Hin)
    as (c & s & t1 & t2 & t3 & tr & tl & tc & t6 & tb & te & t9 & Hh & Hd & Ht).
  split; [|split].
  - exists c, s, t1, t2, t3, tr, tl, tc, t6, tb, te, t9.
    split; [exact Hh|]. unfold Second in *. lia.
  - intros t' Hin'. destruct (main_trail _ _ _ Hf) as [_ (_ & _ & _ & Hdl)].
    assert (Ec : ctx_of (map snd h) = ctx).
    { unfold ctx_of. rewrite <- (firstn_skipn 11 h), Hh. reflexivity. }
    rewrite Ec in Hdl. auto.
  - intros Hlen Hx Hs.
    rewrite <- (firstn_all h), Hlen, Hh in Hf.
    destruct (main_at_drain t0 (firstn 10 (firstn 11 h)) t ctx (main_thread p) p)
      as [th' Hn]; [rewrite Hh; exact Hf|].
    rewrite main_step by assumption. rewrite Hn.
    destruct (server p) eqn:Es; try (now elim (Hs lnerr));
      destruct (deadline ctx <=? now p); try reflexivity;
      apply commit_trace.
Qed.





(** C7, amended.  In every run of the process of [main]:
    - no channel is registered for signals, or the one channel of [main]
      is, for SIGINT and SIGTERM and no other signal;
    - that channel has one slot, and holds one signal at most;
    - every signal that the trap has written to a channel, or dropped
      because the channel was full, is SIGINT or SIGTERM, and the channel
      is the channel of [main];
    - [main] reads the channel at its fourth step and at no other; what
      it reads is SIGINT or SIGTERM, and the trap had written to the
      channel exactly once before, that signal;
    - the channel, the registration and the goroutine are the first three
      steps of [main], and every other step that is not the receipt of the
      signal (the entries of the log, the token, the sleep of [cleanup],
      the drain) comes after the receipt of a termination signal;
    - when SIGINT or SIGTERM arrives while [main] waits, [main] goes on:
      it receives that signal, or the termination signal that was already
      in the channel, and logs that it shuts down.
    The trap writes a termination signal whenever it arrives and the slot
    is free, also after [main] has read: the number of writes is not
    bounded by one. *)
Theorem signal_channel (acts : list Action) (t0 : Time) (stk : string) :
  let p := run acts (start main t0 stk) in
  let h := hist G_main (trace p) in
  (notify p = [] \/ notify p = [(O, [SIGINT; SIGTERM])]) /\
  (chans p = [] \/
   exists b, chans p = [{| cap := 1; buf := b |}] /\ (length b <= 1)%nat) /\
  (forall t c s,
      In (t, Sent c s) (trace p) \/ In (t, Dropped c s) (trace p) ->
      c = O /\ termination_signal s) /\
  (forall i t c s,
      nth_error h i = Some (t, Received c s) ->
      i = 3%nat /\ c = O /\ termination_signal s /\
      exists pre post,
        trace p = (pre ++ (t, By G_main (Received c s)) :: post)%list /\
        sents pre = [s]) /\
  (forall i t o,
      nth_error h i = Some (t, o) ->
      match o with
      | Made _ _ | Notified _ _ | Spawned _ => (i < 3)%nat
      | Received _ _ => i = 3%nat
      | _ => (3 < i)%nat /\
             exists tr s, nth_error h 3 = Some (tr, Received O s) /\ termination_signal s
      end) /\
  (forall s,
      termination_signal s -> exit_status p = None -> length h = 3%nat ->
      let p' := run [Signal_arrives s; Runs G_main; Runs G_main] p in
      exists s',
        termination_signal s' /\
        (sents (trace p) = [] -> s' = s) /\
        map snd (hist G_main (trace p')) =
          (map snd h ++ [ Received O s';
                          Logged (line "Shutdown signal received. Cleaning up...") ])%list /\
        exit_status p' = None).
Proof.
  intros p h.
  pose proof (main_history main t0 stk acts) as (Hf & _ & _). fold p h in Hf.
  destruct (chan_invariant acts t0 stk) as (Hk & Hsd & _). fold p h in Hk, Hsd.
  assert (Hrecv : forall i t c s,
             nth_error h i = Some (t, Received c s) ->
             i = 3%nat /\ c = O /\ termination_signal s /\
             exists pre post,
               trace p = (pre ++ (t, By G_main (Received c s)) :: post)%list /\
               sents pre = [s]).
  { intros i t c s Hi.
    pose proof (received_index _ _ _ _ _ _ _ Hf Hi) as ->.
    split; [reflexivity|].
    assert (Hlen : (3 < length h)%nat) by (apply nth_error_Some; congruence).
    destruct Hk as [(K & _) | [(K & _) | [(K & _)
                   | (_ & b & _ & _ & _ & _ & pre & t' & s' & post & Et & Hpre & Hs)]]];
      try lia.
    assert (Hin' : In (t', Received O s') h).
    { apply hist_In. rewrite Et. apply in_or_app. right. left. reflexivity. }
    destruct (In_nth_error _ _ Hin') as [j Hj].
    pose proof (received_index _ _ _ _ _ _ _ Hf Hj) as ->.
    rewrite Hi in Hj. inversion Hj; subst.
    repeat split; auto. eauto. }
  split; [|split; [|split; [exact Hsd|split; [exact Hrecv|split]]]].
  - destruct Hk as [(_ & _ & -> & _) | [(_ & _ & -> & _) | [(_ & b & _ & -> & _)
                   | (_ & b & _ & -> & _)]]]; auto.
  - destruct Hk as [(_ & -> & _) | [(_ & -> & _) | [(_ & b & -> & _ & _ & Hb & _)
                   | (_ & b & -> & _ & Hb & _)]]]; eauto.
  - intros i t o Hi.
    pose proof (setup_index _ _ _ _ _ _ Hf Hi) as Hidx.
    assert (Hlate : (3 < i)%nat ->
              (3 < i)%nat /\
              exists tr s, nth_error h 3 = Some (tr, Received O s) /\ termination_signal s).
    { intros Hlt. split; [exact Hlt|].
      assert (Hlen : (3 < length h)%nat).
      { assert (i < length h)%nat by (apply nth_error_Some; congruence). lia. }
      destruct (nth_error h 3) as [[tr o3]|] eqn:E3;
        [|apply nth_error_None in E3; lia].
      pose proof (main_op_at _ _ _ _ _ _ Hf E3) as Hop3.
      cbn in Hop3. inversion Hop3; subst o3.
      destruct (Hrecv _ _ _ _ E3) as (_ & Hc & Hs & _).
      rewrite Hc in *. eauto. }
    destruct o; auto.
  - intros s Hs Hx Hlen. exact (signal_triggers acts t0 stk s Hs Hx Hlen).
Qed.



(* =================================================================== *)
(** * Part 9: further properties of [main.go]                          *)
(* =================================================================== *)

(* ------------------------------------------------------------------- *)
(** ** Requests                                                         *)
(* ------------------------------------------------------------------- *)

(** Every request gets a reply: the handler of [main] returns, and a
    header has been sent when it does. *)
Lemma serve_replies (r : Request) (s : HState) :
  exists s',
    serve main_handler r s = (Returned tt, s') /\ wroteHeader (resp s') = true.
Proof.
  destruct (String.eqb_spec (RequestURI r) "*") as [Hstar | Hstar].
  - unfold serve, serverHandler_ServeHTTP, HandlerFunc, ServeHTTP.
    apply String.eqb_eq in Hstar. rewrite Hstar. cbn [andb].
    destruct (Method r =? "OPTIONS")%string.
    + unfold globalOptionsHandler, HandlerFunc, call, newResponse, with_resp.
      cbn. eexists. split; reflexivity.
    + unfold main_handler. rewrite exec_recoveryMiddleware.
      unfold ServeMux_ServeHTTP, HandlerFunc, ServeHTTP. rewrite Hstar.
      unfold ResponseWriter_WriteHeader, call, newResponse, with_resp.
      destruct (ProtoAtLeast r 1 1); cbn; eexists; split; reflexivity.
  - rewrite serve_dispatch by assumption.
    unfold main_handler. rewrite exec_recoveryMiddleware.
    unfold ServeMux_ServeHTTP, HandlerFunc, ServeHTTP.
    apply String.eqb_neq in Hstar. rewrite Hstar.
    destruct (ServeMux_Handler_cases r) as [-> | [-> | [-> | [target ->]]]].
    + unfold main_func1, HandlerFunc, fmt_Fprintln, call, newResponse, with_resp.
      cbn [exec perform resp logged stacks].
      eexists. split; [reflexivity|].
      unfold do_Write, finishRequest, with_resp; cbn;
        repeat match goal with |- context [if ?b then _ else _] => destruct b end;
        reflexivity.
    + unfold main_func2, HandlerFunc, panic, newResponse, with_resp.
      cbn [exec resp logged stacks fmt_v].
      unfold http_Error, ResponseWriter_WriteHeader, fmt_Fprintln, call, panic.
      cbn [bind exec perform resp logged stacks with_resp header set_header
           wroteHeader status body toHEAD do_WriteHeader].
      eexists. split; [reflexivity|].
      unfold do_Write, finishRequest, with_resp; cbn;
        repeat match goal with |- context [if ?b then _ else _] => destruct b end;
        reflexivity.
    + unfold NotFoundHandler, HandlerFunc, http_Error, ResponseWriter_WriteHeader,
        fmt_Fprintln, call, panic, newResponse, with_resp.
      cbn [bind exec perform resp logged stacks with_resp header set_header
           wroteHeader status body toHEAD do_WriteHeader].
      eexists. split; [reflexivity|].
      unfold do_Write, finishRequest, with_resp; cbn;
        repeat match goal with |- context [if ?b then _ else _] => destruct b end;
        reflexivity.
    + destruct (exec_RedirectHandler target r s) as (rs & -> & Hw & _).
      eexists. split; [reflexivity|]. unfold finishRequest, with_resp.
      cbn [resp]. rewrite Hw. exact Hw.
Qed.

Lemma events_inv_frame (p p' : Proc) (t : Time) (evs : list Event) :
  events_inv p -> trace p' = (trace p ++ map (fun ev => (t, ev)) evs)%list ->
  Forall env_event_ok evs -> events_inv p'.
Proof.
  unfold events_inv. intros IH -> Hev. apply Forall_app. split; [exact IH|].
  apply Forall_forall. intros e He. apply in_map_iff in He.
  destruct He as (ev & <- & He). rewrite Forall_forall in Hev. exact (Hev ev He).
Qed.

Lemma events_invariant (acts : list Action) (t0 : Time) (stk : string) :
  events_inv (run acts (start main t0 stk)).
Proof.
  induction acts as [| a acts IH] using rev_ind.
  - constructor.
  - pose proof (server_invariant acts t0 stk) as (Hsrv & _).
    rewrite run_snoc. set (p := run acts (start main t0 stk)) in *.
    destruct (step_view a p) as
      [E | [(g & th & o & th' & -> & Hx & Hth & Hn & E)
         | [(s & -> & Hx & E) | [(d & -> & Hx & E) | [(srv & -> & Hx & Hs & E)
         | [(msg & -> & Hx & Hs & E) | [(ln & -> & Hx & Hs & E)
         | (r & -> & Hx & E)]]]]]]];
      rewrite E; clear E.
    + exact IH.
    + destruct (commit_fields g o th' p) as (_ & _ & Etr & _).
      apply (events_inv_frame p _ (now p) [By g o] IH Etr).
      repeat constructor. destruct g; try exact I. discriminate Hth.
    + unfold signal_arrives. destruct (registered s p).
      * destruct (relay_frame s (notify p) p)
          as (_ & _ & _ & _ & _ & _ & _ & evs & Etr & Hev).
        apply (events_inv_frame p _ (now p) evs IH Etr).
        eapply Forall_impl; [|exact Hev]. intros ev (c & [-> | ->]); exact I.
      * destruct (default_kills s) eqn:Hk; [|destruct (default_dumps s) eqn:Hd].
        -- eapply (events_inv_frame p _ (now p) [Killed s] IH); [reflexivity|].
           repeat constructor. exact Hk.
        -- eapply (events_inv_frame p _ (now p) [Dumped s] IH); [reflexivity|].
           repeat constructor; assumption.
        -- eapply (events_inv_frame p _ (now p) [Unhandled s] IH); [reflexivity|].
           repeat constructor.
    + exact IH.
    + eapply (events_inv_frame p _ (now p) [Bound] IH); [reflexivity|]. repeat constructor.
    + eapply (events_inv_frame p _ (now p) [Listener_failed msg] IH); [reflexivity|].
      repeat constructor.
    + eapply (events_inv_frame p _ (now p) [Drained ln] IH); [reflexivity|]. repeat constructor.
    + unfold request_arrives. destruct (server p) eqn:Hs; try exact IH.
      destruct (Hsrv srv (or_intror eq_refl)) as [-> _].
      cbn [Server_Handler main_server].
      destruct (serve_replies r {| resp := newResponse r; logged := [];
                                   stacks := stacks_text p |}) as (s' & -> & _).
      eapply events_inv_frame; [exact IH | reflexivity |].
      apply Forall_app. split; [|repeat constructor].
      apply Forall_forall. intros ev He. apply in_map_iff in He.
      destruct He as (text & <- & _). cbn. eauto.
Qed.

(** The steps of goroutines in a trace are steps of [main], of the
    goroutine that runs the server, or entries logged by handlers. *)
Lemma step_kinds (acts : list Action) (t0 : Time) (stk : string)
    (t : Time) (g : Goroutine) (o : Op) :
  In (t, By g o) (trace (run acts (start main t0 stk))) ->
  match g with
  | G_main => main_kind o
  | G_go n => n = O /\ serve_kind o
  | G_conn => exists text, o = Logged text
  end.
Proof.
  intros Hin. set (p := run acts (start main t0 stk)) in *.
  destruct g as [| n |].
  - apply hist_In in Hin.
    pose proof (main_history main t0 stk acts) as (Hf & _ & _).
    eapply main_op_kind; eauto.
  - apply hist_In in Hin.
    destruct (threads_invariant acts t0 stk) as [(_ & _ & Hno) | (thb & _ & _ & Hb & Hno)];
      fold p in Hno.
    + rewrite Hno in Hin. contradiction.
    + destruct n as [| n]; [|rewrite Hno in Hin by discriminate; contradiction].
      split; [reflexivity|]. eapply serve_op_kind; eauto.
  - pose proof (events_invariant acts t0 stk) as Hev. fold p in Hev.
    unfold events_inv in Hev. rewrite Forall_forall in Hev.
    exact (Hev _ Hin).
Qed.

(** X2.  In every run of the process of [main], no request is aborted by
    a panic: the trace holds no [Aborted] event.  A request that arrives
    while the process runs and its socket is open is answered: its
    handler logs one entry at most and a response with a header is sent.
    A request that arrives at any other moment leaves the process as it
    is.  In both cases the request changes neither the exit status, nor
    the server, nor the goroutines, nor the channels of the process. *)
Theorem requests_are_answered
    (acts : list Action) (t0 : Time) (stk : string) (r : Request) :
  let p := run acts (start main t0 stk) in
  let q := step (Request_arrives r) p in
  (forall t r' v, ~ In (t, Aborted r' v) (trace p)) /\
  (if accepting p
   then exists logs rs,
          q = emit (map (fun text => By G_conn (Logged text)) logs ++ [Served r rs]) p /\
          wroteHeader rs = true /\ (length logs <= 1)%nat
   else q = p) /\
  exit_status q = exit_status p /\ server q = server p /\
  main_thread q = main_thread p /\ spawned q = spawned p /\ chans q = chans p.
Proof.
  intros p q. split; [|split].
  - intros t r' v Hin.
    pose proof (events_invariant acts t0 stk) as Hev. fold p in Hev.
    unfold events_inv in Hev. rewrite Forall_forall in Hev.
    exact (Hev _ Hin).
  - unfold accepting. destruct (exit_status p) eqn:Hx.
    + apply step_exited with (st := e). exact Hx.
    + destruct (server p) eqn:Hs;
        try (unfold q, step, request_arrives; rewrite Hx, Hs; reflexivity).
      destruct (request_step acts t0 stk r Hx (ex_intro _ srv Hs)) as (s' & Hrun & Hstep).
      fold p in Hrun, Hstep. fold q in Hstep.
      destruct (serve_replies r {| resp := newResponse r; logged := [];
                                   stacks := stacks_text p |}) as (s1 & Hrun1 & Hw).
      destruct (serve_logs r {| resp := newResponse r; logged := [];
                                stacks := stacks_text p |}) as (s2 & Hrun2 & _ & Hlog).
      rewrite Hrun in Hrun1, Hrun2. inversion Hrun1; subst s1.
      inversion Hrun2; subst s2.
      exists (logged s'), (resp s'). split; [exact Hstep|]. split; [exact Hw|].
      destruct Hlog as [-> | ->]; cbn; lia.
  - unfold q, step. destruct (exit_status p) eqn:Hx; [rewrite Hx; auto|].
    destruct (request_arrives_frame r p) as (_ & E2 & _ & E4 & E5 & E6 & _ & E8 & _).
    rewrite E2, E4, E5, E6, E8. auto.
Qed.

(* ------------------------------------------------------------------- *)
(** ** Signals                                                          *)
(* ------------------------------------------------------------------- *)

(** The registrations of the process: none, or the one of [main]. *)
Lemma notify_cases (acts : list Action) (t0 : Time) (stk : string) :
  let p := run acts (start main t0 stk) in
  (notify p = [] /\ (length (hist G_main (trace p)) <= 1)%nat) \/
  (notify p = [(O, [SIGINT; SIGTERM])] /\ (2 <= length (hist G_main (trace p)))%nat).
Proof.
  intros p. destruct (chan_invariant acts t0 stk) as (Hk & _). fold p in Hk.
  destruct Hk as [(K & _ & -> & _) | [(K & _ & -> & _) | [(K & b & _ & -> & _)
                 | (K & b & _ & -> & _)]]]; [left | left | right | right];
    split; try reflexivity; lia.
Qed.

Lemma registered_termination (s : Signal) (p : Proc) :
  notify p = [(O, [SIGINT; SIGTERM])] ->
  registered s p = true <-> termination_signal s.
Proof.
  intros Hno. unfold registered, termination_signal. rewrite Hno.
  cbn [existsb snd]. rewrite !orb_false_r, orb_true_iff, !Z.eqb_eq. reflexivity.
Qed.

(** X3.  In every run of the process of [main]:
    - once the goroutine that runs the server has taken a step, or the
      socket is being opened or is open, [main] has registered its channel
      for SIGINT and SIGTERM: the signals are trapped before the server
      starts;
    - once they are registered, a SIGINT or SIGTERM that arrives changes
      neither the exit status of the process, nor its goroutines, nor the
      server: it is only written to the channel or dropped;
    - before the registration, in the first two steps of [main], a signal
      whose default action is to kill still kills the process;
    - a signal other than SIGINT and SIGTERM is never trapped: when its
      default action is to kill, it kills the process at any moment. *)
Theorem signals_trapped_before_serving
    (acts : list Action) (t0 : Time) (stk : string) :
  let p := run acts (start main t0 stk) in
  (hist (G_go 0) (trace p) <> [] \/
   (exists srv, server p = Srv_binding srv \/ server p = Srv_serving srv) ->
   notify p = [(O, [SIGINT; SIGTERM])]) /\
  (notify p = [(O, [SIGINT; SIGTERM])] ->
   forall s, termination_signal s ->
     let q := step (Signal_arrives s) p in
     exit_status q = exit_status p /\ main_thread q = main_thread p /\
     spawned q = spawned p /\ server q = server p) /\
  (notify p = [] -> exit_status p = None ->
   forall s, default_kills s = true ->
     exit_status (step (Signal_arrives s) p) = Some (Killed_by s)) /\
  (forall s, ~ termination_signal s -> exit_status p = None ->
     default_kills s = true ->
     exit_status (step (Signal_arrives s) p) = Some (Killed_by s)).
Proof.
  intros p.
  assert (Hkill : forall s, registered s p = false -> exit_status p = None ->
                    default_kills s = true ->
                    exit_status (step (Signal_arrives s) p) = Some (Killed_by s)).
  { intros s Hr Hx Hk. unfold step, signal_arrives. rewrite Hx, Hr, Hk. reflexivity. }
  split; [|split; [|split]].
  - intros H.
    assert (Hb : hist (G_go 0) (trace p) <> []).
    { destruct H as [H | [srv H]]; [exact H|].
      destruct (server_invariant acts t0 stk) as (H1 & _). fold p in H1.
      destruct (H1 srv H) as [_ E]. intros E'. rewrite E' in E. discriminate E. }
    destruct (threads_invariant acts t0 stk) as [(_ & _ & Hno) | (thb & _ & Hlen & _)];
      fold p in Hno || fold p in Hlen.
    + now elim Hb.
    + destruct (notify_cases acts t0 stk) as [[_ K] | [E _]]; fold p in K || fold p in E;
        [lia | exact E].
  - intros Hno s Hs q. unfold q, step.
    destruct (exit_status p) eqn:Hx; [rewrite Hx; auto|].
    unfold signal_arrives.
    rewrite (proj2 (registered_termination s p Hno) Hs).
    destruct (relay_frame s (notify p) p) as (_ & _ & E3 & E4 & E5 & _ & E7 & _).
    rewrite E3, E4, E5, E7. auto.
  - intros Hno Hx s Hk. apply Hkill; try assumption.
    unfold registered. rewrite Hno. reflexivity.
  - intros s Hs Hx Hk. apply Hkill; try assumption.
    destruct (notify_cases acts t0 stk) as [[E _] | [E _]]; fold p in E.
    + unfold registered. rewrite E. reflexivity.
    + destruct (registered s p) eqn:Hr; [|reflexivity].
      apply (registered_termination s p E) in Hr. contradiction.
Qed.

(* ------------------------------------------------------------------- *)
(** ** The deferred calls of [main]                                     *)
(* ------------------------------------------------------------------- *)

(** A step of the script of [main] that lies within its history. *)
Lemma main_has (t0 : Time) (h : list (Time * Op)) (th : Thread) (j : nat) (o : Op) :
  follows t0 (thread main) h th ->
  (j < length h)%nat ->
  nth_error (main_script (map snd h)) j = Some o ->
  exists t, In (t, o) h.
Proof.
  intros Hf Hlt Hs.
  destruct (nth_error h j) as [[t o']|] eqn:E;
    [|apply nth_error_None in E; lia].
  pose proof (main_op_at _ _ _ _ _ _ Hf E) as Hop.
  rewrite Hs in Hop. inversion Hop; subst o'.
  exists t. eapply nth_error_In; eauto.
Qed.

(** Where the last steps of [main] are in its history. *)
Lemma main_end_index (t0 : Time) (h : list (Time * Op)) (th : Thread)
    (i : nat) (t : Time) (o : Op) :
  follows t0 (thread main) h th ->
  nth_error h i = Some (t, o) ->
  match o with
  | Shutdown_returned res => i = 11%nat /\ result_of (map snd h) = res
  | Cancelled ctx =>
      i = 13%nat /\ result_of (map snd h) = None /\ ctx_of (map snd h) = ctx
  | Finished => i = 14%nat /\ result_of (map snd h) = None
  | Exited c => i = 13%nat /\ c = 1 /\ exists e, result_of (map snd h) = Some e
  | _ => True
  end.
Proof.
  intros Hf Hi.
  pose proof (main_op_at _ _ _ _ _ _ Hf Hi) as Hop.
  assert (Hi' : nth_error (map snd h) i = Some o)
    by (rewrite nth_error_map, Hi; reflexivity).
  unfold main_script in Hop.
  assert (Hres : i = 11%nat -> result_of (map snd h) =
                   match o with Shutdown_returned r => r | _ => None end).
  { intros ->. unfold result_of. rewrite Hi'. destruct o; reflexivity. }
  remember (result_of (map snd h)) as res eqn:Eres.
  remember (ctx_of (map snd h)) as ctx eqn:Ectx.
  revert Hop. unfold main_ops.
  generalize (chan_of (map snd h)) (signal_of (map snd h)) (wake_of (map snd h)).
  intros c s u Hop.
  do 11 (destruct i as [| i]; [inversion Hop; exact I|]).
  destruct i as [| i]; [inversion Hop; subst o; split; [reflexivity|];
                        symmetry; exact (Hres eq_refl)|].
  clear Hres. destruct res as [e|]; cbn in Hop.
  - destruct i as [| i]; [inversion Hop; exact I|].
    destruct i as [| i]; [inversion Hop; eauto|].
    destruct i; discriminate Hop.
  - destruct i as [| i]; [inversion Hop; exact I|].
    destruct i as [| i]; [inversion Hop; auto|].
    destruct i as [| i]; [inversion Hop; auto|].
    destruct i; discriminate Hop.
Qed.

(** X4.  In every run of the process of [main], the deferred [cancel]
    runs only when [main] returns, and then it does.  When [cancel] has
    run, it released the token that [main] made and passed to [Shutdown],
    and the drain had succeeded.  When [main] has returned, [cancel] has
    run.  When the drain has failed, or [main] has exited the process
    through [logger.Fatalf], [cancel] has not run and never will: the exit
    skips the deferred calls. *)
Theorem cancel_runs_only_on_return
    (acts : list Action) (t0 : Time) (stk : string) :
  let h := hist G_main (trace (run acts (start main t0 stk))) in
  (forall t ctx,
      In (t, Cancelled ctx) h ->
      exists t1 t2 t3,
        In (t1, Deadline_set ctx) h /\ In (t2, Shutdown_called ctx) h /\
        In (t3, Shutdown_returned None) h) /\
  (forall t, In (t, Finished) h -> exists t' ctx, In (t', Cancelled ctx) h) /\
  (forall t e, In (t, Shutdown_returned (Some e)) h ->
     forall t' ctx, ~ In (t', Cancelled ctx) h) /\
  (forall t c, In (t, Exited c) h -> forall t' ctx, ~ In (t', Cancelled ctx) h).
Proof.
  intros h.
  pose proof (main_history main t0 stk acts) as (Hf & _ & _). fold h in Hf.
  assert (Hidx : forall t o, In (t, o) h ->
            exists i, nth_error h i = Some (t, o) /\ (i < length h)%nat).
  { intros t o Hin. destruct (In_nth_error _ _ Hin) as [i Hi].
    exists i. split; [exact Hi|]. apply nth_error_Some. congruence. }
  split; [|split; [|split]].
  - intros t ctx Hin. destruct (Hidx _ _ Hin) as (i & Hi & Hlt).
    destruct (main_end_index _ _ _ _ _ _ Hf Hi) as (-> & Hres & Hctx).
    assert (H5 : exists t1, In (t1, Deadline_set ctx) h).
    { apply (main_has _ _ _ 5 _ Hf); [lia|]. unfold main_script. rewrite Hctx.
      reflexivity. }
    assert (H10 : exists t2, In (t2, Shutdown_called ctx) h).
    { apply (main_has _ _ _ 10 _ Hf); [lia|]. unfold main_script. rewrite Hctx.
      reflexivity. }
    assert (H11 : exists t3, In (t3, Shutdown_returned None) h).
    { apply (main_has _ _ _ 11 _ Hf); [lia|]. unfold main_script. rewrite Hres.
      reflexivity. }
    destruct H5 as [t1 H5]. destruct H10 as [t2 H10]. destruct H11 as [t3 H11].
    exists t1, t2, t3. auto.
  - intros t Hin. destruct (Hidx _ _ Hin) as (i & Hi & Hlt).
    destruct (main_end_index _ _ _ _ _ _ Hf Hi) as (-> & Hres).
    destruct (main_has _ _ _ 13 (Cancelled (ctx_of (map snd h))) Hf) as [t' Hc];
      [lia | unfold main_script; rewrite Hres; reflexivity |].
    eauto.
  - intros t e Hin t' ctx Hc.
    destruct (Hidx _ _ Hin) as (i & Hi & _).
    destruct (main_end_index _ _ _ _ _ _ Hf Hi) as (_ & Hres).
    destruct (Hidx _ _ Hc) as (j & Hj & _).
    destruct (main_end_index _ _ _ _ _ _ Hf Hj) as (_ & Hres' & _).
    congruence.
  - intros t c Hin t' ctx Hc.
    destruct (Hidx _ _ Hin) as (i & Hi & _).
    destruct (main_end_index _ _ _ _ _ _ Hf Hi) as (_ & _ & e & Hres).
    destruct (Hidx _ _ Hc) as (j & Hj & _).
    destruct (main_end_index _ _ _ _ _ _ Hf Hj) as (_ & Hres' & _).
    congruence.
Qed.

(* ------------------------------------------------------------------- *)
(** ** The exit status                                                  *)
(* ------------------------------------------------------------------- *)

Lemma fatal_drain_fatal (e : error) : fatal_line (fatal_drain e) = true.
Proof.
  unfold fatal_drain, ensure_newline, fatal_line.
  match goal with |- context [if ?b then _ else _] => destruct b end;
    apply orb_true_iff; right; reflexivity.
Qed.

Lemma fatal_serve_fatal (e : error) : fatal_line (fatal_serve e) = true.
Proof.
  unfold fatal_serve, ensure_newline, fatal_line.
  match goal with |- context [if ?b then _ else _] => destruct b end; reflexivity.
Qed.

(** The goroutine that runs the server exits the process only with
    status 1, after it has logged the error of [ListenAndServe]. *)
Lemma serve_exit_cause (t0 : Time) (h : list (Time * Op)) (th : Thread)
    (t : Time) (c : Z) :
  follows t0 (thread (main_func3 main_server)) h th ->
  In (t, Exited c) h ->
  c = 1 /\ exists t' err, In (t', Logged (fatal_serve err)) h.
Proof.
  intros H Hin. unfold main_func3 in H.
  walk_all H ltac:(
    in_cases;
    (split; [reflexivity|]; do 2 eexists; unfold fatal_serve;
     repeat first [left; reflexivity | right])).
Qed.

(** When [main] has returned, its history is its whole script for a
    drain that succeeded. *)
Lemma main_complete (acts : list Action) (t0 : Time) (stk : string) (t : Time) :
  let h := hist G_main (trace (run acts (start main t0 stk))) in
  In (t, Finished) h ->
  exists ch s ctx u,
    termination_signal s /\ map snd h = main_ops ch s ctx u None.
Proof.
  intros h Hin.
  pose proof (main_history main t0 stk acts) as (Hf & _ & _). fold h in Hf.
  destruct (In_nth_error _ _ Hin) as [i Hi].
  destruct (main_end_index _ _ _ _ _ _ Hf Hi) as (-> & Hres).
  assert (Hlt : (14 < length h)%nat) by (apply nth_error_Some; congruence).
  destruct (main_trail _ _ _ Hf) as [Hpre _].
  unfold main_script in Hpre. rewrite Hres in Hpre.
  exists (chan_of (map snd h)), (signal_of (map snd h)), (ctx_of (map snd h)),
    (wake_of (map snd h)).
  split.
  - destruct (nth_error h 3) as [[t3 o3]|] eqn:E3;
      [|apply nth_error_None in E3; lia].
    pose proof (main_op_at _ _ _ _ _ _ Hf E3) as Hop3.
    cbn in Hop3. inversion Hop3; subst o3.
    apply nth_error_In in E3.
    exact (proj2 (main_received acts t0 stk _ _ _ E3)).
  - pose proof (prefix_length _ _ Hpre) as Hle. rewrite length_map in Hle.
    apply prefix_firstn in Hpre. rewrite length_map in Hpre.
    rewrite Hpre at 1. apply firstn_all2. cbn. lia.
Qed.

(** X5.  In every run of the process of [main], when the process has
    exited, its exit status is 0, 1, 2 or the death by a signal.  It is 0
    only when [main] has gone through its whole script: a termination
    signal received, [cleanup], a drain that succeeded, the entry [Server
    exited gracefully.], the deferred [cancel] and the return.  It is 1
    only when an entry of [logger.Fatalf] is in the log.  It is 2 only
    when a signal that no channel traps, and whose default action is the
    runtime's dump of the stacks, has arrived: never for a panic that
    nothing recovered.  A signal has killed the process only by its
    default action. *)
Theorem exit_status_meaning
    (acts : list Action) (t0 : Time) (stk : string) (st : ExitStatus) :
  let p := run acts (start main t0 stk) in
  exit_status p = Some st -> exit_meaning p st.
Proof.
  intros p Hx.
  destruct (exit_status_cause main acts t0 stk st Hx) as (pre & t & ev & Etr & Hev).
  fold p in Etr.
  assert (Hin : In (t, ev) (trace p))
    by (rewrite Etr; apply in_or_app; right; left; reflexivity).
  pose proof (events_invariant acts t0 stk) as Hinv. fold p in Hinv.
  unfold events_inv in Hinv. rewrite Forall_forall in Hinv.
  destruct ev as [g o | | | | s | s | | | | |]; try discriminate Hev.
  - pose proof (step_kinds acts t0 stk _ _ _ Hin) as Hk.
    destruct g as [| n |].
    + destruct o; try contradiction; try discriminate Hev; cbn in Hk, Hev.
      * rewrite Hk in *. inversion Hev; subst st. right. left. split; [reflexivity|].
        apply hist_In in Hin.
        pose proof (main_history main t0 stk acts) as (Hf & _ & _). fold p in Hf.
        destruct (In_nth_error _ _ Hin) as [i Hi].
        destruct (main_end_index _ _ _ _ _ _ Hf Hi) as (-> & _ & e & Hres).
        assert (Hlt : (13 < length (hist G_main (trace p)))%nat)
          by (apply nth_error_Some; congruence).
        destruct (main_has _ _ _ 12 (Logged (fatal_drain e)) Hf) as [t' Hl];
          [lia | unfold main_script; rewrite Hres; reflexivity |].
        apply hist_In in Hl. exists t', G_main, (fatal_drain e).
        split; [exact Hl | apply fatal_drain_fatal].
      * inversion Hev; subst st. left. split; [reflexivity|].
        apply hist_In in Hin. exact (main_complete acts t0 stk t Hin).
    + destruct Hk as [-> Hk].
      destruct o; try contradiction; try discriminate Hev.
      apply hist_In in Hin.
      destruct (threads_invariant acts t0 stk) as [(_ & _ & Hno) | (thb & _ & _ & Hb & _)];
        fold p in Hno || fold p in Hb.
      { rewrite Hno in Hin. contradiction. }
      destruct (serve_exit_cause _ _ _ _ _ Hb Hin) as (-> & t' & err & Hl).
      cbn in Hev. inversion Hev; subst st. right. left. split; [reflexivity|].
      apply hist_In in Hl. exists t', (G_go 0), (fatal_serve err).
      split; [exact Hl | apply fatal_serve_fatal].
    + destruct Hk as [text ->]. discriminate Hev.
  - cbn in Hev. inversion Hev; subst st. cbn. exact (Hinv _ Hin).
  - cbn in Hev. inversion Hev; subst st. cbn. right. right.
    split; [reflexivity|]. exists t, s. split; [exact Hin|]. exact (Hinv _ Hin).
Qed.

(* ------------------------------------------------------------------- *)
(** ** Requests during [cleanup]                                     *)
(* ------------------------------------------------------------------- *)

Lemma socket_failed_app (tr evs : list (Time * Event)) :
  socket_failed (tr ++ evs) = socket_failed tr || socket_failed evs.
Proof. unfold socket_failed. apply existsb_app. Qed.

Lemma open_inv_frame (p p' : Proc) (evs : list (Time * Event)) :
  open_inv p -> server p' = server p ->
  trace p' = (trace p ++ evs)%list ->
  Forall (fun e => snd e <> Bound) evs ->
  open_inv p'.
Proof.
  intros IH Es Et Hev (t & Hb) Hf Hno. rewrite Es. rewrite Et in Hb, Hf, Hno.
  apply IH.
  - apply in_app_or in Hb. destruct Hb as [Hb | Hb]; [eauto|].
    rewrite Forall_forall in Hev. now elim (Hev _ Hb).
  - rewrite socket_failed_app in Hf. apply orb_false_iff in Hf. tauto.
  - intros t' g ctx Hin. apply (Hno t' g ctx). apply in_or_app. now left.
Qed.

Lemma open_invariant (body : Go ProcE unit) (acts : list Action)
    (t0 : Time) (stk : string) :
  open_inv (run acts (start body t0 stk)).
Proof.
  induction acts as [| a acts IH] using rev_ind.
  - intros (t & []).
  - rewrite run_snoc. set (p := run acts (start body t0 stk)) in *.
    destruct (step_view a p) as
      [E | [(g & th & o & th' & -> & Hx & Hth & Hn & E)
         | [(s & -> & Hx & E) | [(d & -> & Hx & E) | [(srv & -> & Hx & Hs & E)
         | [(msg & -> & Hx & Hs & E) | [(ln & -> & Hx & Hs & E)
         | (r & -> & Hx & E)]]]]]]];
      rewrite E; clear E.
    + exact IH.
    + destruct (commit_fields g o th' p) as (_ & _ & Etr & _ & _ & _ & _ & Es & _).
      intros Hb Hf Hno.
      assert (Hp : exists srv, server p = Srv_serving srv).
      { apply IH.
        - destruct Hb as [t Hb]. rewrite Etr in Hb. apply in_app_or in Hb.
          destruct Hb as [Hb | [Hb | []]]; [eauto | discriminate Hb].
        - rewrite Etr, socket_failed_app in Hf. apply orb_false_iff in Hf. tauto.
        - intros t g' ctx Hin. apply (Hno t g' ctx). rewrite Etr.
          apply in_or_app. now left. }
      rewrite Es. pose proof (next_op_facts _ _ _ _ Hn) as Hfacts.
      destruct o; try exact Hp.
      * destruct Hp as [srv' Hp]. destruct Hfacts as (_ & [H | [m H]]); congruence.
      * exfalso. apply (Hno (now p) g ctx). rewrite Etr.
        apply in_or_app. right. left. reflexivity.
    + unfold signal_arrives. destruct (registered s p).
      * destruct (relay_frame s (notify p) p)
          as (_ & _ & E3 & _ & _ & _ & _ & evs & Etr & Hev).
        eapply open_inv_frame; [exact IH | exact E3 | exact Etr |].
        apply Forall_forall. intros e He. apply in_map_iff in He.
        destruct He as (ev & <- & He). rewrite Forall_forall in Hev.
        destruct (Hev ev He) as (c & [-> | ->]); discriminate.
      * destruct (default_kills s); [|destruct (default_dumps s)];
          (eapply open_inv_frame; [exact IH | reflexivity | reflexivity |]);
          repeat constructor; discriminate.
    + eapply (open_inv_frame p _ []); [exact IH | reflexivity | | constructor].
      cbn. now rewrite app_nil_r.
    + intros _ _ _. cbn [server emit set_server]. eauto.
    + intros _ Hf _. exfalso. cbn [trace emit set_server map] in Hf.
      rewrite socket_failed_app in Hf. apply orb_false_iff in Hf.
      destruct Hf as [_ Hf]. discriminate Hf.
    + intros Hb Hf Hno. exfalso.
      assert (Hp : exists srv, server p = Srv_serving srv).
      { apply IH.
        - destruct Hb as [t Hb]. cbn [trace emit set_server map] in Hb.
          apply in_app_or in Hb.
          destruct Hb as [Hb | [Hb | []]]; [eauto | discriminate Hb].
        - cbn [trace emit set_server map] in Hf.
          rewrite socket_failed_app in Hf. apply orb_false_iff in Hf. tauto.
        - intros t g' ctx Hin. apply (Hno t g' ctx). cbn [trace emit set_server map].
          apply in_or_app. now left. }
      destruct Hp as [srv Hp]. congruence.
    + destruct (request_arrives_frame r p)
        as (_ & _ & _ & E4 & _ & _ & _ & _ & evs & Etr & Hev).
      eapply open_inv_frame; [exact IH | exact E4 | exact Etr |].
      apply Forall_forall. intros e He. apply in_map_iff in He.
      destruct He as (ev & <- & He). rewrite Forall_forall in Hev.
      specialize (Hev ev He). cbn [snd]. intros E. rewrite E in Hev. exact Hev.
Qed.

(** X6.  The server goes on taking requests while [cleanup] runs: [main]
    stops the listener only by its call of [Shutdown], which comes after
    [cleanup].  In every run of the process of [main], for two seconds
    from the instant at which [main] has received the termination signal,
    a request that arrives is answered, provided the process runs and its
    socket has been opened and has not failed. *)
Theorem requests_taken_during_cleanup
    (acts : list Action) (t0 : Time) (stk : string)
    (tr : Time) (c : chan) (s : Signal) (r : Request) :
  let p := run acts (start main t0 stk) in
  In (tr, Received c s) (hist G_main (trace p)) ->
  now p < tr + 2 * Second ->
  exit_status p = None ->
  (exists t, In (t, Bound) (trace p)) ->
  socket_failed (trace p) = false ->
  accepting p = true /\
  exists logs rs,
    step (Request_arrives r) p = emit (logs ++ [Served r rs])%list p.
Proof.
  intros p Hrec Hnow Hx Hb Hf.
  pose proof (main_history main t0 stk acts) as (Hfol & _ & Htimes). fold p in Hfol, Htimes.
  assert (Hno : forall t g ctx, ~ In (t, By g (Shutdown_called ctx)) (trace p)).
  { intros t g ctx Hin.
    pose proof (step_kinds acts t0 stk _ _ _ Hin) as Hk. fold p in Hk.
    destruct g as [| n |].
    - rewrite Forall_forall in Htimes. pose proof (Htimes _ Hin) as Ht. cbn [fst] in Ht.
      apply hist_In in Hin.
      destruct (main_until_drain _ _ _ _ _ Hfol Hin)
        as (c' & s' & u1 & u2 & u3 & ur & ul & uc & u6 & ub & ue & u9 & Hh & _ & Hord).
      pose proof (received_at _ _ _ _ _ _ Hfol Hrec) as H3.
      assert (E3 : nth_error (firstn 11 (hist G_main (trace p))) 3 = Some (ur, Received c' s'))
        by (rewrite Hh; reflexivity).
      rewrite nth_error_firstn in E3.
      change (nth_error (hist G_main (trace p)) 3 = Some (ur, Received c' s')) in E3.
      rewrite H3 in E3. inversion E3; subst. lia.
    - destruct Hk as [_ Hk]. exact Hk.
    - destruct Hk as [text Hk]. discriminate Hk. }
  destruct (open_invariant main acts t0 stk Hb Hf Hno) as [srv Hs]. fold p in Hs.
  split.
  - unfold accepting. rewrite Hx, Hs. reflexivity.
  - destruct (request_step acts t0 stk r Hx (ex_intro _ srv Hs)) as (s' & _ & Hstep).
    eauto.
Qed.

(* ------------------------------------------------------------------- *)
(** ** The duration of [cleanup]                                        *)
(* ------------------------------------------------------------------- *)

(** The first ten steps of [main] and their instants. *)
Lemma main_until_cleaned (t0 : Time) (h : list (Time * Op)) (th : Thread) :
  follows t0 (thread main) h th ->
  (10 <= length h)%nat ->
  exists c s ctx t1 t2 t3 tr tl tc t6 tb te t9,
    firstn 10 h =
      [ (t1, Made c 1); (t2, Notified c [SIGINT; SIGTERM]);
        (t3, Spawned (main_func3 main_server));
        (tr, Received c s);
        (tl, Logged (line "Shutdown signal received. Cleaning up..."));
        (tc, Deadline_set ctx);
        (t6, Logged (line "Cleaning up resources (DB, caches, etc.)..."));
        (tb, Sleep_begun (tb + 2 * Second)); (te, Sleep_done);
        (t9, Logged (line "Cleanup complete. Server shutting down.")) ] /\
    tr <= t6 /\ t6 + 2 * Second <= t9.
Proof.
  intros H Hlen. unfold main in H. rewrite main_with_unfold in H.
  walk_all H ltac:(
    first [ exfalso; cbn in Hlen; lia
          | cbn [firstn]; do 13 eexists; (split; [reflexivity|]);
            unfold Second in *; lia ]).
Qed.

(** The entries that [main] logs, by their place in its history. *)
Lemma main_log_index (t0 : Time) (h : list (Time * Op)) (th : Thread)
    (i : nat) (t : Time) (text : string) :
  follows t0 (thread main) h th ->
  nth_error h i = Some (t, Logged text) ->
  (i = 4%nat /\ text = line "Shutdown signal received. Cleaning up...") \/
  (i = 6%nat /\ text = line "Cleaning up resources (DB, caches, etc.)...") \/
  (i = 9%nat /\ text = line "Cleanup complete. Server shutting down.") \/
  (i = 12%nat /\
   (text = line "Server exited gracefully." \/ exists e, text = fatal_drain e)).
Proof.
  intros Hf Hi.
  pose proof (main_op_at _ _ _ _ _ _ Hf Hi) as Hop.
  abstract_script Hop. unfold main_ops in Hop.
  do 12 (destruct i as [| i]; [inversion Hop; auto 6|]).
  match type of Hop with context [match ?r with _ => _ end] => destruct r end;
    cbn in Hop;
    (destruct i as [| i]; [inversion Hop; eauto 8|]);
    do 2 (destruct i as [| i]; [discriminate Hop|]); destruct i; discriminate Hop.
Qed.

(** X7.  In every run of the process of [main], [cleanup] takes two
    seconds at least: the entry [Cleanup complete. Server shutting down.]
    is logged no earlier than two seconds after the entry [Cleaning up
    resources (DB, caches, etc.)...], which is logged after the receipt of
    the signal.  So [main] calls [Shutdown] no earlier than two seconds
    after it has received the signal. *)
Theorem cleanup_takes_two_seconds
    (acts : list Action) (t0 : Time) (stk : string) (t6 t9 : Time) :
  let h := hist G_main (trace (run acts (start main t0 stk))) in
  In (t6, Logged (line "Cleaning up resources (DB, caches, etc.)...")) h ->
  In (t9, Logged (line "Cleanup complete. Server shutting down.")) h ->
  t6 + 2 * Second <= t9 /\
  exists tr c s, In (tr, Received c s) h /\ tr <= t6 /\
    forall t ctx, In (t, Shutdown_called ctx) h -> tr + 2 * Second <= t.
Proof.
  intros h H6 H9.
  pose proof (main_history main t0 stk acts) as (Hf & _ & _). fold h in Hf.
  destruct (In_nth_error _ _ H6) as [i Hi]. destruct (In_nth_error _ _ H9) as [j Hj].
  assert (Ei : i = 6%nat).
  { destruct (main_log_index _ _ _ _ _ _ Hf Hi)
      as [[_ E] | [[E _] | [[_ E] | [_ [E | [e E]]]]]];
      [discriminate E | exact E | discriminate E | discriminate E |].
    exfalso. revert E. unfold fatal_drain, ensure_newline, line.
    match goal with |- context [if ?b then _ else _] => destruct b end;
      cbn; discriminate. }
  assert (Ej : j = 9%nat).
  { destruct (main_log_index _ _ _ _ _ _ Hf Hj)
      as [[_ E] | [[_ E] | [[E _] | [_ [E | [e E]]]]]];
      [discriminate E | discriminate E | exact E | discriminate E |].
    exfalso. revert E. unfold fatal_drain, ensure_newline, line.
    match goal with |- context [if ?b then _ else _] => destruct b end;
      cbn; discriminate. }
  subst i j.
  assert (Hlen : (10 <= length h)%nat).
  { assert (9 < length h)%nat by (apply nth_error_Some; congruence). lia. }
  destruct (main_until_cleaned _ _ _ Hf Hlen)
    as (c & s & ctx & t1 & t2 & t3 & tr & tl & tc & t6' & tb & te & t9' & Hh & Hr & Hd).
  assert (E6 : nth_error (firstn 10 h) 6 = Some (t6, Logged (line "Cleaning up resources (DB, caches, etc.)...")))
    by (rewrite nth_error_firstn; exact Hi).
  assert (E9 : nth_error (firstn 10 h) 9 = Some (t9, Logged (line "Cleanup complete. Server shutting down.")))
    by (rewrite nth_error_firstn; exact Hj).
  rewrite Hh in E6, E9. cbn in E6, E9. inversion E6; inversion E9; subst t6' t9'.
  assert (H3 : nth_error h 3 = Some (tr, Received c s)).
  { assert (E3 : nth_error (firstn 10 h) 3 = Some (tr, Received c s))
      by (rewrite Hh; reflexivity).
    rewrite nth_error_firstn in E3. exact E3. }
  split; [exact Hd|]. exists tr, c, s.
  split; [eapply nth_error_In; exact H3|]. split; [exact Hr|].
  intros t ctx' Hc.
  destruct (main_until_drain _ _ _ _ _ Hf Hc)
    as (c' & s' & u1 & u2 & u3 & ur & ul & uc & u6 & ub & ue & u9 & Hh' & _ & Ht).
  assert (E3 : nth_error (firstn 11 h) 3 = Some (ur, Received c' s'))
    by (rewrite Hh'; reflexivity).
  rewrite nth_error_firstn in E3.
  change (nth_error h 3 = Some (ur, Received c' s')) in E3. rewrite H3 in E3.
  inversion E3; subst. lia.
Qed.

(* ------------------------------------------------------------------- *)
(** ** The methods of requests                                          *)
(* ------------------------------------------------------------------- *)

(** X8.  The handlers of [main] do not look at the method of a request.
    In every state that the process of [main] reaches in which it runs
    and its socket is open, a request for the path ["/panic"] (whose
    target is not the asterisk form) panics and is recovered whatever its
    method is: the panic is logged, and the answer has status 500 and the
    headers that [http.Error] sets, [Content-Type: text/plain;
    charset=utf-8] and [X-Content-Type-Options: nosniff].  Its body is
    ["Internal Server Error"] and a newline, except for a HEAD request,
    which gets no body though its panic is logged all the same. *)
Theorem panic_route_any_method
    (acts : list Action) (t0 : Time) (stk : string) (r : Request) :
  let p := run acts (start main t0 stk) in
  accepting p = true ->
  URL_Path r = "/panic" -> RequestURI r <> "*" ->
  exists rs,
    step (Request_arrives r) p =
      emit [ By G_conn (Logged (panic_entry "PANIC RECOVERED: "
                                  (AString "Something went wrong!") (stacks_text p)));
             Served r rs ] p /\
    status rs = 500 /\
    header_get "Content-Type" (header rs) = Some "text/plain; charset=utf-8" /\
    header_get "X-Content-Type-Options" (header rs) = Some "nosniff" /\
    body rs = (if (Method r =? "HEAD")%string then ""
               else "Internal Server Error" ++ nl).
Proof.
  intros p Hacc Hp Huri. unfold accepting in Hacc.
  destruct (exit_status p) eqn:Hx; [discriminate Hacc|].
  destruct (server p) eqn:Hs; try discriminate Hacc.
  destruct (request_step acts t0 stk r Hx (ex_intro _ srv Hs)) as (s' & Hrun & Hstep).
  fold p in Hrun, Hstep.
  rewrite serve_panic in Hrun by assumption.
  inversion Hrun; subst s'. clear Hrun. cbn [logged resp map app] in Hstep.
  eexists. split; [exact Hstep|]. cbn. repeat split; reflexivity.
Qed.

(* ------------------------------------------------------------------- *)
(** ** The entry of the start                                           *)
(* ------------------------------------------------------------------- *)

Lemma failure_inv_frame (p p' : Proc) (evs : list (Time * Event)) :
  failure_inv p -> trace p' = (trace p ++ evs)%list ->
  Forall (fun e => forall msg, snd e <> Listener_failed msg) evs ->
  failure_inv p'.
Proof.
  intros IH Et Hev (t & msg & Hin). rewrite Et in *.
  rewrite hist_app, length_app.
  apply in_app_or in Hin. destruct Hin as [Hin | Hin].
  - assert (2 <= length (hist (G_go 0) (trace p)))%nat by (apply IH; eauto). lia.
  - rewrite Forall_forall in Hev. now elim (Hev _ Hin msg).
Qed.

Lemma failure_invariant (acts : list Action) (t0 : Time) (stk : string) :
  failure_inv (run acts (start main t0 stk)).
Proof.
  induction acts as [| a acts IH] using rev_ind.
  - intros (t & msg & []).
  - pose proof (server_invariant acts t0 stk) as (Hsrv & _).
    rewrite run_snoc. set (p := run acts (start main t0 stk)) in *.
    destruct (step_view a p) as
      [E | [(g & th & o & th' & -> & Hx & Hth & Hn & E)
         | [(s & -> & Hx & E) | [(d & -> & Hx & E) | [(srv & -> & Hx & Hs & E)
         | [(msg & -> & Hx & Hs & E) | [(ln & -> & Hx & Hs & E)
         | (r & -> & Hx & E)]]]]]]];
      rewrite E; clear E.
    + exact IH.
    + destruct (commit_fields g o th' p) as (_ & _ & Etr & _).
      eapply failure_inv_frame; [exact IH | exact Etr |].
      repeat constructor. discriminate.
    + unfold signal_arrives. destruct (registered s p).
      * destruct (relay_frame s (notify p) p)
          as (_ & _ & _ & _ & _ & _ & _ & evs & Etr & Hev).
        eapply failure_inv_frame; [exact IH | exact Etr |].
        apply Forall_forall. intros e He. apply in_map_iff in He.
        destruct He as (ev & <- & He). rewrite Forall_forall in Hev.
        destruct (Hev ev He) as (c & [-> | ->]); discriminate.
      * destruct (default_kills s); [|destruct (default_dumps s)];
          (eapply failure_inv_frame; [exact IH | reflexivity |]);
          repeat constructor; discriminate.
    + exact IH.
    + eapply failure_inv_frame; [exact IH | reflexivity |].
      repeat constructor; discriminate.
    + intros _. cbn [trace emit set_server map].
      rewrite hist_app, hist_one, app_nil_r.
      destruct Hs as [srv Hs]. destruct (Hsrv srv Hs) as [_ Hh].
      rewrite <- (length_map snd), Hh. cbn. lia.
    + eapply failure_inv_frame; [exact IH | reflexivity |].
      repeat constructor; discriminate.
    + destruct (request_arrives_frame r p)
        as (_ & _ & _ & _ & _ & _ & _ & _ & evs & Etr & Hev).
      eapply failure_inv_frame; [exact IH | exact Etr |].
      apply Forall_forall. intros e He. apply in_map_iff in He.
      destruct He as (ev & <- & He). rewrite Forall_forall in Hev.
      specialize (Hev ev He). intros msg E. cbn in E. subst ev. exact Hev.
Qed.

(** X10.  In every run of the process of [main], the entry [Server
    started on :8080] is logged before [ListenAndServe] is called, not
    when the socket is open: it is the first step of the goroutine that
    runs the server, the call is its second, and the entry is in the log
    whenever the socket has failed, so that a failure to bind leaves
    [Server started on :8080] before [Server error: ] in the log. *)
Theorem started_is_logged_before_listening
    (acts : list Action) (t0 : Time) (stk : string) :
  let p := run acts (start main t0 stk) in
  let hb := hist (G_go 0) (trace p) in
  (hb <> [] ->
   exists t, nth_error hb 0 = Some (t, Logged (line "Server started on :8080"))) /\
  (forall i t srv, nth_error hb i = Some (t, Listen_called srv) -> i = 1%nat) /\
  (forall t msg, In (t, Listener_failed msg) (trace p) ->
     exists t', In (t', By (G_go 0) (Logged (line "Server started on :8080"))) (trace p)) /\
  (forall i t err, nth_error hb i = Some (t, Logged (fatal_serve err)) -> (2 <= i)%nat).
Proof.
  intros p hb.
  assert (Hthr : hb = [] \/
            exists thb, follows t0 (thread (main_func3 main_server)) hb thb).
  { destruct (threads_invariant acts t0 stk) as [(_ & _ & Hno) | (thb & _ & _ & Hb & _)].
    - left. apply Hno.
    - right. exists thb. exact Hb. }
  pose proof (failure_invariant acts t0 stk) as Hfail.
  unfold failure_inv in Hfail. fold p hb in Hfail.
  assert (Ehb : hb = hist (G_go 0) (trace p)) by reflexivity. clearbody hb.
  assert (Hfirst : hb <> [] ->
            exists t, nth_error hb 0 = Some (t, Logged (line "Server started on :8080"))).
  { intros Hne. destruct Hthr as [E | [thb Hb]]; [now elim Hne|].
    destruct hb as [| [t o] hb']; [now elim Hne|].
    pose proof (serve_op_at _ _ _ O t o Hb eq_refl) as Hop.
    unfold serve_script, serve_ops in Hop. cbn [nth_error] in Hop.
    inversion Hop. exists t. reflexivity. }
  assert (Hidx : forall i t o, nth_error hb i = Some (t, o) ->
            match o with
            | Listen_called _ => i = 1%nat
            | Logged text => i = O \/ (2 <= i)%nat
            | _ => True
            end).
  { intros i t o Hi. destruct Hthr as [E | [thb Hb]].
    { rewrite E in Hi. destruct i; discriminate Hi. }
    pose proof (serve_op_at _ _ _ _ _ _ Hb Hi) as Hop.
    abstract_script Hop. unfold serve_ops, serve_ops_tail in Hop.
    destruct b; destruct (error_eqb e ErrServerClosed); cbn in Hop;
      do 5 (destruct i as [| i]; cbn in Hop;
            [inversion Hop; subst; try exact I; auto; right; lia|]);
      destruct i; discriminate Hop. }
  split; [exact Hfirst|]. split; [|split].
  - intros i t srv Hi. exact (Hidx _ _ _ Hi).
  - intros t msg Hin.
    pose proof (Hfail (ex_intro _ t (ex_intro _ msg Hin))) as Hlen.
    destruct Hfirst as [t' H0]; [intros E; rewrite E in Hlen; cbn in Hlen; lia|].
    exists t'. apply hist_In. rewrite <- Ehb. eapply nth_error_In. exact H0.
  - intros i t err Hi. destruct (Hidx _ _ _ Hi) as [-> | H]; [|exact H].
    exfalso. destruct Hfirst as [t' H0];
      [intros E; rewrite E in Hi; discriminate Hi|].
    rewrite Hi in H0. injection H0 as _ E.
    revert E. unfold fatal_serve, ensure_newline, line.
    match goal with |- context [if ?b then _ else _] => destruct b end;
      cbn; discriminate.
Qed.

End Program.

(* =================================================================== *)
(** * Part 10: the properties on sample runs                            *)
(* =================================================================== *)

(** C1, the counterexample.  A handler that writes ["partial"] and then
    panics: wrapped by [recoveryMiddleware] it returns, and the reply has
    the status 200 that the first write sent, not 500, with the error
    text after what was written. *)
Lemma recoveryMiddleware_after_header :
  fst (exec (ServeHTTP writes_then_panics conn_response (get_request "/"))
         (request_state (get_request "/"))) = Panicked (AString "late") /\
  fst (exec (ServeHTTP (recoveryMiddleware writes_then_panics) conn_response
               (get_request "/"))
         (request_state (get_request "/"))) = Returned tt /\
  status (resp (snd (exec (ServeHTTP (recoveryMiddleware writes_then_panics)
                             conn_response (get_request "/"))
                       (request_state (get_request "/"))))) = 200 /\
  body (resp (snd (exec (ServeHTTP (recoveryMiddleware writes_then_panics)
                           conn_response (get_request "/"))
                     (request_state (get_request "/"))))) =
    "partial" ++ nl ++ "Internal Server Error" ++ nl.
Proof.
  vm_compute. repeat split.
Qed.


(** The samples run [main] with redirects that point to the cleaned path
    and carry a fixed note, on a system where signal 9 kills by default
    and signal 3 makes the runtime dump the stacks, from the instant 0. *)

(** C9 on a sample run: the request [GET /] after the start of the
    process. *)
Lemma root_route_says_hello_witness :
  let p := run (fun s => s =? 9) (fun s => s =? 3) startup_schedule
             (start (main (fun target _ => target) (fun _ _ _ => "note")) 0
                "goroutine 1 [running]") in
  let r := get_request "/" in
  exists rs,
    step (fun s => s =? 9) (fun s => s =? 3) (Request_arrives r) p =
      emit [Served r rs] p /\
    status rs = 200 /\ body rs = "Hello, World!" ++ nl.
Proof.
  apply (root_route_says_hello (fun target _ => target) (fun _ _ _ => "note")
           (fun s => s =? 9) (fun s => s =? 3) startup_schedule 0
           "goroutine 1 [running]" (get_request "/")).
  - vm_compute. reflexivity.
  - vm_compute. eexists. reflexivity.
  - reflexivity.
  - reflexivity.
  - discriminate.
Defined.

(** C10, the counterexample.  After the start of the process, the
    request [GET //nonexistent], whose path is not ["/panic"], is
    answered with status 301 and the note of a redirect, not with status
    200 and the greeting. *)
Lemma double_slash_is_redirected :
  let p := run (fun s => s =? 9) (fun s => s =? 3) startup_schedule
             (start (main (fun target _ => target) (fun _ _ _ => "note")) 0
                "goroutine 1 [running]") in
  let r := get_request "//nonexistent" in
  step (fun s => s =? 9) (fun s => s =? 3) (Request_arrives r) p =
    emit [Served r
            {| wroteHeader := true; status := 301;
               header := [("Content-Type", "text/html; charset=utf-8");
                          ("Location", "/nonexistent")];
               contentLength := -1; written := 5;
               body := "note" ++ nl; toHEAD := false |}] p.
Proof.
  vm_compute. reflexivity.
Qed.

(** C10, amended, on a sample run: the request [GET /nonexistent] after
    the start of the process. *)
Lemma catch_all_route_witness :
  let p := run (fun s => s =? 9) (fun s => s =? 3) startup_schedule
             (start (main (fun target _ => target) (fun _ _ _ => "note")) 0
                "goroutine 1 [running]") in
  let r := get_request "/nonexistent" in
  exists logs rs,
    step (fun s => s =? 9) (fun s => s =? 3) (Request_arrives r) p =
      emit (logs ++ [Served r rs])%list p /\
    (RequestURI r <> "*" -> URL_Path r <> "/panic" ->
     (if (Method r =? "CONNECT")%string then rooted (URL_Path r) = true
      else cleanPath (URL_Path r) = URL_Path r) ->
     logs = [] /\ status rs = 200 /\
     body rs = if (Method r =? "HEAD")%string then "" else "Hello, World!" ++ nl) /\
    ((Method r =? "CONNECT")%string = false \/ rooted (URL_Path r) = true ->
     status rs <> 404 /\
     (status rs = 200 \/ status rs = 301 \/ status rs = 400 \/ status rs = 500)).
Proof.
  apply (catch_all_route (fun target _ => target) (fun _ _ _ => "note")
           (fun s => s =? 9) (fun s => s =? 3) startup_schedule 0
           "goroutine 1 [running]" (get_request "/nonexistent")).
  - vm_compute. reflexivity.
  - vm_compute. eexists. reflexivity.
Defined.

(** C4 on a sample run: the request [GET /panic] after the start of the
    process. *)
Lemma panic_route_recovers_witness :
  let p := run (fun s => s =? 9) (fun s => s =? 3) startup_schedule
             (start (main (fun target _ => target) (fun _ _ _ => "note")) 0
                "goroutine 1 [running]") in
  let r := get_request "/panic" in
  let p' := step (fun s => s =? 9) (fun s => s =? 3) (Request_arrives r) p in
  (exists rs,
      p' = emit [ By G_conn (Logged (ensure_newline
                    ("PANIC RECOVERED: Something went wrong!" ++ nl ++
                     "STACK TRACE:" ++ nl ++ stacks_text p)));
                  Served r rs ] p /\
      status rs = 500 /\ body rs = "Internal Server Error" ++ nl) /\
  exit_status p' = None /\
  server p' = server p /\
  main_thread p' = main_thread p /\ spawned p' = spawned p /\
  (forall r', exists logs rs',
      step (fun s => s =? 9) (fun s => s =? 3) (Request_arrives r') p' =
        emit (logs ++ [Served r' rs'])%list p').
Proof.
  apply (panic_route_recovers (fun target _ => target) (fun _ _ _ => "note")
           (fun s => s =? 9) (fun s => s =? 3) startup_schedule 0
           "goroutine 1 [running]" (get_request "/panic")).
  - vm_compute. reflexivity.
  - vm_compute. eexists. reflexivity.
  - reflexivity.
  - reflexivity.
  - discriminate.
Defined.



(** C3 on the graceful run: [Shutdown] is called at two seconds with a
    token whose deadline is at five seconds, so that three seconds are
    left for the drain. *)
Lemma deadline_runs_from_signal_witness :
  let p := run (fun s => s =? 9) (fun s => s =? 3) graceful_schedule
             (start (main (fun target _ => target) (fun _ _ _ => "note")) 0
                "goroutine 1 [running]") in
  let h := hist G_main (trace p) in
  In (2 * Second, Shutdown_called {| deadline := 5 * Second |}) h /\
  exists c s t1 t2 t3 tr tl tc t6 tb te t9,
    firstn 11 h =
      [ (t1, Made c 1); (t2, Notified c [SIGINT; SIGTERM]);
        (t3, Spawned (main_func3 (main_server (fun target _ => target)
                                              (fun _ _ _ => "note"))));
        (tr, Received c s);
        (tl, Logged (line "Shutdown signal received. Cleaning up..."));
        (tc, Deadline_set {| deadline := 5 * Second |});
        (t6, Logged (line "Cleaning up resources (DB, caches, etc.)..."));
        (tb, Sleep_begun (tb + 2 * Second)); (te, Sleep_done);
        (t9, Logged (line "Cleanup complete. Server shutting down."));
        (2 * Second, Shutdown_called {| deadline := 5 * Second |}) ] /\
    deadline {| deadline := 5 * Second |} = tc + 5 * Second /\
    tr <= tc /\ tc <= tb /\ tb + 2 * Second <= te /\ te <= 2 * Second /\
    deadline {| deadline := 5 * Second |} - 2 * Second <= 3 * Second.
Proof.
  assert (Hin : In (2 * Second, Shutdown_called {| deadline := 5 * Second |})
                  (hist G_main (trace
                     (run (fun s => s =? 9) (fun s => s =? 3) graceful_schedule
                        (start (main (fun target _ => target) (fun _ _ _ => "note")) 0
                           "goroutine 1 [running]"))))).
  { vm_compute. do 10 right. left. reflexivity. }
  split; [exact Hin|].
  exact (proj1 (deadline_runs_from_signal (fun target _ => target) (fun _ _ _ => "note")
                  (fun s => s =? 9) (fun s => s =? 3) graceful_schedule 0
                  "goroutine 1 [running]" (2 * Second) {| deadline := 5 * Second |} Hin)).
Defined.




(** C7, the counterexample.  SIGINT arrives and [main] reads it from the
    channel; SIGTERM arrives after: the trap has written to the channel
    twice. *)
Lemma trap_writes_twice :
  let p := run (fun s => s =? 9) (fun s => s =? 3) second_signal_schedule
             (start (main (fun target _ => target) (fun _ _ _ => "note")) 0
                "goroutine 1 [running]") in
  sents (trace p) = [SIGINT; SIGTERM] /\
  In (0, Sent O SIGINT) (trace p) /\ In (0, Sent O SIGTERM) (trace p) /\
  map snd (skipn 3 (hist G_main (trace p))) = [Received O SIGINT] /\
  exit_status p = None.
Proof.
  vm_compute. repeat split.
  - do 6 right. left. reflexivity.
  - do 8 right. left. reflexivity.
Qed.

(** The graceful run ends with status 0, and has gone through the whole
    script of [main]. *)
Lemma exit_status_meaning_witness :
  exit_meaning (fun target _ => target) (fun _ _ _ => "note") (fun s => s =? 9) (fun s => s =? 3)
    (run (fun s => s =? 9) (fun s => s =? 3) graceful_schedule
       (start (main (fun target _ => target) (fun _ _ _ => "note")) 0
          "goroutine 1 [running]")) (Exit_code 0).
Proof.
  apply (exit_status_meaning (fun target _ => target) (fun _ _ _ => "note")
           (fun s => s =? 9) (fun s => s =? 3) graceful_schedule 0 "goroutine 1 [running]" (Exit_code 0)).
  vm_compute. reflexivity.
Defined.

(** X6 on a sample run: one second into [cleanup], the request [GET /]
    is answered. *)
Lemma requests_taken_during_cleanup_witness :
  let p := run (fun s => s =? 9) (fun s => s =? 3) cleanup_schedule
             (start (main (fun target _ => target) (fun _ _ _ => "note")) 0
                "goroutine 1 [running]") in
  now p = 1 * Second /\
  accepting p = true /\
  exists logs rs,
    step (fun s => s =? 9) (fun s => s =? 3) (Request_arrives (get_request "/")) p =
      emit (logs ++ [Served (get_request "/") rs])%list p.
Proof.
  split; [vm_compute; reflexivity|].
  apply (requests_taken_during_cleanup (fun target _ => target) (fun _ _ _ => "note")
           (fun s => s =? 9) (fun s => s =? 3) cleanup_schedule 0
           "goroutine 1 [running]" 0 O SIGTERM (get_request "/")).
  - vm_compute. do 3 right. left. reflexivity.
  - vm_compute. reflexivity.
  - vm_compute. reflexivity.
  - exists 0. vm_compute. do 5 right. left. reflexivity.
  - vm_compute. reflexivity.
Defined.

(** In the graceful run the two entries of [cleanup] are logged at the
    instants 0 and two seconds. *)
Lemma cleanup_takes_two_seconds_witness :
  let h := hist G_main (trace (run (fun s => s =? 9) (fun s => s =? 3) graceful_schedule
       (start (main (fun target _ => target) (fun _ _ _ => "note")) 0
          "goroutine 1 [running]"))) in
  0 + 2 * Second <= 2 * Second /\
  exists tr c s,
    In (tr, Received c s) h /\ tr <= 0 /\
    forall t ctx, In (t, Shutdown_called ctx) h -> tr + 2 * Second <= t.
Proof.
  apply (cleanup_takes_two_seconds (fun target _ => target) (fun _ _ _ => "note")
           (fun s => s =? 9) (fun s => s =? 3) graceful_schedule 0 "goroutine 1 [running]"
           0 (2 * Second)).
  - vm_compute. do 6 right. left. reflexivity.
  - vm_compute. do 9 right. left. reflexivity.
Defined.

(** A HEAD request for ["/panic"] after the start of the process. *)
Lemma panic_route_any_method_witness :
  let p := run (fun s => s =? 9) (fun s => s =? 3) startup_schedule
             (start (main (fun target _ => target) (fun _ _ _ => "note")) 0
                "goroutine 1 [running]") in
  let r := {| Method := "HEAD"; RequestURI := "/panic"; URL_Path := "/panic";
              ProtoMajor := 1; ProtoMinor := 1 |} in
  exists rs,
    step (fun s => s =? 9) (fun s => s =? 3) (Request_arrives r) p =
      emit [ By G_conn (Logged (panic_entry "PANIC RECOVERED: "
                                  (AString "Something went wrong!") (stacks_text p)));
             Served r rs ] p /\
    status rs = 500 /\
    header_get "Content-Type" (header rs) = Some "text/plain; charset=utf-8" /\
    header_get "X-Content-Type-Options" (header rs) = Some "nosniff" /\
    body rs = (if (Method r =? "HEAD")%string then ""
               else "Internal Server Error" ++ nl).
Proof.
  apply (panic_route_any_method (fun target _ => target) (fun _ _ _ => "note")
           (fun s => s =? 9) (fun s => s =? 3) startup_schedule 0 "goroutine 1 [running]").
  - vm_compute. reflexivity.
  - reflexivity.
  - discriminate.
Defined.
